(** * speaches: realtime input-audio-buffer event router

    A shallow embedding of
    [src/speaches/realtime/input_audio_buffer_event_router.py] and of the
    turn-detection defaults of [src/speaches/realtime/session.py], with the
    properties of the resampler, of the turn-detection flow and of the
    buffer life cycle (append / commit / clear / speech_stopped).

    Conventions of the embedding.
    - Python [int] is [Z]; [//] with a positive divisor is [Z.div].
    - A sample, a numpy [float32]/[float64] value, is an exact rational
      ([Q]): the rounding of the interpolated values is idealised away.
    - A Python [float] is an IEEE 754 binary64 number, carried as the
      rational it denotes; every operation on floats rounds to the
      nearest binary64 number ([Float64]).  The length the resampler
      computes is computed that way.
    - [OrderedDict] is an association list in insertion order with unique
      keys ([odict]); the last entry is the most recently inserted one.
    - Handlers run in a small state-and-exception monad [M] over a [World]
      that holds the session context, the number of identifiers drawn so far
      and the log of calls made to the external VAD capability.
    - An object mutated through a reference (the active buffer) is read from
      the mapping, updated, and written back under the same key. *)

From Stdlib Require Import String Ascii DecimalString Bool Arith ZArith QArith Qround.
From Stdlib Require Import Qabs Qpower.
From Stdlib Require Import Floats.SpecFloat List Lia Lqa.
Import ListNotations.

Local Open Scope string_scope.
Local Open Scope Z_scope.
Local Open Scope list_scope.

(** ** Insertion-ordered dictionaries *)

Module OrderedDict.

Definition odict (V : Type) : Type := list (string * V).

Definition keys {V} (d : odict V) : list string := map fst d.

(** Keys of a dictionary are pairwise distinct. *)
Definition wf {V} (d : odict V) : Prop := NoDup (keys d).

Fixpoint mem {V} (k : string) (d : odict V) : bool :=
  match d with
  | [] => false
  | (k', _) :: d' => if String.eqb k k' then true else mem k d'
  end.

(** [d[k]] *)
Fixpoint getitem {V} (k : string) (d : odict V) : option V :=
  match d with
  | [] => None
  | (k', v) :: d' => if String.eqb k k' then Some v else getitem k d'
  end.

(** Replace the value stored under an existing key, keeping its position. *)
Fixpoint replace {V} (k : string) (v : V) (d : odict V) : odict V :=
  match d with
  | [] => []
  | (k', v') :: d' =>
      if String.eqb k k' then (k', v) :: d' else (k', v') :: replace k v d'
  end.

(** [d[k] = v]: an existing key keeps its position, a new key goes last. *)
Definition setitem {V} (k : string) (v : V) (d : odict V) : odict V :=
  if mem k d then replace k v d else d ++ [(k, v)].

(** [next(reversed(d), None)]: the most recently inserted key. *)
Definition last_key {V} (d : odict V) : option string :=
  match rev d with
  | [] => None
  | (k, _) :: _ => Some k
  end.

(** [d.popitem()]: remove the most recently inserted entry. *)
Definition popitem {V} (d : odict V) : option ((string * V) * odict V) :=
  match rev d with
  | [] => None
  | kv :: r => Some (kv, rev r)
  end.

End OrderedDict.

Import OrderedDict.

(** ** Data model *)

(** A sample: a numpy [float32], as an exact rational. *)
Abbreviation sample := Q (only parsing).

Definition SAMPLE_RATE : Z := 16000.
Definition MS_SAMPLE_RATE : Z := 16.
Definition MAX_VAD_WINDOW_SIZE_SAMPLES : Z := 3000 * MS_SAMPLE_RATE.

Record Error := { type : string; message : string }.

Definition empty_input_audio_buffer_commit_error : Error :=
  {| type := "invalid_request_error";
     message := "Error committing input audio buffer: the buffer is empty." |}.

(** [dict[Literal["start", "end"], int]] *)
Record SpeechTimestamp := { ts_start : Z; ts_end : Z }.

Record TurnDetection := {
  threshold : Q;
  prefix_padding_ms : Z;
  silence_duration_ms : Z;
  create_response : bool
}.

(** The options handed to the external VAD capability. *)
Record VadOptions := {
  vad_threshold : Q;
  min_silence_duration_ms : Z;
  speech_pad_ms : Z
}.

(** Modelled from the spec: the class [InputAudioBuffer] and its [VadState]
    live in [speaches/realtime/input_audio_buffer.py], which is not part of
    the sources at hand.  The spec gives a buffer an identity [id], the
    sample sequence [data], the derived [size] (sample count) and
    [duration_ms] (size over samples-per-millisecond), and the mutable
    [VadState] with two optional integers. *)
Record VadState := {
  audio_start_ms : option Z;
  audio_end_ms : option Z
}.

Record InputAudioBuffer := {
  id : string;
  data : list sample;
  vad_state : VadState
}.

Definition size (b : InputAudioBuffer) : Z := Z.of_nat (length (data b)).

Definition duration_ms (b : InputAudioBuffer) : Z := size b / MS_SAMPLE_RATE.

(** A buffer as its constructor leaves it. *)
Definition empty_buffer (new_id : string) : InputAudioBuffer :=
  {| id := new_id; data := [];
     vad_state := {| audio_start_ms := None; audio_end_ms := None |} |}.

(** [buffer.append(chunk)] *)
Definition append (b : InputAudioBuffer) (audio_chunk : list sample) : InputAudioBuffer :=
  {| id := id b; data := data b ++ audio_chunk; vad_state := vad_state b |}.

Definition set_audio_start_ms (b : InputAudioBuffer) (ms : Z) : InputAudioBuffer :=
  {| id := id b; data := data b;
     vad_state := {| audio_start_ms := Some ms;
                     audio_end_ms := audio_end_ms (vad_state b) |} |}.

Definition set_audio_end_ms (b : InputAudioBuffer) (ms : Z) : InputAudioBuffer :=
  {| id := id b; data := data b;
     vad_state := {| audio_start_ms := audio_start_ms (vad_state b);
                     audio_end_ms := Some ms |} |}.

Record ConversationItemContent := {
  transcript : option string;
  content_type : string
}.

Record ConversationItem := {
  item_id : string;
  object : string;
  status : string;
  role : string;
  content : list ConversationItemContent;
  item_type : string
}.

(** Modelled from the spec: the event classes of [speaches.types.realtime]
    are not part of the sources at hand.  The fields are the ones the
    handlers pass and section 6 of the specification lists.  One field
    departs from the specification, on the word of the source: the
    [previous_item_id] of [InputAudioBufferCommittedEvent] is a required
    string.  Line 158 silences the type checker where [None] is passed to
    it, and lines 188-190 replace [None] by a placeholder "to avoid
    [ValidationError]", the field being "required".  Building that event
    from [None] therefore fails, see [InputAudioBufferCommittedEvent_new].
    The [previous_item_id] of [ConversationItemCreatedEvent] is optional:
    line 220 passes [None] to it as it is. *)
Inductive Event : Type :=
| ErrorEvent (event_id : string) (error : Error)
| InputAudioBufferAppendEvent (audio : string)
| InputAudioBufferCommitEvent
| InputAudioBufferClearEvent
| InputAudioBufferCommittedEvent
    (event_id : string) (previous_item_id : string) (item_id : string)
| InputAudioBufferClearedEvent (event_id : string)
| InputAudioBufferSpeechStartedEvent
    (event_id : string) (item_id : string) (audio_start_ms : Z)
| InputAudioBufferSpeechStoppedEvent
    (event_id : string) (item_id : string) (audio_end_ms : Z)
| ConversationItemCreatedEvent
    (event_id : string) (previous_item_id : option string) (item : ConversationItem).

(** The session configuration; only [turn_detection] is read by the router. *)
Record Session := { turn_detection : option TurnDetection }.

(** [create_session_configuration] of session.py, restricted to the
    turn-detection defaults. *)
Definition create_session_configuration : Session :=
  {| turn_detection :=
       Some {| threshold := 9 # 10;
               prefix_padding_ms := 0;
               silence_duration_ms := 550;
               create_response := false |} |}.

Record SessionContext := {
  input_audio_buffers : odict InputAudioBuffer;
  conversation : odict ConversationItem;
  pubsub : list Event;
  configuration : Session
}.

(** ** The effect monad *)

Record World := {
  ctx : SessionContext;
  draws : nat;
  vad_calls : list (list sample * VadOptions)
}.

Inductive exn : Type := StopIteration | KeyError | ValueError | ValidationError.

Inductive Res (A : Type) : Type :=
| Ok (a : A) (w : World)
| Raise (e : exn) (w : World).
Arguments Ok {A} a w.
Arguments Raise {A} e w.

Definition M (A : Type) : Type := World -> Res A.

Definition ret {A} (a : A) : M A := fun w => Ok a w.

Definition bind {A B} (m : M A) (f : A -> M B) : M B :=
  fun w => match m w with
           | Ok a w' => f a w'
           | Raise e w' => Raise e w'
           end.

Definition raise {A} (e : exn) : M A := fun w => Raise e w.

Notation "x <- m ;; k" := (bind m (fun x => k))
  (at level 61, m at next level, right associativity).
Notation "' pat <- m ;; k" := (bind m (fun x => match x with pat => k end))
  (at level 61, pat pattern, m at next level, right associativity).
Notation "m ;;; k" := (bind m (fun _ => k))
  (at level 61, right associativity).

Definition get_ctx : M SessionContext := fun w => Ok (ctx w) w.

Definition put_ctx (c : SessionContext) : M unit :=
  fun w => Ok tt {| ctx := c; draws := draws w; vad_calls := vad_calls w |}.

Definition from_option {A} (e : exn) (o : option A) : M A :=
  match o with
  | Some a => ret a
  | None => raise e
  end.

(** Modelled from the spec: the constructor call
    [InputAudioBufferCommittedEvent(event_id=..., previous_item_id=...,
    item_id=...)] of the absent class, with the validation the source
    reports for it (lines 158 and 188-190): [None] for [previous_item_id]
    raises [ValidationError]. *)
Definition InputAudioBufferCommittedEvent_new
    (event_id : string) (previous_item_id : option string) (item_id : string) : M Event :=
  match previous_item_id with
  | Some previous => ret (InputAudioBufferCommittedEvent event_id previous item_id)
  | None => raise ValidationError
  end.

(** [ctx.pubsub.publish_nowait(event)]: events are queued in order. *)
Definition publish_nowait (ev : Event) : M unit :=
  c <- get_ctx ;;
  put_ctx {| input_audio_buffers := input_audio_buffers c;
             conversation := conversation c;
             pubsub := pubsub c ++ [ev];
             configuration := configuration c |}.

Definition set_input_audio_buffers (d : odict InputAudioBuffer) : M unit :=
  c <- get_ctx ;;
  put_ctx {| input_audio_buffers := d;
             conversation := conversation c;
             pubsub := pubsub c;
             configuration := configuration c |}.

Definition set_conversation (d : odict ConversationItem) : M unit :=
  c <- get_ctx ;;
  put_ctx {| input_audio_buffers := input_audio_buffers c;
             conversation := d;
             pubsub := pubsub c;
             configuration := configuration c |}.

(** ** The resampler *)

Module Numpy.

Definition Qlt_bool (x y : Q) : bool := negb (Qle_bool y x).

(** Python's [int(x)] on a float: truncation toward zero. *)
Definition py_int (x : Q) : Z := Z.quot (Qnum x) (Zpos (Qden x)).

(** [np.arange(n)] *)
Definition arange (n : nat) : list Q :=
  map (fun i => inject_Z (Z.of_nat i)) (seq 0 n).

(** [np.linspace(start, stop, num)] with the default [endpoint=True]:
    [arange(num) * step + start] with [step = (stop - start) / (num - 1)],
    the last element then overwritten with [stop].  With [num = 1] the step
    is undefined and the single element is [0 * (stop - start) + start].
    A negative [num] raises [ValueError]. *)
Definition linspace (start stop : Q) (num : Z) : option (list Q) :=
  if num <? 0 then None
  else
    match Z.to_nat num with
    | O => Some []
    | S O => Some [(0 * (stop - start) + start)%Q]
    | S div =>
        let step := ((stop - start) / inject_Z (Z.of_nat div))%Q in
        Some (map (fun i => (inject_Z (Z.of_nat i) * step + start)%Q) (seq 0 div)
              ++ [stop])
    end.

(** The index [j] with [xp[j] <= x < xp[j+1]] that the search of
    [np.interp] returns on increasing sample points, counted from [j]. *)
Fixpoint search (x : Q) (xp : list Q) (j : nat) : nat :=
  match xp with
  | _ :: ((x1 :: _) as tl) => if Qle_bool x1 x then search x tl (S j) else j
  | _ => j
  end.

(** One point of [np.interp(x, xp, fp)] with the default [left = fp[0]] and
    [right = fp[-1]]. *)
Definition interp1 (xp fp : list Q) (x : Q) : Q :=
  let n := length xp in
  if Qlt_bool x (nth 0 xp 0%Q) then nth 0 fp 0%Q
  else if Qlt_bool (nth (n - 1) xp 0%Q) x then nth (n - 1) fp 0%Q
  else
    let j := search x xp 0 in
    if Nat.eqb j (n - 1) then nth j fp 0%Q
    else if Qeq_bool (nth j xp 0%Q) x then nth j fp 0%Q
    else
      let slope := ((nth (S j) fp 0 - nth j fp 0) / (nth (S j) xp 0 - nth j xp 0))%Q in
      (slope * (x - nth j xp 0) + nth j fp 0)%Q.

(** [np.interp(x, xp, fp)]; it raises [ValueError] when the array of sample
    points is empty or when [xp] and [fp] differ in length. *)
Definition interp (x xp fp : list Q) : option (list Q) :=
  match xp with
  | [] => None
  | _ => if Nat.eqb (length fp) (length xp)
         then Some (map (interp1 xp fp) x)
         else None
  end.

End Numpy.

(** Rounding to the nearest integer, ties to the even one: the rounding
    of IEEE 754 arithmetic, and Python's [round]. *)
Definition round_half_even (x : Q) : Z :=
  let f := Qfloor x in
  let r := (x - inject_Z f)%Q in
  match (r ?= 1 # 2)%Q with
  | Lt => f
  | Gt => f + 1
  | Eq => if Z.even f then f else f + 1
  end.

(** Python's [float], IEEE 754 binary64.  A finite float is carried as
    the rational it denotes.  An operation rounds its exact result to the
    nearest binary64 number, ties to the even significand; a result too
    large for binary64 is [None].  (Python raises [OverflowError] when a
    conversion or a division of integers overflows; a product that
    overflows is an infinity, on which [int] raises [OverflowError].) *)
Module Float64.

Definition pow2 (e : Z) : Q := (2 ^ e)%Q.

(** The magnitude of a rational other than zero: the [m] with
    [2^(m-1) <= |x| < 2^m]. *)
Definition mag (x : Q) : Z :=
  let a := Z.log2 (Z.abs (Qnum x)) - Z.log2 (Zpos (Qden x)) in
  if Qle_bool (pow2 a) (Qabs x) then a + 1 else a.

(** The exponent of the last place of the binary64 numbers around [x]:
    53 significant bits, and [2^-1074] throughout the subnormal range. *)
Definition ulp_exponent (x : Q) : Z := Z.max (mag x - 53) (-1074).

(** The binary64 number nearest to [x], without a bound on the exponent. *)
Definition round (x : Q) : Q :=
  let e := ulp_exponent x in
  (inject_Z (round_half_even (x / pow2 e)) * pow2 e)%Q.

Definition finite (x : Q) : option Q :=
  if Qle_bool (pow2 1024) (Qabs x) then None else Some x.

(** [float(n)] for an [int]. *)
Definition of_int (n : Z) : option Q := finite (round (inject_Z n)).

(** [a / b] on two [int]s, the correctly rounded quotient;
    [ZeroDivisionError] is [None] as well. *)
Definition truediv (a b : Z) : option Q :=
  if b =? 0 then None else finite (round (inject_Z a / inject_Z b)).

(** [x * y] on two [float]s. *)
Definition mul (x y : Q) : option Q := finite (round (x * y)).

(** The unit roundoff [2^-53]. *)
Definition unit_roundoff : Q := 1 # 9007199254740992.

End Float64.

(** [ratio = target_sample_rate / sample_rate] followed by
    [int(len(data) * ratio)], as Python evaluates them: the quotient of
    the two integers rounded to a float, the length converted to a float,
    the product rounded, the result truncated. *)
Definition target_length (len sample_rate target_sample_rate : Z) : option Z :=
  match Float64.truediv target_sample_rate sample_rate with
  | None => None
  | Some ratio =>
      match Float64.of_int len with
      | None => None
      | Some flen => option_map Numpy.py_int (Float64.mul flen ratio)
      end
  end.

(** [resample_audio_data]; [None] stands for the exception the call
    raises: [ZeroDivisionError] for a [sample_rate] of zero,
    [OverflowError] beyond the range of binary64, and the [ValueError] of
    numpy for a negative length or an empty input.  The values of the
    samples are exact: the rounding inside [np.linspace] and [np.interp]
    and that of the final [astype(np.float32)] are idealised away. *)
Definition resample_audio_data
    (data : list sample) (sample_rate target_sample_rate : Z) : option (list sample) :=
  match target_length (Z.of_nat (length data)) sample_rate target_sample_rate with
  | None => None
  | Some target_length =>
      match Numpy.linspace 0%Q (inject_Z (Z.of_nat (length data))) target_length with
      | None => None
      | Some positions => Numpy.interp positions (Numpy.arange (length data)) data
      end
  end.

(** The reading of the resampler the specification gives, for comparison:
    a length rounded to the nearest integer ([round_half_even]), and the
    piecewise-linear interpolant of the samples, held constant before the
    first and after the last sample. *)
Definition linear_interpolation (data : list sample) (x : Q) : Q :=
  let n := length data in
  if Numpy.Qlt_bool x 0 then nth 0 data 0%Q
  else if Numpy.Qlt_bool (inject_Z (Z.of_nat (n - 1))) x then nth (n - 1) data 0%Q
  else
    let j := Z.to_nat (Qfloor x) in
    let t := (x - inject_Z (Qfloor x))%Q in
    ((1 - t) * nth j data 0 + t * nth (S j) data 0)%Q.

(** Where output sample [i] is evaluated according to the specification. *)
Definition spec_position (from_rate to_rate : Z) (i : nat) : Q :=
  (inject_Z (Z.of_nat i) * inject_Z from_rate / inject_Z to_rate)%Q.

(** Where output sample [i] of [out_len] is evaluated by the code: the
    [i]-th of [out_len] evenly spaced points of [[0, in_len]], both ends
    included. *)
Definition code_position (in_len out_len i : nat) : Q :=
  if Nat.eqb out_len 1 then 0%Q
  else (inject_Z (Z.of_nat i) * inject_Z (Z.of_nat in_len)
        / inject_Z (Z.of_nat (out_len - 1)))%Q.

(** The same length computed with the IEEE 754 arithmetic of the Standard
    Library ([SpecFloat], the specification of Rocq's own floats).  It
    serves as a reference: [target_length] is checked against it on a
    range of inputs ([target_length_agrees_with_SpecFloat]). *)
Module Binary64.

Definition prec : Z := 53.
Definition emax : Z := 1024.

Definition of_Z (n : Z) : spec_float := binary_normalize prec emax n 0 false.

(** [int(x)]: truncation toward zero; infinities and NaN raise. *)
Definition int_of_float (x : spec_float) : option Z :=
  match x with
  | S754_zero _ => Some 0
  | S754_finite s m e =>
      let magnitude := if 0 <=? e then Zpos m * 2 ^ e else Zpos m / 2 ^ (- e) in
      Some (if s then - magnitude else magnitude)
  | _ => None
  end.

Definition target_length (len sample_rate target_sample_rate : Z) : option Z :=
  let ratio := SFdiv prec emax (of_Z target_sample_rate) (of_Z sample_rate) in
  int_of_float (SFmul prec emax (of_Z len) ratio).

End Binary64.

(** Whether the two computations of the length agree on an input. *)
Definition same_target_length (len sample_rate target_sample_rate : Z) : bool :=
  match target_length len sample_rate target_sample_rate,
        Binary64.target_length len sample_rate target_sample_rate with
  | Some a, Some b => a =? b
  | None, None => true
  | _, _ => false
  end.

Definition upto (n : nat) : list Z := map Z.of_nat (seq 0 n).

(** ** Sample sessions

    Concrete collaborators, buffers and worlds on which the statements
    below are exercised. *)

Module Sample.

(** Identifier generators: a prefix and the number of the draw. *)
Definition numbered (prefix : string) (n : nat) : string :=
  String.append prefix (NilZero.string_of_uint (Nat.to_uint n)).

Definition item_ids : nat -> string := numbered "item_".
Definition event_ids : nat -> string := numbered "event_".

(** A VAD capability that hears nothing, and one that hears speech over
    the second half of every window. *)
Definition silent_vad (window : list sample) (options : VadOptions) : list SpeechTimestamp :=
  [].

Definition second_half_vad (window : list sample) (options : VadOptions)
  : list SpeechTimestamp :=
  [ {| ts_start := Z.of_nat (length window) / 2;
       ts_end := Z.of_nat (length window) |} ].

(** One that hears speech over the first half of every window only. *)
Definition first_half_vad (window : list sample) (options : VadOptions)
  : list SpeechTimestamp :=
  [ {| ts_start := 0; ts_end := Z.of_nat (length window) / 2 |} ].

(** A decoder that yields one sample per character of the payload. *)
Definition one_sample_per_char (audio : string) : list sample :=
  map (fun _ => 1 # 2)%Q (list_ascii_of_string audio).

Definition turn_detection_300 : TurnDetection :=
  {| threshold := 9 # 10;
     prefix_padding_ms := 300;
     silence_duration_ms := 550;
     create_response := false |}.

Definition silence (n : nat) : list sample := repeat 0%Q n.

(** 3100 ms of audio: pre-speech, in speech since 2001 ms, and closed. *)
Definition listening : InputAudioBuffer :=
  {| id := "item_a"; data := silence (Z.to_nat 49600);
     vad_state := {| audio_start_ms := None; audio_end_ms := None |} |}.

Definition speaking : InputAudioBuffer :=
  {| id := "item_a"; data := silence (Z.to_nat 49600);
     vad_state := {| audio_start_ms := Some 2001; audio_end_ms := None |} |}.

Definition closed : InputAudioBuffer :=
  {| id := "item_z"; data := silence 160;
     vad_state := {| audio_start_ms := Some 2; audio_end_ms := Some 5 |} |}.

Definition default_turn_detection : TurnDetection :=
  {| threshold := 9 # 10;
     prefix_padding_ms := 0;
     silence_duration_ms := 550;
     create_response := false |}.

Definition session (buffers : odict InputAudioBuffer)
    (items : odict ConversationItem) : World :=
  {| ctx := {| input_audio_buffers := buffers;
               conversation := items;
               pubsub := [];
               configuration := create_session_configuration |};
     draws := 0;
     vad_calls := [] |}.

Definition earlier_item : ConversationItem :=
  {| item_id := "item_z"; object := "realtime.item"; status := "completed";
     role := "user";
     content := [ {| transcript := None; content_type := "input_audio" |} ];
     item_type := "message" |}.

Definition ten_ms : InputAudioBuffer :=
  {| id := "item_a"; data := silence 160;
     vad_state := {| audio_start_ms := None; audio_end_ms := None |} |}.

(** A session as it starts, and one whose active buffer holds 10 ms. *)
Definition fresh_session : World :=
  session [("item_a", empty_buffer "item_a")] [].

Definition recording_session : World := session [("item_a", ten_ms)] [].

(** A later turn: one item is already in the conversation. *)
Definition later_session : World :=
  session [("item_z", closed); ("item_a", ten_ms)] [("item_z", earlier_item)].

Definition squares : list sample := [0; 1; 4 # 1; 9 # 1; 16 # 1; 25 # 1]%Q.

(** A VAD capability that reports a short early span before the span of
    [second_half_vad]. *)
Definition two_spans_vad (window : list sample) (options : VadOptions)
  : list SpeechTimestamp :=
  {| ts_start := 0; ts_end := 1 |} :: second_half_vad window options.

(** A generator that always yields the same identifier. *)
Definition colliding_ids (n : nat) : string := "item_a".

(** A session without turn detection, and one without any buffer. *)
Definition quiet_session : World :=
  {| ctx := {| input_audio_buffers := [("item_a", ten_ms)];
               conversation := [];
               pubsub := [];
               configuration := {| turn_detection := None |} |};
     draws := 0;
     vad_calls := [] |}.

Definition no_buffers : World := session [] [].

End Sample.

(** ** The event router *)

Section Router.

Set Default Proof Using "Type".

(** The external VAD capability, [faster_whisper]'s [get_speech_timestamps]:
    speech spans of a window, in samples relative to the window.  The
    capability is taken to return: an exception it raises leaves the
    handler at the call (after the chunk has been appended) and is not part
    of the embedding. *)
Variable get_speech_timestamps : list sample -> VadOptions -> list SpeechTimestamp.

(** [generate_item_id] and [generate_event_id] of [speaches.realtime.utils]
    draw random identifiers; the [n]-th draw of a run yields
    [generate_item_id n], respectively [generate_event_id n]. *)
Variable generate_item_id : nat -> string.
Variable generate_event_id : nat -> string.

(** Decoding of the base64 payload of an append event into samples:
    [audio_samples_from_file(BytesIO(base64.b64decode(audio)))].  The
    decoder is taken to return as well: a payload it rejects never reaches
    the code below. *)
Variable audio_samples_from_file : string -> list sample.

Definition draw (gen : nat -> string) : M string :=
  fun w => Ok (gen (draws w))
              {| ctx := ctx w; draws := S (draws w); vad_calls := vad_calls w |}.

(** A call of the VAD capability, recorded in the world. *)
Definition call_get_speech_timestamps
    (audio_window : list sample) (vad_options : VadOptions) : M (list SpeechTimestamp) :=
  fun w => Ok (get_speech_timestamps audio_window vad_options)
              {| ctx := ctx w; draws := draws w;
                 vad_calls := vad_calls w ++ [(audio_window, vad_options)] |}.

(** Modelled from the spec: the constructor [InputAudioBuffer()] of the
    absent class; a buffer is created empty, pre-speech, with a generated
    identifier. *)
Definition InputAudioBuffer_new : M InputAudioBuffer :=
  new_id <- draw generate_item_id ;;
  ret (empty_buffer new_id).

Definition to_ms_speech_timestamps (speech_timestamps : list SpeechTimestamp)
  : list SpeechTimestamp :=
  map (fun ts => {| ts_start := ts_start ts / MS_SAMPLE_RATE;
                    ts_end := ts_end ts / MS_SAMPLE_RATE |})
      speech_timestamps.

(** [data[-n:]] for a positive [n]. *)
Definition trailing {A} (n : Z) (l : list A) : list A :=
  skipn (length l - Z.to_nat n) l.

(** [speech_timestamps[-1] if len(speech_timestamps) > 0 else None] *)
Definition last_timestamp (l : list SpeechTimestamp) : option SpeechTimestamp :=
  match rev l with
  | [] => None
  | ts :: _ => Some ts
  end.

(** [vad_detection_flow]: the event, if any, and the buffer as the call
    leaves it.  The warning logged for more than one span has no effect on
    the state and is left out. *)
Definition vad_detection_flow
    (input_audio_buffer : InputAudioBuffer) (turn_detection : TurnDetection)
  : M (option Event * InputAudioBuffer) :=
  let audio_window := trailing MAX_VAD_WINDOW_SIZE_SAMPLES (data input_audio_buffer) in
  raw <- call_get_speech_timestamps audio_window
           {| vad_threshold := threshold turn_detection;
              min_silence_duration_ms := silence_duration_ms turn_detection;
              speech_pad_ms := prefix_padding_ms turn_detection |} ;;
  let speech_timestamps := to_ms_speech_timestamps raw in
  let speech_timestamp := last_timestamp speech_timestamps in
  match audio_start_ms (vad_state input_audio_buffer) with
  | None =>
      match speech_timestamp with
      | None => ret (None, input_audio_buffer)
      | Some ts =>
          let ms := duration_ms input_audio_buffer
                    - Z.of_nat (length audio_window) / MS_SAMPLE_RATE
                    + ts_start ts in
          let b := set_audio_start_ms input_audio_buffer ms in
          eid <- draw generate_item_id ;;
          ret (Some (InputAudioBufferSpeechStartedEvent eid (id b) ms), b)
      end
  | Some _ =>
      match speech_timestamp with
      | None =>
          let ms := duration_ms input_audio_buffer - prefix_padding_ms turn_detection in
          let b := set_audio_end_ms input_audio_buffer ms in
          eid <- draw generate_item_id ;;
          ret (Some (InputAudioBufferSpeechStoppedEvent eid (id b) ms), b)
      | Some ts =>
          if (ts_end ts <? 3000) && (duration_ms input_audio_buffer >? 3000) then
            let ms := duration_ms input_audio_buffer - prefix_padding_ms turn_detection in
            let b := set_audio_end_ms input_audio_buffer ms in
            eid <- draw generate_item_id ;;
            ret (Some (InputAudioBufferSpeechStoppedEvent eid (id b) ms), b)
          else ret (None, input_audio_buffer)
      end
  end.

(** [next(reversed(ctx.input_audio_buffers))] followed by the lookup of
    that key: the active buffer. *)
Definition active_buffer : M (string * InputAudioBuffer) :=
  c <- get_ctx ;;
  input_audio_buffer_id <-
    from_option StopIteration (last_key (input_audio_buffers c)) ;;
  input_audio_buffer <-
    from_option KeyError (getitem input_audio_buffer_id (input_audio_buffers c)) ;;
  ret (input_audio_buffer_id, input_audio_buffer).

(** The mutation of a buffer held by the mapping, seen from the mapping. *)
Definition store_buffer (key : string) (b : InputAudioBuffer) : M unit :=
  c <- get_ctx ;;
  set_input_audio_buffers (replace key b (input_audio_buffers c)).

(** [input_audio_buffer = InputAudioBuffer();
     ctx.input_audio_buffers[input_audio_buffer.id] = input_audio_buffer] *)
Definition install_new_buffer : M unit :=
  input_audio_buffer <- InputAudioBuffer_new ;;
  c <- get_ctx ;;
  set_input_audio_buffers
    (setitem (id input_audio_buffer) input_audio_buffer (input_audio_buffers c)).

(** Client event [input_audio_buffer.append].  The tracing call is left
    out.  At the rates 24000 and 16000 the resampler raises for an empty
    chunk, the [ValueError] of [np.interp], and for no other chunk of a
    length that binary64 holds. *)
Definition handle_input_audio_buffer_append (audio : string) : M unit :=
  let audio_chunk := audio_samples_from_file audio in
  audio_chunk <- from_option ValueError (resample_audio_data audio_chunk 24000 16000) ;;
  '(input_audio_buffer_id, input_audio_buffer) <- active_buffer ;;
  let input_audio_buffer := append input_audio_buffer audio_chunk in
  store_buffer input_audio_buffer_id input_audio_buffer ;;;
  c <- get_ctx ;;
  match turn_detection (configuration c) with
  | Some td =>
      '(vad_event, input_audio_buffer) <- vad_detection_flow input_audio_buffer td ;;
      store_buffer input_audio_buffer_id input_audio_buffer ;;;
      match vad_event with
      | Some ev => publish_nowait ev
      | None => ret tt
      end
  | None => ret tt
  end.

(** Client event [input_audio_buffer.commit].  The arguments of the
    event are evaluated in the order they are written, the event id
    first, and the event is built before anything is published. *)
Definition handle_input_audio_buffer_commit : M unit :=
  '(input_audio_buffer_id, input_audio_buffer) <- active_buffer ;;
  if size input_audio_buffer =? 0 then
    eid <- draw generate_event_id ;;
    publish_nowait (ErrorEvent eid empty_input_audio_buffer_commit_error)
  else
    eid <- draw generate_item_id ;;
    c <- get_ctx ;;
    committed <- InputAudioBufferCommittedEvent_new eid (last_key (conversation c))
                   input_audio_buffer_id ;;
    publish_nowait committed ;;;
    install_new_buffer.

(** Client event [input_audio_buffer.clear]. *)
Definition handle_input_audio_buffer_clear : M unit :=
  c <- get_ctx ;;
  '(_, remaining) <- from_option KeyError (popitem (input_audio_buffers c)) ;;
  set_input_audio_buffers remaining ;;;
  eid <- draw generate_item_id ;;
  publish_nowait (InputAudioBufferClearedEvent eid) ;;;
  install_new_buffer.

(** Server event [input_audio_buffer.speech_stopped]. *)
Definition handle_input_audio_buffer_speech_stopped (event_item_id : string) : M unit :=
  install_new_buffer ;;;
  c <- get_ctx ;;
  let previous_item_id :=
    match last_key (conversation c) with
    | Some k => k
    | None => "IDK"
    end in
  eid <- draw generate_item_id ;;
  committed <- InputAudioBufferCommittedEvent_new eid (Some previous_item_id)
                 event_item_id ;;
  publish_nowait committed.

(** Server event [input_audio_buffer.committed]. *)
Definition handle_input_audio_buffer_committed (event_item_id : string) : M unit :=
  let item := {| item_id := event_item_id;
                 object := "realtime.item";
                 status := "completed";
                 role := "user";
                 content := [ {| transcript := None; content_type := "input_audio" |} ];
                 item_type := "message" |} in
  c <- get_ctx ;;
  set_conversation (setitem (item_id item) item (conversation c)) ;;;
  eid <- draw generate_item_id ;;
  publish_nowait (ConversationItemCreatedEvent eid None item).

(** The registrations of [event_router]. *)
Definition dispatch (event : Event) : M unit :=
  match event with
  | InputAudioBufferAppendEvent audio => handle_input_audio_buffer_append audio
  | InputAudioBufferCommitEvent => handle_input_audio_buffer_commit
  | InputAudioBufferClearEvent => handle_input_audio_buffer_clear
  | InputAudioBufferSpeechStoppedEvent _ item _ =>
      handle_input_audio_buffer_speech_stopped item
  | InputAudioBufferCommittedEvent _ _ item =>
      handle_input_audio_buffer_committed item
  | _ => ret tt
  end.

(** One evaluation of a run of the turn-detection engine on a buffer: the
    [VadState] before, the event returned, the [VadState] after. *)
Record Evaluation := {
  before : VadState;
  returned : option Event;
  after : VadState
}.

(** A run of the engine on one buffer: before each evaluation a chunk
    (possibly empty) is appended, as the append handler does. *)
Fixpoint evaluations (b : InputAudioBuffer) (td : TurnDetection)
    (chunks : list (list sample)) : M (list Evaluation * InputAudioBuffer) :=
  match chunks with
  | [] => ret ([], b)
  | chunk :: chunks' =>
      let b1 := append b chunk in
      '(ev, b2) <- vad_detection_flow b1 td ;;
      '(evs, b3) <- evaluations b2 td chunks' ;;
      ret ({| before := vad_state b1; returned := ev; after := vad_state b2 |} :: evs, b3)
  end.


(** *** Vocabulary of the statements *)

(** The trailing window an evaluation hands to the VAD capability. *)
Definition audio_window (b : InputAudioBuffer) : list sample :=
  trailing MAX_VAD_WINDOW_SIZE_SAMPLES (data b).

Definition window_duration_ms (b : InputAudioBuffer) : Z :=
  Z.of_nat (length (audio_window b)) / MS_SAMPLE_RATE.

Definition vad_options (td : TurnDetection) : VadOptions :=
  {| vad_threshold := threshold td;
     min_silence_duration_ms := silence_duration_ms td;
     speech_pad_ms := prefix_padding_ms td |}.

(** The speech span an evaluation finds, in milliseconds: the last one the
    VAD capability reports for the window, if any. *)
Definition found_span (b : InputAudioBuffer) (td : TurnDetection) : option SpeechTimestamp :=
  last_timestamp
    (to_ms_speech_timestamps (get_speech_timestamps (audio_window b) (vad_options td))).

(** The world after the VAD call of an evaluation, and after one more
    identifier has been drawn. *)
Definition logged (w : World) (b : InputAudioBuffer) (td : TurnDetection) : World :=
  {| ctx := ctx w; draws := draws w;
     vad_calls := vad_calls w ++ [(audio_window b, vad_options td)] |}.

Definition drawn (w : World) : World :=
  {| ctx := ctx w; draws := S (draws w); vad_calls := vad_calls w |}.

Definition with_buffers (c : SessionContext) (d : odict InputAudioBuffer) : SessionContext :=
  {| input_audio_buffers := d; conversation := conversation c;
     pubsub := pubsub c; configuration := configuration c |}.

Definition is_speech_started (ev : option Event) : bool :=
  match ev with
  | Some (InputAudioBufferSpeechStartedEvent _ _ _) => true
  | _ => false
  end.

Definition is_speech_stopped (ev : option Event) : bool :=
  match ev with
  | Some (InputAudioBufferSpeechStoppedEvent _ _ _) => true
  | _ => false
  end.

Definition option_Z_eqb (x y : option Z) : bool :=
  match x, y with
  | None, None => true
  | Some a, Some b => a =? b
  | _, _ => false
  end.

(** An evaluation that assigns [audio_start_ms], respectively
    [audio_end_ms]. *)
Definition assigns_start (e : Evaluation) : bool :=
  negb (option_Z_eqb (audio_start_ms (before e)) (audio_start_ms (after e))).

Definition assigns_end (e : Evaluation) : bool :=
  negb (option_Z_eqb (audio_end_ms (before e)) (audio_end_ms (after e))).

(** A span the engine takes as a sign of ongoing speech. *)
Definition recent_span (b : InputAudioBuffer) (td : TurnDetection) : Prop :=
  exists pair, found_span b td = Some pair
               /\ (ts_end pair >= 3000 \/ duration_ms b <= 3000).

(** The states of a run thread through: nothing but the evaluations
    themselves touches the [VadState]. *)
Fixpoint chained (s : VadState) (evs : list Evaluation) (s' : VadState) : Prop :=
  match evs with
  | [] => s = s'
  | e :: evs' => before e = s /\ chained (after e) evs' s'
  end.

(** What one evaluation may do to the two markers. *)
Definition marker_discipline (e : Evaluation) : Prop :=
  (forall a, audio_start_ms (before e) = Some a ->
             audio_start_ms (after e) = Some a)
  /\ (assigns_end e = true \/ is_speech_stopped (returned e) = true ->
      audio_start_ms (before e) <> None)
  /\ (is_speech_started (returned e) = true ->
      audio_start_ms (before e) = None /\ audio_start_ms (after e) <> None)
  /\ (assigns_start e = true -> is_speech_started (returned e) = true).

(** A span that lies inside a window of [n] samples (or milliseconds). *)
Definition span_within (n : Z) (ts : SpeechTimestamp) : Prop :=
  0 <= ts_start ts /\ ts_start ts <= ts_end ts /\ ts_end ts <= n.

(** The VAD capability reports spans inside the window it is given. *)
Definition spans_within_window : Prop :=
  forall window options,
    Forall (span_within (Z.of_nat (length window)))
           (get_speech_timestamps window options).

(** The last span the VAD capability reports for the window of a buffer,
    in samples, as it comes back. *)
Definition raw_span (b : InputAudioBuffer) (td : TurnDetection) : option SpeechTimestamp :=
  last_timestamp (get_speech_timestamps (audio_window b) (vad_options td)).

(** The buffer an event is about. *)
Definition event_item_id (ev : Event) : option string :=
  match ev with
  | InputAudioBufferCommittedEvent _ _ item
  | InputAudioBufferSpeechStartedEvent _ item _
  | InputAudioBufferSpeechStoppedEvent _ item _ => Some item
  | ConversationItemCreatedEvent _ _ item => Some (item_id item)
  | _ => None
  end.

(** The two markers of a buffer are consistent with its length: a start
    lies inside the audio held, and an end, moved back by the padding that
    was subtracted from it, lies between the start and the end of the
    audio. *)
Definition markers_ordered (td : TurnDetection) (b : InputAudioBuffer) : Prop :=
  match audio_start_ms (vad_state b), audio_end_ms (vad_state b) with
  | None, None => True
  | None, Some _ => False
  | Some s, None => 0 <= s <= duration_ms b
  | Some s, Some e =>
      0 <= s <= duration_ms b
      /\ s <= e + prefix_padding_ms td <= duration_ms b
  end.

(** Every buffer of the mapping is stored under its own id. *)
Definition stored_under_own_id (d : odict InputAudioBuffer) : Prop :=
  Forall (fun kb => id (snd kb) = fst kb) d.

(** A session context as the handlers expect it: the mappings have
    distinct keys, there is an active buffer, and buffers sit under their
    own ids. *)
Definition session_ok (c : SessionContext) : Prop :=
  wf (input_audio_buffers c)
  /\ input_audio_buffers c <> []
  /\ stored_under_own_id (input_audio_buffers c)
  /\ wf (conversation c).

(** The world after a buffer held by the mapping has been mutated, after
    an event has been published, and after a new buffer has been
    installed. *)
Definition stored (w : World) (key : string) (b : InputAudioBuffer) : World :=
  {| ctx := with_buffers (ctx w) (replace key b (input_audio_buffers (ctx w)));
     draws := draws w;
     vad_calls := vad_calls w |}.

Definition published (w : World) (ev : Event) : World :=
  {| ctx := {| input_audio_buffers := input_audio_buffers (ctx w);
               conversation := conversation (ctx w);
               pubsub := pubsub (ctx w) ++ [ev];
               configuration := configuration (ctx w) |};
     draws := draws w;
     vad_calls := vad_calls w |}.

Definition installed (w : World) : World :=
  {| ctx := with_buffers (ctx w)
              (setitem (generate_item_id (draws w))
                 (empty_buffer (generate_item_id (draws w)))
                 (input_audio_buffers (ctx w)));
     draws := S (draws w);
     vad_calls := vad_calls w |}.

Definition published_if (w : World) (ev : option Event) : World :=
  match ev with
  | Some e => published w e
  | None => w
  end.

(** The conversation item the committed handler builds. *)
Definition user_audio_item (event_item_id : string) : ConversationItem :=
  {| item_id := event_item_id;
     object := "realtime.item";
     status := "completed";
     role := "user";
     content := [ {| transcript := None; content_type := "input_audio" |} ];
     item_type := "message" |}.

(** The calls the event router makes. *)
Inductive handler_call : M unit -> Prop :=
| call_append audio : handler_call (handle_input_audio_buffer_append audio)
| call_commit : handler_call handle_input_audio_buffer_commit
| call_clear : handler_call handle_input_audio_buffer_clear
| call_speech_stopped item :
    handler_call (handle_input_audio_buffer_speech_stopped item)
| call_committed item :
    handler_call (handle_input_audio_buffer_committed item).

(** These facts do not concern the collaborators of the router. *)
Ltac standalone :=
  clear get_speech_timestamps generate_item_id generate_event_id
        audio_samples_from_file.

(** *** The turn-detection engine *)

Lemma vad_detection_flow_unfold b td w :
  vad_detection_flow b td w =
  match audio_start_ms (vad_state b) with
  | None =>
      match found_span b td with
      | None => Ok (None, b) (logged w b td)
      | Some ts =>
          let ms := duration_ms b - window_duration_ms b + ts_start ts in
          Ok (Some (InputAudioBufferSpeechStartedEvent
                      (generate_item_id (draws w)) (id b) ms),
              set_audio_start_ms b ms)
             (drawn (logged w b td))
      end
  | Some _ =>
      let ms := duration_ms b - prefix_padding_ms td in
      let stopped :=
        Ok (Some (InputAudioBufferSpeechStoppedEvent
                    (generate_item_id (draws w)) (id b) ms),
            set_audio_end_ms b ms)
           (drawn (logged w b td)) in
      match found_span b td with
      | None => stopped
      | Some ts =>
          if (ts_end ts <? 3000) && (duration_ms b >? 3000) then stopped
          else Ok (None, b) (logged w b td)
      end
  end.
Proof.
  unfold vad_detection_flow, found_span, window_duration_ms, bind,
    call_get_speech_timestamps.
  fold (audio_window b). fold (vad_options td). cbn beta iota.
  destruct (audio_start_ms (vad_state b));
    destruct (last_timestamp _) as [ts|]; try reflexivity.
  destruct ((ts_end ts <? 3000) && (duration_ms b >? 3000)); reflexivity.
Qed.

Lemma trailing_length {A} (n : Z) (l : list A) :
  0 <= n -> Z.of_nat (length (trailing n l)) = Z.min (Z.of_nat (length l)) n.
Proof.
  intros Hn. unfold trailing. rewrite length_skipn. lia.
Qed.

Lemma trailing_suffix {A} (n : Z) (l : list A) :
  exists older, l = older ++ trailing n l.
Proof.
  unfold trailing. exists (firstn (length l - Z.to_nat n) l).
  symmetry. apply firstn_skipn.
Qed.

(** The window is the whole buffer up to 3000 ms and its last 3000 ms
    afterwards. *)
Lemma window_duration_ms_min b :
  window_duration_ms b = Z.min (duration_ms b) 3000.
Proof.
  unfold window_duration_ms, audio_window, duration_ms, size.
  rewrite trailing_length by (unfold MAX_VAD_WINDOW_SIZE_SAMPLES, MS_SAMPLE_RATE; lia).
  unfold MAX_VAD_WINDOW_SIZE_SAMPLES, MS_SAMPLE_RATE.
  set (n := Z.of_nat (length (data b))).
  assert (Hn : 0 <= n) by (subst n; lia).
  destruct (Z.le_gt_cases n 48000) as [Hle|Hgt].
  - rewrite Z.min_l by lia.
    assert (n / 16 <= 48000 / 16) by (apply Z.div_le_mono; lia).
    change (48000 / 16) with 3000 in H. lia.
  - rewrite Z.min_r by lia.
    assert (48000 / 16 <= n / 16) by (apply Z.div_le_mono; lia).
    change (3000 * 16 / 16) with 3000. change (48000 / 16) with 3000 in H. lia.
Qed.

(** What the two assignments of the engine do to a buffer. *)
Lemma set_audio_start_ms_fields b ms :
  audio_start_ms (vad_state (set_audio_start_ms b ms)) = Some ms
  /\ audio_end_ms (vad_state (set_audio_start_ms b ms)) = audio_end_ms (vad_state b)
  /\ id (set_audio_start_ms b ms) = id b
  /\ data (set_audio_start_ms b ms) = data b.
Proof. standalone. repeat split. Qed.

Lemma set_audio_end_ms_fields b ms :
  audio_end_ms (vad_state (set_audio_end_ms b ms)) = Some ms
  /\ audio_start_ms (vad_state (set_audio_end_ms b ms)) = audio_start_ms (vad_state b)
  /\ id (set_audio_end_ms b ms) = id b
  /\ data (set_audio_end_ms b ms) = data b.
Proof. standalone. repeat split. Qed.

(** C4. On a pre-speech buffer ([audio_start_ms = None]) an evaluation
    that finds a speech span sets
    [audio_start_ms = duration_ms - window_duration_ms + pair.start], where
    [window_duration_ms] is the duration of the trailing window of at most
    3000 ms that was used, and returns a [speech_started] event carrying
    that value and the buffer's id; nothing else of the buffer changes.
    An evaluation that finds no span returns no event and leaves the
    buffer as it is. *)
Theorem pre_speech_evaluation b td w :
  audio_start_ms (vad_state b) = None ->
  (forall pair, found_span b td = Some pair ->
     let ms := duration_ms b - window_duration_ms b + ts_start pair in
     exists b',
       vad_detection_flow b td w =
         Ok (Some (InputAudioBufferSpeechStartedEvent
                     (generate_item_id (draws w)) (id b) ms),
             b')
            (drawn (logged w b td))
       /\ audio_start_ms (vad_state b') = Some ms
       /\ audio_end_ms (vad_state b') = audio_end_ms (vad_state b)
       /\ id b' = id b
       /\ data b' = data b)
  /\ (found_span b td = None ->
      vad_detection_flow b td w = Ok (None, b) (logged w b td))
  /\ (exists older, data b = older ++ audio_window b)
  /\ window_duration_ms b = Z.min (duration_ms b) 3000.
Proof.
  intros Hstart. rewrite vad_detection_flow_unfold, Hstart.
  split; [|split; [|split]].
  - intros pair Hpair ms. rewrite Hpair. cbv zeta. fold ms.
    exists (set_audio_start_ms b ms). split; [reflexivity|].
    apply set_audio_start_ms_fields.
  - intros Hnone. rewrite Hnone. reflexivity.
  - apply trailing_suffix.
  - apply window_duration_ms_min.
Qed.

(** C5. On an in-speech buffer ([audio_start_ms] set, [audio_end_ms =
    None]) an evaluation that finds a span ending before 3000 ms while the
    buffer is longer than 3000 ms sets
    [audio_end_ms = duration_ms - prefix_padding_ms] and returns a
    [speech_stopped] event with that value, leaving [audio_start_ms] and
    the audio as they are; an evaluation that finds no span does the
    same; an evaluation that finds a span with [end >= 3000], or on a
    buffer not longer than 3000 ms, returns no event (and changes
    nothing). *)
Theorem in_speech_evaluation b td w a :
  audio_start_ms (vad_state b) = Some a ->
  audio_end_ms (vad_state b) = None ->
  let ms := duration_ms b - prefix_padding_ms td in
  let stops :=
    exists b',
      vad_detection_flow b td w =
        Ok (Some (InputAudioBufferSpeechStoppedEvent
                    (generate_item_id (draws w)) (id b) ms),
            b')
           (drawn (logged w b td))
      /\ audio_end_ms (vad_state b') = Some ms
      /\ audio_start_ms (vad_state b') = Some a
      /\ id b' = id b
      /\ data b' = data b in
  (forall pair, found_span b td = Some pair ->
     ts_end pair < 3000 -> duration_ms b > 3000 -> stops)
  /\ (found_span b td = None -> stops)
  /\ (forall pair, found_span b td = Some pair ->
        ts_end pair >= 3000 \/ duration_ms b <= 3000 ->
        vad_detection_flow b td w = Ok (None, b) (logged w b td)).
Proof.
  intros Hstart _ ms stops. rewrite vad_detection_flow_unfold, Hstart. cbv zeta.
  assert (Hstops :
    exists b',
      Ok (Some (InputAudioBufferSpeechStoppedEvent
                  (generate_item_id (draws w)) (id b) ms),
          set_audio_end_ms b ms)
         (drawn (logged w b td))
      = Ok (Some (InputAudioBufferSpeechStoppedEvent
                    (generate_item_id (draws w)) (id b) ms),
            b')
           (drawn (logged w b td))
      /\ audio_end_ms (vad_state b') = Some ms
      /\ audio_start_ms (vad_state b') = Some a
      /\ id b' = id b
      /\ data b' = data b).
  { exists (set_audio_end_ms b ms). split; [reflexivity|].
    destruct (set_audio_end_ms_fields b ms) as [He [Hs [Hi Hd]]].
    rewrite Hs, Hstart. repeat split; assumption. }
  split; [|split].
  - intros pair Hpair Hend Hdur. subst stops. rewrite vad_detection_flow_unfold, Hstart.
    cbv zeta. rewrite Hpair.
    replace (ts_end pair <? 3000) with true by (symmetry; apply Z.ltb_lt; lia).
    replace (duration_ms b >? 3000) with true by (symmetry; apply Z.gtb_lt; lia).
    exact Hstops.
  - intros Hnone. subst stops. rewrite vad_detection_flow_unfold, Hstart.
    cbv zeta. rewrite Hnone. exact Hstops.
  - intros pair Hpair Hrecent. rewrite Hpair.
    destruct (ts_end pair <? 3000) eqn:E1; [|reflexivity].
    destruct (duration_ms b >? 3000) eqn:E2; [|reflexivity].
    apply Z.ltb_lt in E1. apply Z.gtb_lt in E2. lia.
Qed.

(** C1, as the code has it.  The engine never reads [audio_end_ms]: a
    closed buffer ([audio_start_ms] and [audio_end_ms] both set) is
    evaluated like an in-speech one.  No event is returned and the buffer
    is left alone exactly when the VAD capability reports a recent span;
    otherwise [audio_end_ms] is overwritten with
    [duration_ms - prefix_padding_ms], [audio_start_ms] and the audio stay
    as they are, and [speech_stopped] is returned once more, carrying the
    new value. *)
Theorem closed_buffer_evaluation b td w a e :
  audio_start_ms (vad_state b) = Some a ->
  audio_end_ms (vad_state b) = Some e ->
  let ms := duration_ms b - prefix_padding_ms td in
  (recent_span b td ->
     vad_detection_flow b td w = Ok (None, b) (logged w b td))
  /\ (~ recent_span b td ->
      exists b',
        vad_detection_flow b td w =
          Ok (Some (InputAudioBufferSpeechStoppedEvent
                      (generate_item_id (draws w)) (id b) ms),
              b')
             (drawn (logged w b td))
        /\ audio_end_ms (vad_state b') = Some ms
        /\ audio_start_ms (vad_state b') = Some a
        /\ id b' = id b
        /\ data b' = data b).
Proof.
  intros Hstart _ ms. rewrite vad_detection_flow_unfold, Hstart. cbn zeta.
  split.
  - intros [pair [Hpair Hrecent]]. rewrite Hpair.
    destruct (ts_end pair <? 3000) eqn:E1; [|reflexivity].
    destruct (duration_ms b >? 3000) eqn:E2; [|reflexivity].
    apply Z.ltb_lt in E1. apply Z.gtb_lt in E2. lia.
  - intros Hstale.
    assert (Hstops :
      exists b',
        Ok (Some (InputAudioBufferSpeechStoppedEvent
                    (generate_item_id (draws w)) (id b) ms),
            set_audio_end_ms b ms)
           (drawn (logged w b td))
        = Ok (Some (InputAudioBufferSpeechStoppedEvent
                      (generate_item_id (draws w)) (id b) ms),
              b')
             (drawn (logged w b td))
        /\ audio_end_ms (vad_state b') = Some ms
        /\ audio_start_ms (vad_state b') = Some a
        /\ id b' = id b
        /\ data b' = data b).
    { exists (set_audio_end_ms b ms). split; [reflexivity|].
      destruct (set_audio_end_ms_fields b ms) as [He [Hs [Hi Hd]]].
      rewrite Hs, Hstart. repeat split; assumption. }
    destruct (found_span b td) as [pair|] eqn:Hpair; [|exact Hstops].
    destruct (ts_end pair <? 3000) eqn:E1.
    + destruct (duration_ms b >? 3000) eqn:E2; [exact Hstops|].
      exfalso. apply Hstale. exists pair. split; [exact Hpair|].
      right. destruct (Z.gtb_spec (duration_ms b) 3000); [discriminate | lia].
    + exfalso. apply Hstale. exists pair. split; [exact Hpair|].
      left. apply Z.ltb_ge in E1. lia.
Qed.

(** *** Runs of evaluations on one buffer *)

Lemma option_Z_eqb_refl x : option_Z_eqb x x = true.
Proof. destruct x; simpl; [apply Z.eqb_refl | reflexivity]. Qed.

Lemma vad_detection_flow_total b td w :
  exists ev b' w', vad_detection_flow b td w = Ok (ev, b') w'.
Proof.
  rewrite vad_detection_flow_unfold.
  destruct (audio_start_ms (vad_state b)); destruct (found_span b td) as [ts|];
    cbn zeta; try (do 3 eexists; reflexivity).
  destruct ((ts_end ts <? 3000) && (duration_ms b >? 3000));
    do 3 eexists; reflexivity.
Qed.

Lemma vad_detection_flow_discipline b td w ev b' w' :
  vad_detection_flow b td w = Ok (ev, b') w' ->
  marker_discipline {| before := vad_state b; returned := ev; after := vad_state b' |}
  /\ id b' = id b /\ data b' = data b.
Proof.
  rewrite vad_detection_flow_unfold. unfold marker_discipline, assigns_start, assigns_end.
  cbn [before after returned].
  destruct (audio_start_ms (vad_state b)) as [a|] eqn:Hstart.
  - cbn zeta.
    assert (Hstop : forall ms eid,
      Ok (Some (InputAudioBufferSpeechStoppedEvent eid (id b) ms), set_audio_end_ms b ms)
         (drawn (logged w b td)) = Ok (ev, b') w' ->
      ((forall a0, Some a = Some a0 -> audio_start_ms (vad_state b') = Some a0)
       /\ (negb (option_Z_eqb (audio_end_ms (vad_state b)) (audio_end_ms (vad_state b'))) = true
           \/ is_speech_stopped ev = true ->
           Some a <> None)
       /\ (is_speech_started ev = true -> Some a = None /\ audio_start_ms (vad_state b') <> None)
       /\ (negb (option_Z_eqb (Some a) (audio_start_ms (vad_state b'))) = true ->
           is_speech_started ev = true))
      /\ id b' = id b /\ data b' = data b).
    { intros ms eid H. injection H as <- <- _. cbn. rewrite Hstart.
      repeat split; try discriminate.
      - intros a0 H. exact H.
      - cbn. rewrite Z.eqb_refl. discriminate. }
    assert (Hnone : Ok (None, b) (logged w b td) = Ok (ev, b') w' ->
      ((forall a0, Some a = Some a0 -> audio_start_ms (vad_state b') = Some a0)
       /\ (negb (option_Z_eqb (audio_end_ms (vad_state b)) (audio_end_ms (vad_state b'))) = true
           \/ is_speech_stopped ev = true ->
           Some a <> None)
       /\ (is_speech_started ev = true -> Some a = None /\ audio_start_ms (vad_state b') <> None)
       /\ (negb (option_Z_eqb (Some a) (audio_start_ms (vad_state b'))) = true ->
           is_speech_started ev = true))
      /\ id b' = id b /\ data b' = data b).
    { intros H. injection H as <- <- _. rewrite Hstart.
      repeat split; try discriminate.
      - intros a0 H. exact H.
      - cbn. rewrite Z.eqb_refl. discriminate. }
    destruct (found_span b td) as [ts|]; [|apply Hstop].
    destruct ((ts_end ts <? 3000) && (duration_ms b >? 3000)); [apply Hstop | apply Hnone].
  - destruct (found_span b td) as [ts|]; cbn zeta; intros H; injection H as <- <- _.
    + cbn. repeat split; try discriminate.
      rewrite option_Z_eqb_refl. intros [H|H]; discriminate H.
    + rewrite Hstart. cbn. repeat split; try discriminate.
      rewrite option_Z_eqb_refl. intros [H|H]; discriminate H.
Qed.

Lemma evaluations_run b td chunks : forall w,
  exists evs b' w',
    evaluations b td chunks w = Ok (evs, b') w'
    /\ length evs = length chunks
    /\ chained (vad_state b) evs (vad_state b')
    /\ Forall marker_discipline evs
    /\ id b' = id b.
Proof.
  revert b. induction chunks as [|chunk chunks IH]; intros b w.
  - exists [], b, w. cbn. repeat split. constructor.
  - cbn [evaluations]. unfold bind.
    destruct (vad_detection_flow_total (append b chunk) td w) as [ev [b2 [w2 Hflow]]].
    rewrite Hflow.
    destruct (IH b2 w2) as [evs [b3 [w3 [Hrun [Hlen [Hch [Hall Hid]]]]]]].
    rewrite Hrun. cbn.
    destruct (vad_detection_flow_discipline _ _ _ _ _ _ Hflow) as [Hd [Hid2 _]].
    eexists _, b3, w3. split; [reflexivity|].
    repeat split.
    + cbn. f_equal. exact Hlen.
    + exact Hch.
    + constructor; assumption.
    + rewrite Hid, Hid2. reflexivity.
Qed.

(** Once [audio_start_ms] is set at the start of a chained run, no
    evaluation of the run assigns it or returns [speech_started]. *)
Lemma started_run_is_quiet evs : forall s s' a,
  chained s evs s' -> Forall marker_discipline evs ->
  audio_start_ms s = Some a ->
  audio_start_ms s' = Some a
  /\ filter assigns_start evs = []
  /\ filter (fun e => is_speech_started (returned e)) evs = [].
Proof.
  induction evs as [|e evs IH]; intros s s' a Hch Hall Hs.
  - cbn in Hch. subst s'. repeat split; assumption.
  - destruct Hch as [Hb Hch]. inversion Hall as [|? ? He Hall']; subst.
    destruct He as [Hkeep [_ [Hstarted Hassign]]].
    specialize (Hkeep a Hs).
    destruct (IH _ _ a Hch Hall' Hkeep) as [Hs' [Hf1 Hf2]].
    split; [exact Hs'|]. cbn [filter].
    destruct (assigns_start e) eqn:E1.
    + specialize (Hassign eq_refl). destruct (Hstarted Hassign) as [Hnone _].
      rewrite Hs in Hnone. discriminate.
    + destruct (is_speech_started (returned e)) eqn:E2.
      * destruct (Hstarted eq_refl) as [Hnone _]. rewrite Hs in Hnone. discriminate.
      * split; assumption.
Qed.

Lemma run_starts_at_most_once evs : forall s s',
  chained s evs s' -> Forall marker_discipline evs ->
  (length (filter assigns_start evs) <= 1)%nat
  /\ (length (filter (fun e => is_speech_started (returned e)) evs) <= 1)%nat.
Proof.
  induction evs as [|e evs IH]; intros s s' Hch Hall.
  - cbn. lia.
  - destruct Hch as [Hb Hch]. inversion Hall as [|? ? He Hall']; subst.
    destruct (IH _ _ Hch Hall') as [IH1 IH2].
    destruct He as [Hkeep [_ [Hstarted Hassign]]].
    cbn [filter].
    destruct (is_speech_started (returned e)) eqn:E2.
    + destruct (Hstarted eq_refl) as [_ Hset].
      destruct (audio_start_ms (after e)) as [a|] eqn:Ha; [|congruence].
      destruct (started_run_is_quiet _ _ _ a Hch Hall' Ha) as [_ [Hf1 Hf2]].
      rewrite Hf1, Hf2. destruct (assigns_start e); cbn; lia.
    + destruct (assigns_start e) eqn:E1.
      * specialize (Hassign eq_refl). discriminate.
      * split; assumption.
Qed.

(** C10. Along every run of evaluations on a buffer (every sequence of
    appended chunks, every answer of the VAD capability): an evaluation
    never changes an [audio_start_ms] that is set, so it is never reset to
    [None]; [audio_start_ms] is assigned by at most one evaluation;
    [audio_end_ms] is assigned, and [speech_stopped] returned, only by an
    evaluation that finds [audio_start_ms] already set; and at most one
    [speech_started] event is returned, none at all on a buffer that has
    already started. *)
Theorem vad_markers_discipline b td chunks w :
  exists evs b' w',
    evaluations b td chunks w = Ok (evs, b') w'
    /\ length evs = length chunks
    /\ chained (vad_state b) evs (vad_state b')
    /\ Forall (fun e =>
          (forall a, audio_start_ms (before e) = Some a ->
                     audio_start_ms (after e) = Some a)
          /\ (assigns_end e = true \/ is_speech_stopped (returned e) = true ->
              audio_start_ms (before e) <> None)) evs
    /\ (length (filter assigns_start evs) <= 1)%nat
    /\ (length (filter (fun e => is_speech_started (returned e)) evs) <= 1)%nat
    /\ (forall a, audio_start_ms (vad_state b) = Some a ->
          audio_start_ms (vad_state b') = Some a
          /\ filter (fun e => is_speech_started (returned e)) evs = []).
Proof.
  destruct (evaluations_run b td chunks w) as [evs [b' [w' [Hrun [Hlen [Hch [Hall _]]]]]]].
  exists evs, b', w'.
  destruct (run_starts_at_most_once _ _ _ Hch Hall) as [H1 H2].
  repeat split; try assumption.
  - eapply Forall_impl; [|exact Hall].
    intros e [Hkeep [Hend _]]. split; assumption.
  - destruct (started_run_is_quiet _ _ _ a Hch Hall H) as [Hs _]. exact Hs.
  - destruct (started_run_is_quiet _ _ _ a Hch Hall H) as [_ [_ Hq]]. exact Hq.
Qed.

(** *** Facts on insertion-ordered dictionaries *)

Lemma mem_In {V} k (d : odict V) : mem k d = true <-> In k (keys d).
Proof.
  standalone.
  induction d as [|[k' v] d IH]; cbn.
  - split; [discriminate | tauto].
  - destruct (String.eqb_spec k k') as [->|Hne].
    + split; auto.
    + rewrite IH. split; [auto | intros [H|H]; [congruence | exact H]].
Qed.

Lemma setitem_fresh {V} k (v : V) d :
  ~ In k (keys d) -> setitem k v d = d ++ [(k, v)].
Proof.
  standalone.
  intros Hfresh. unfold setitem.
  destruct (mem k d) eqn:E; [|reflexivity].
  apply mem_In in E. contradiction.
Qed.

Lemma last_key_snoc {V} (d : odict V) k v : last_key (d ++ [(k, v)]) = Some k.
Proof. standalone. unfold last_key. rewrite rev_app_distr. reflexivity. Qed.

Lemma last_key_inv {V} (d : odict V) k :
  last_key d = Some k -> exists r v, d = r ++ [(k, v)].
Proof.
  standalone.
  unfold last_key. destruct (rev d) as [|[k' v] r'] eqn:E; [discriminate|].
  intros H. injection H as ->. exists (rev r'), v.
  rewrite <- (rev_involutive d), E. reflexivity.
Qed.

Lemma last_key_In {V} (d : odict V) k : last_key d = Some k -> In k (keys d).
Proof.
  standalone.
  intros H. destruct (last_key_inv _ _ H) as [r [v ->]].
  unfold keys. rewrite map_app. apply in_or_app. right. left. reflexivity.
Qed.

Lemma popitem_snoc {V} (d : odict V) kv : popitem (d ++ [kv]) = Some (kv, d).
Proof. standalone. unfold popitem. rewrite rev_app_distr. cbn. rewrite rev_involutive. reflexivity. Qed.

Lemma getitem_app_l {V} k (d d' : odict V) :
  In k (keys d) -> getitem k (d ++ d') = getitem k d.
Proof.
  standalone.
  induction d as [|[k' v] d IH]; cbn; [tauto|].
  intros [H|H]; destruct (String.eqb_spec k k'); auto; congruence.
Qed.

Lemma getitem_app_r {V} k (d d' : odict V) :
  ~ In k (keys d) -> getitem k (d ++ d') = getitem k d'.
Proof.
  standalone.
  induction d as [|[k' v] d IH]; cbn; [reflexivity|].
  intros H. destruct (String.eqb_spec k k') as [->|Hne]; [tauto|].
  apply IH. tauto.
Qed.

Lemma getitem_None {V} k (d : odict V) : ~ In k (keys d) -> getitem k d = None.
Proof.
  standalone.
  induction d as [|[k' v] d IH]; cbn; [reflexivity|].
  intros H. destruct (String.eqb_spec k k') as [->|Hne]; [tauto|].
  apply IH. tauto.
Qed.

Lemma getitem_In {V} k (d : odict V) v : getitem k d = Some v -> In k (keys d).
Proof.
  standalone.
  induction d as [|[k' v'] d IH]; cbn; [discriminate|].
  destruct (String.eqb_spec k k') as [->|Hne]; auto.
Qed.

Lemma getitem_replace {V} k (v : V) d :
  In k (keys d) -> getitem k (replace k v d) = Some v.
Proof.
  standalone.
  induction d as [|[k' v'] d IH]; cbn; [tauto|].
  intros H. destruct (String.eqb_spec k k') as [->|Hne]; cbn.
  - rewrite String.eqb_refl. reflexivity.
  - destruct (String.eqb_spec k k'); [congruence|]. apply IH.
    destruct H; [congruence | assumption].
Qed.

Lemma keys_replace {V} k (v : V) d : keys (replace k v d) = keys d.
Proof.
  standalone.
  induction d as [|[k' v'] d IH]; cbn; [reflexivity|].
  destruct (String.eqb k k'); cbn; [reflexivity|]. f_equal. exact IH.
Qed.

Lemma last_key_keys {V W} (d : odict V) (d' : odict W) :
  keys d = keys d' -> last_key d = last_key d'.
Proof.
  standalone.
  unfold last_key, keys. intros H.
  assert (Hr : map fst (rev d) = map fst (rev d')) by (rewrite !map_rev; congruence).
  destruct (rev d) as [|[k v] r]; destruct (rev d') as [|[k' v'] r']; cbn in Hr;
    try discriminate; [reflexivity | congruence].
Qed.

Lemma wf_snoc {V} (d : odict V) k v : wf (d ++ [(k, v)]) <-> wf d /\ ~ In k (keys d).
Proof.
  standalone.
  unfold wf, keys. rewrite map_app. cbn. split.
  - intros H. apply NoDup_remove in H. rewrite app_nil_r in H. exact H.
  - intros [Hd Hk]. apply NoDup_app.
    + exact Hd.
    + constructor; [tauto | constructor].
    + intros x Hx [<-|[]]. contradiction.
Qed.

(** *** The buffer life cycle *)

Lemma active_buffer_run w key b :
  last_key (input_audio_buffers (ctx w)) = Some key ->
  getitem key (input_audio_buffers (ctx w)) = Some b ->
  active_buffer w = Ok (key, b) w.
Proof.
  intros Hkey Hget. unfold active_buffer, bind, get_ctx.
  rewrite Hkey. cbn. rewrite Hget. reflexivity.
Qed.

Lemma install_new_buffer_run w :
  ~ In (generate_item_id (draws w)) (keys (input_audio_buffers (ctx w))) ->
  install_new_buffer w =
    Ok tt {| ctx := with_buffers (ctx w)
                      (input_audio_buffers (ctx w)
                       ++ [(generate_item_id (draws w),
                            empty_buffer (generate_item_id (draws w)))]);
             draws := S (draws w);
             vad_calls := vad_calls w |}.
Proof.
  intros Hfresh. unfold install_new_buffer, InputAudioBuffer_new, bind, draw, ret,
    get_ctx, set_input_audio_buffers, put_ctx. cbn.
  rewrite setitem_fresh by exact Hfresh. reflexivity.
Qed.

(** C3. Committing while the active buffer is empty publishes exactly one
    event, the error event of type [invalid_request_error] saying that the
    buffer is empty, and nothing else happens: no committed event, no new
    buffer, the active buffer id and the buffer mapping are as before. *)
Theorem commit_of_empty_buffer w key b :
  last_key (input_audio_buffers (ctx w)) = Some key ->
  getitem key (input_audio_buffers (ctx w)) = Some b ->
  size b = 0 ->
  exists w',
    handle_input_audio_buffer_commit w = Ok tt w'
    /\ pubsub (ctx w') =
         pubsub (ctx w)
         ++ [ErrorEvent (generate_event_id (draws w))
               {| type := "invalid_request_error";
                  message := "Error committing input audio buffer: the buffer is empty." |}]
    /\ input_audio_buffers (ctx w') = input_audio_buffers (ctx w)
    /\ last_key (input_audio_buffers (ctx w')) = Some key
    /\ conversation (ctx w') = conversation (ctx w)
    /\ configuration (ctx w') = configuration (ctx w)
    /\ vad_calls w' = vad_calls w.
Proof.
  intros Hkey Hget Hsize. unfold handle_input_audio_buffer_commit, bind.
  rewrite (active_buffer_run _ _ _ Hkey Hget). rewrite Hsize. cbn.
  eexists. split; [reflexivity|]. cbn. repeat split. exact Hkey.
Qed.

(** C6. Committing while the active buffer is non-empty.  When the
    conversation holds an item, the handler publishes exactly one event,
    [committed], whose [item_id] is the active buffer's id and whose
    [previous_item_id] is the last item of the conversation, and then
    installs a new empty active buffer under a different id; the
    committed buffer stays in the mapping (the identifier generated for
    the new buffer is taken to be unused).  When the conversation is
    empty, the handler passes [None] as [previous_item_id], the event
    cannot be built, and the handler raises [ValidationError]: nothing is
    published, no buffer is installed, the session context is as it
    was. *)
Theorem commit_of_nonempty_buffer w key b :
  last_key (input_audio_buffers (ctx w)) = Some key ->
  getitem key (input_audio_buffers (ctx w)) = Some b ->
  size b <> 0 ->
  (forall last_item,
     last_key (conversation (ctx w)) = Some last_item ->
     ~ In (generate_item_id (S (draws w))) (keys (input_audio_buffers (ctx w))) ->
     let new_id := generate_item_id (S (draws w)) in
     exists w',
       handle_input_audio_buffer_commit w = Ok tt w'
       /\ pubsub (ctx w') =
            pubsub (ctx w)
            ++ [InputAudioBufferCommittedEvent (generate_item_id (draws w))
                  last_item key]
       /\ input_audio_buffers (ctx w') =
            input_audio_buffers (ctx w) ++ [(new_id, empty_buffer new_id)]
       /\ last_key (input_audio_buffers (ctx w')) = Some new_id
       /\ getitem new_id (input_audio_buffers (ctx w')) = Some (empty_buffer new_id)
       /\ size (empty_buffer new_id) = 0
       /\ new_id <> key
       /\ getitem key (input_audio_buffers (ctx w')) = Some b
       /\ conversation (ctx w') = conversation (ctx w))
  /\ (last_key (conversation (ctx w)) = None ->
      exists w',
        handle_input_audio_buffer_commit w = Raise ValidationError w'
        /\ ctx w' = ctx w
        /\ draws w' = S (draws w)).
Proof.
  intros Hkey Hget Hsize.
  assert (Hrun : handle_input_audio_buffer_commit w
                 = (committed <- InputAudioBufferCommittedEvent_new
                                   (generate_item_id (draws w))
                                   (last_key (conversation (ctx w))) key ;;
                    publish_nowait committed ;;; install_new_buffer) (drawn w)).
  { unfold handle_input_audio_buffer_commit, bind at 1.
    rewrite (active_buffer_run _ _ _ Hkey Hget).
    destruct (size b =? 0) eqn:E; [apply Z.eqb_eq in E; contradiction|].
    reflexivity. }
  rewrite Hrun. split.
  - intros last_item Hlast Hfresh new_id. rewrite Hlast.
    unfold bind, InputAudioBufferCommittedEvent_new, ret.
    cbn -[install_new_buffer]. rewrite install_new_buffer_run by exact Hfresh.
    eexists. split; [reflexivity|]. cbn. fold new_id.
    assert (Hin : In key (keys (input_audio_buffers (ctx w)))) by (eapply last_key_In; eauto).
    repeat split.
    + apply last_key_snoc.
    + rewrite getitem_app_r by exact Hfresh. cbn. rewrite String.eqb_refl. reflexivity.
    + intros Heq. apply Hfresh. fold new_id. rewrite Heq. exact Hin.
    + rewrite getitem_app_l by exact Hin. exact Hget.
  - intros Hnone. rewrite Hnone. eexists. split; [reflexivity|]. split; reflexivity.
Qed.

(** C7. Clearing, whatever the active buffer holds (nothing, too), removes
    the active buffer's id from the mapping, publishes exactly one event,
    [cleared] (no error), and installs a fresh empty active buffer whose id
    differs from the removed one.  The identifier generated for the new
    buffer is taken to be unused. *)
Theorem clear_replaces_active_buffer w key :
  wf (input_audio_buffers (ctx w)) ->
  last_key (input_audio_buffers (ctx w)) = Some key ->
  ~ In (generate_item_id (S (draws w))) (keys (input_audio_buffers (ctx w))) ->
  let new_id := generate_item_id (S (draws w)) in
  exists w' remaining b,
    handle_input_audio_buffer_clear w = Ok tt w'
    /\ input_audio_buffers (ctx w) = remaining ++ [(key, b)]
    /\ input_audio_buffers (ctx w') = remaining ++ [(new_id, empty_buffer new_id)]
    /\ ~ In key (keys (input_audio_buffers (ctx w')))
    /\ getitem key (input_audio_buffers (ctx w')) = None
    /\ pubsub (ctx w') =
         pubsub (ctx w) ++ [InputAudioBufferClearedEvent (generate_item_id (draws w))]
    /\ last_key (input_audio_buffers (ctx w')) = Some new_id
    /\ getitem new_id (input_audio_buffers (ctx w')) = Some (empty_buffer new_id)
    /\ new_id <> key
    /\ wf (input_audio_buffers (ctx w')).
Proof.
  intros Hwf Hkey Hfresh new_id.
  destruct (last_key_inv _ _ Hkey) as [remaining [b Hd]].
  rewrite Hd in Hwf, Hfresh. apply wf_snoc in Hwf. destruct Hwf as [Hwf Hnotin].
  assert (Hfresh' : ~ In new_id (keys remaining)).
  { intros H. apply Hfresh. unfold keys. rewrite map_app. apply in_or_app. left. exact H. }
  assert (Hne : new_id <> key).
  { intros H. apply Hfresh. unfold keys. rewrite map_app. apply in_or_app. right.
    left. symmetry. exact H. }
  unfold handle_input_audio_buffer_clear, bind, get_ctx. rewrite Hd.
  rewrite popitem_snoc. cbn -[install_new_buffer].
  rewrite install_new_buffer_run by (cbn; exact Hfresh').
  cbn. fold new_id.
  exists {| ctx := with_buffers
                     {| input_audio_buffers := remaining;
                        conversation := conversation (ctx w);
                        pubsub := pubsub (ctx w)
                                  ++ [InputAudioBufferClearedEvent (generate_item_id (draws w))];
                        configuration := configuration (ctx w) |}
                     (remaining ++ [(new_id, empty_buffer new_id)]);
            draws := S (S (draws w));
            vad_calls := vad_calls w |}, remaining, b.
  cbn.
  assert (Hout : ~ In key (keys (remaining ++ [(new_id, empty_buffer new_id)]))).
  { unfold keys. rewrite map_app. intros H. apply in_app_or in H.
    destruct H as [H|[H|[]]]; [exact (Hnotin H) | exact (Hne H)]. }
  repeat split.
  - exact Hout.
  - apply getitem_None. exact Hout.
  - apply last_key_snoc.
  - rewrite getitem_app_r by exact Hfresh'. cbn. rewrite String.eqb_refl. reflexivity.
  - exact Hne.
  - apply wf_snoc. split; assumption.
Qed.

(** C8. On a [speech_stopped] event received for the active buffer the
    handler installs a new empty active buffer and publishes exactly one
    event, [committed], whose [item_id] is the stopped buffer's id and
    whose [previous_item_id] is the id of the last conversation item, or
    the placeholder ["IDK"] when the conversation is empty.  The
    identifier generated for the new buffer is taken to be unused. *)
Theorem speech_stopped_rotates_and_commits w stopped_id :
  last_key (input_audio_buffers (ctx w)) = Some stopped_id ->
  ~ In (generate_item_id (draws w)) (keys (input_audio_buffers (ctx w))) ->
  let new_id := generate_item_id (draws w) in
  exists w',
    handle_input_audio_buffer_speech_stopped stopped_id w = Ok tt w'
    /\ input_audio_buffers (ctx w') =
         input_audio_buffers (ctx w) ++ [(new_id, empty_buffer new_id)]
    /\ last_key (input_audio_buffers (ctx w')) = Some new_id
    /\ getitem new_id (input_audio_buffers (ctx w')) = Some (empty_buffer new_id)
    /\ new_id <> stopped_id
    /\ pubsub (ctx w') =
         pubsub (ctx w)
         ++ [InputAudioBufferCommittedEvent (generate_item_id (S (draws w)))
               (match last_key (conversation (ctx w)) with
                     | Some last_item => last_item
                     | None => "IDK"
                     end)
               stopped_id].
Proof.
  intros Hkey Hfresh new_id.
  unfold handle_input_audio_buffer_speech_stopped, bind.
  rewrite install_new_buffer_run by exact Hfresh. cbn. fold new_id.
  eexists. split; [reflexivity|]. cbn.
  repeat split.
  - apply last_key_snoc.
  - rewrite getitem_app_r by exact Hfresh. cbn. rewrite String.eqb_refl. reflexivity.
  - intros Heq. apply Hfresh. fold new_id. rewrite Heq. eapply last_key_In; eauto.
Qed.

(** *** Appending *)

Lemma vad_detection_flow_world b td w ev b' w' :
  vad_detection_flow b td w = Ok (ev, b') w' ->
  ctx w' = ctx w
  /\ vad_calls w' = vad_calls w ++ [(audio_window b, vad_options td)].
Proof.
  rewrite vad_detection_flow_unfold.
  destruct (audio_start_ms (vad_state b)); destruct (found_span b td) as [ts|];
    cbn zeta; try (intros H; injection H as _ _ <-; split; reflexivity).
  destruct ((ts_end ts <? 3000) && (duration_ms b >? 3000));
    intros H; injection H as _ _ <-; split; reflexivity.
Qed.

Lemma audio_window_nil b : audio_window b = [] <-> data b = [].
Proof.
  unfold audio_window. split.
  - intros H. apply (f_equal (fun l => Z.of_nat (length l))) in H.
    rewrite trailing_length in H
      by (unfold MAX_VAD_WINDOW_SIZE_SAMPLES, MS_SAMPLE_RATE; lia).
    unfold MAX_VAD_WINDOW_SIZE_SAMPLES, MS_SAMPLE_RATE in H. cbn in H.
    destruct (data b); [reflexivity | cbn in H; lia].
  - intros ->. reflexivity.
Qed.

(** C9, as the code has it.  With turn detection configured, an append
    that goes through evaluates the active buffer exactly once, after the
    chunk has been added and whatever the length of the buffer: the VAD
    capability receives the trailing window of the buffer, and that
    window is empty exactly when the buffer was empty and the resampled
    chunk is empty too. *)
Theorem append_evaluates_any_length w audio chunk key b td :
  resample_audio_data (audio_samples_from_file audio) 24000 16000 = Some chunk ->
  last_key (input_audio_buffers (ctx w)) = Some key ->
  getitem key (input_audio_buffers (ctx w)) = Some b ->
  turn_detection (configuration (ctx w)) = Some td ->
  exists w' b',
    handle_input_audio_buffer_append audio w = Ok tt w'
    /\ vad_calls w' = vad_calls w ++ [(audio_window (append b chunk), vad_options td)]
    /\ (audio_window (append b chunk) = [] <-> data b = [] /\ chunk = [])
    /\ getitem key (input_audio_buffers (ctx w')) = Some b'
    /\ data b' = data b ++ chunk.
Proof.
  intros Hres Hkey Hget Htd.
  assert (Hin : In key (keys (input_audio_buffers (ctx w)))) by (eapply last_key_In; eauto).
  unfold handle_input_audio_buffer_append, bind. rewrite Hres. cbn [from_option ret].
  rewrite (active_buffer_run _ _ _ Hkey Hget).
  unfold store_buffer, set_input_audio_buffers, put_ctx, get_ctx, bind.
  cbn [ctx configuration draws vad_calls input_audio_buffers conversation pubsub].
  rewrite Htd.
  match goal with
  | |- context [vad_detection_flow ?b1 td ?w1] =>
      destruct (vad_detection_flow_total b1 td w1) as [ev [b2 [w2 Hflow]]];
      rewrite Hflow;
      destruct (vad_detection_flow_world _ _ _ _ _ _ Hflow) as [Hctx Hcalls];
      destruct (vad_detection_flow_discipline _ _ _ _ _ _ Hflow) as [_ [_ Hdata]]
  end.
  cbn in Hctx, Hcalls, Hdata.
  assert (Hwin : audio_window (append b chunk) = [] <-> data b = [] /\ chunk = []).
  { rewrite audio_window_nil. cbn. split.
    - apply app_eq_nil.
    - intros [-> ->]. reflexivity. }
  assert (Hstored : getitem key
            (replace key b2 (input_audio_buffers (ctx w2))) = Some b2).
  { apply getitem_replace. rewrite Hctx. cbn [input_audio_buffers].
    rewrite keys_replace. exact Hin. }
  destruct ev as [ev|].
  - unfold publish_nowait, put_ctx, get_ctx, bind. cbn.
    eexists _, b2. split; [reflexivity|]. cbn.
    repeat split; try assumption; apply Hwin; assumption.
  - unfold ret. eexists _, b2. split; [reflexivity|]. cbn.
    repeat split; try assumption; apply Hwin; assumption.
Qed.

(** *** The position of the markers *)

Lemma last_timestamp_In l ts : last_timestamp l = Some ts -> In ts l.
Proof.
  standalone. unfold last_timestamp. intros H.
  destruct (rev l) as [|x r] eqn:E; [discriminate|].
  injection H as <-. apply in_rev. rewrite E. left. reflexivity.
Qed.

Lemma last_timestamp_to_ms l :
  last_timestamp (to_ms_speech_timestamps l)
  = option_map (fun ts => {| ts_start := ts_start ts / MS_SAMPLE_RATE;
                             ts_end := ts_end ts / MS_SAMPLE_RATE |})
               (last_timestamp l).
Proof.
  standalone. unfold last_timestamp, to_ms_speech_timestamps.
  rewrite <- map_rev. destruct (rev l); reflexivity.
Qed.

Lemma found_span_raw b td :
  found_span b td
  = option_map (fun ts => {| ts_start := ts_start ts / MS_SAMPLE_RATE;
                             ts_end := ts_end ts / MS_SAMPLE_RATE |})
               (raw_span b td).
Proof. unfold found_span, raw_span. apply last_timestamp_to_ms. Qed.

Lemma raw_span_within b td raw :
  spans_within_window -> raw_span b td = Some raw ->
  span_within (Z.of_nat (length (audio_window b))) raw.
Proof.
  intros Hvad Hraw. apply last_timestamp_In in Hraw.
  specialize (Hvad (audio_window b) (vad_options td)).
  rewrite Forall_forall in Hvad. apply Hvad. exact Hraw.
Qed.

Lemma span_within_ms n raw :
  span_within n raw ->
  span_within (n / MS_SAMPLE_RATE)
    {| ts_start := ts_start raw / MS_SAMPLE_RATE;
       ts_end := ts_end raw / MS_SAMPLE_RATE |}.
Proof.
  standalone. unfold span_within, MS_SAMPLE_RATE. cbn [ts_start ts_end].
  intros [H0 [H1 H2]]. repeat split.
  - apply Z.div_pos; lia.
  - apply Z.div_le_mono; lia.
  - apply Z.div_le_mono; lia.
Qed.

(** X1. When the VAD capability reports spans inside the window it is
    given, the span an evaluation works with (the last one, converted to
    milliseconds) lies inside the duration of the window, which is at most
    3000 ms: [0 <= start <= end <= window_duration_ms <= 3000]. *)
Theorem found_span_within_window b td pair :
  spans_within_window ->
  found_span b td = Some pair ->
  span_within (window_duration_ms b) pair /\ window_duration_ms b <= 3000.
Proof.
  intros Hvad Hpair. split.
  - rewrite found_span_raw in Hpair.
    destruct (raw_span b td) as [raw|] eqn:Hraw; [|discriminate].
    injection Hpair as <-. apply span_within_ms.
    exact (raw_span_within b td raw Hvad Hraw).
  - rewrite window_duration_ms_min. lia.
Qed.

Lemma duration_ms_nonneg b : 0 <= duration_ms b.
Proof.
  standalone. unfold duration_ms, size, MS_SAMPLE_RATE. apply Z.div_pos; lia.
Qed.

Lemma start_position_bounds b td pair :
  spans_within_window ->
  found_span b td = Some pair ->
  Z.max 0 (duration_ms b - 3000)
  <= duration_ms b - window_duration_ms b + ts_start pair
  <= duration_ms b.
Proof.
  intros Hvad Hpair.
  assert (Hin : span_within (window_duration_ms b) pair).
  { rewrite found_span_raw in Hpair.
    destruct (raw_span b td) as [raw|] eqn:Hraw; [|discriminate].
    injection Hpair as <-. apply span_within_ms.
    exact (raw_span_within b td raw Hvad Hraw). }
  destruct Hin as [H0 [H1 H2]].
  pose proof (window_duration_ms_min b). pose proof (duration_ms_nonneg b). lia.
Qed.

(** X2. When the VAD capability reports spans inside the window, the
    [audio_start_ms] of a [speech_started] event lies in the audio the
    evaluation looked at: not before the start of the trailing 3000 ms
    window and not after the end of the buffer. *)
Theorem speech_started_position b td w ev b' w' :
  spans_within_window ->
  audio_start_ms (vad_state b) = None ->
  vad_detection_flow b td w = Ok (Some ev, b') w' ->
  exists ms,
    ev = InputAudioBufferSpeechStartedEvent (generate_item_id (draws w)) (id b) ms
    /\ audio_start_ms (vad_state b') = Some ms
    /\ Z.max 0 (duration_ms b - 3000) <= ms <= duration_ms b.
Proof.
  intros Hvad Hstart. rewrite vad_detection_flow_unfold, Hstart.
  destruct (found_span b td) as [pair|] eqn:Hpair; [|discriminate].
  cbv zeta. intros H. injection H as <- <- _.
  eexists. split; [reflexivity|]. split; [reflexivity|].
  exact (start_position_bounds b td pair Hvad Hpair).
Qed.

Lemma full_window b :
  duration_ms b > 3000 ->
  Z.of_nat (length (audio_window b)) = MAX_VAD_WINDOW_SIZE_SAMPLES.
Proof.
  standalone. unfold duration_ms, size, audio_window. intros Hd.
  rewrite trailing_length by (unfold MAX_VAD_WINDOW_SIZE_SAMPLES, MS_SAMPLE_RATE; lia).
  unfold MAX_VAD_WINDOW_SIZE_SAMPLES, MS_SAMPLE_RATE in *.
  assert (Z.of_nat (length (data b)) >= 48000).
  { destruct (Z.lt_ge_cases (Z.of_nat (length (data b))) 48000) as [Hlt|Hge]; [|lia].
    assert (Z.of_nat (length (data b)) / 16 <= 48000 / 16)
      by (apply Z.div_le_mono; lia).
    change (48000 / 16) with 3000 in H. lia. }
  lia.
Qed.

(** X3. The window-eviction rule in samples.  On a buffer in speech that
    is longer than 3000 ms (so the window is 48000 samples), with a VAD
    capability that reports spans inside the window, an evaluation returns
    no event exactly when the last span reported ends at the very end of
    the window (sample 48000); any earlier end, or no span at all, yields
    [speech_stopped]. *)
Theorem speech_goes_on_only_at_the_live_edge b td w a ev b' w' :
  spans_within_window ->
  audio_start_ms (vad_state b) = Some a ->
  duration_ms b > 3000 ->
  vad_detection_flow b td w = Ok (ev, b') w' ->
  (ev = None <->
   exists raw, raw_span b td = Some raw
               /\ ts_end raw = MAX_VAD_WINDOW_SIZE_SAMPLES)
  /\ (ev <> None ->
      ev = Some (InputAudioBufferSpeechStoppedEvent
                   (generate_item_id (draws w)) (id b)
                   (duration_ms b - prefix_padding_ms td))).
Proof.
  intros Hvad Hstart Hdur.
  rewrite vad_detection_flow_unfold, Hstart, found_span_raw. cbv zeta.
  pose proof (full_window b Hdur) as Hwin.
  destruct (raw_span b td) as [raw|] eqn:Hraw; cbn [option_map].
  - pose proof (raw_span_within b td raw Hvad Hraw) as [H0 [H1 H2]].
    rewrite Hwin in H2. unfold MAX_VAD_WINDOW_SIZE_SAMPLES, MS_SAMPLE_RATE in *.
    cbn [ts_end].
    replace (duration_ms b >? 3000) with true by (symmetry; apply Z.gtb_lt; lia).
    rewrite andb_true_r.
    destruct (Z.ltb_spec (ts_end raw / 16) 3000) as [Hlt|Hge];
      intros H; injection H as <- <- _.
    + split; [split|].
      * discriminate.
      * intros [raw' [Hr He]]. injection Hr as <-.
        rewrite He in Hlt. change (3000 * 16 / 16) with 3000 in Hlt. lia.
      * reflexivity.
    + split; [split|].
      * intros _. exists raw. split; [reflexivity|].
        assert (ts_end raw >= 48000).
        { destruct (Z.lt_ge_cases (ts_end raw) 48000) as [Hlt|Hge']; [|lia].
          assert (ts_end raw / 16 <= 47999 / 16) by (apply Z.div_le_mono; lia).
          change (47999 / 16) with 2999 in H. lia. }
        lia.
      * reflexivity.
      * intros H. congruence.
  - intros H. injection H as <- <- _. split; [split|].
    + discriminate.
    + intros [raw [Hr _]]. discriminate.
    + reflexivity.
Qed.

(** X4. An evaluation works on the [VadState] alone: it leaves the id
    and the audio of the buffer and the whole session context as they
    are, calls the VAD capability exactly once, on the trailing window and
    with the options of the turn-detection configuration, and draws an
    identifier only for the event it returns; that event is about the
    buffer evaluated, and without an event the buffer is unchanged. *)
Theorem evaluation_frame b td w ev b' w' :
  vad_detection_flow b td w = Ok (ev, b') w' ->
  id b' = id b
  /\ data b' = data b
  /\ ctx w' = ctx w
  /\ vad_calls w' = vad_calls w ++ [(audio_window b, vad_options td)]
  /\ match ev with
     | None => b' = b /\ draws w' = draws w
     | Some e => event_item_id e = Some (id b) /\ draws w' = S (draws w)
     end.
Proof.
  rewrite vad_detection_flow_unfold.
  destruct (audio_start_ms (vad_state b)); destruct (found_span b td) as [ts|];
    cbv zeta; try (intros H; injection H as <- <- <-; repeat split; reflexivity).
  destruct ((ts_end ts <? 3000) && (duration_ms b >? 3000));
    intros H; injection H as <- <- <-; repeat split; reflexivity.
Qed.

Lemma duration_ms_append b chunk : duration_ms b <= duration_ms (append b chunk).
Proof.
  standalone. unfold duration_ms, size, append, MS_SAMPLE_RATE. cbn [data].
  rewrite length_app. apply Z.div_le_mono; lia.
Qed.

Lemma markers_ordered_append td b chunk :
  markers_ordered td b -> markers_ordered td (append b chunk).
Proof.
  standalone. unfold markers_ordered. cbn [vad_state append].
  pose proof (duration_ms_append b chunk).
  destruct (audio_start_ms (vad_state b)); destruct (audio_end_ms (vad_state b));
    intros Hm; try exact Hm; lia.
Qed.

Lemma markers_ordered_evaluation b td w ev b' w' :
  spans_within_window -> markers_ordered td b ->
  vad_detection_flow b td w = Ok (ev, b') w' ->
  markers_ordered td b'.
Proof.
  intros Hvad Hm. rewrite vad_detection_flow_unfold.
  assert (Hdur : duration_ms (set_audio_end_ms b (duration_ms b - prefix_padding_ms td))
                 = duration_ms b) by reflexivity.
  unfold markers_ordered in *.
  destruct (audio_start_ms (vad_state b)) as [s|] eqn:Hstart.
  - assert (Hs : 0 <= s <= duration_ms b)
      by (destruct (audio_end_ms (vad_state b)); lia).
    assert (Hstop : forall eid,
      Ok (Some (InputAudioBufferSpeechStoppedEvent eid (id b)
                  (duration_ms b - prefix_padding_ms td)),
          set_audio_end_ms b (duration_ms b - prefix_padding_ms td))
         (drawn (logged w b td)) = Ok (ev, b') w' ->
      match audio_start_ms (vad_state b'), audio_end_ms (vad_state b') with
      | None, None => True
      | None, Some _ => False
      | Some s0, None => 0 <= s0 <= duration_ms b'
      | Some s0, Some e =>
          0 <= s0 <= duration_ms b'
          /\ s0 <= e + prefix_padding_ms td <= duration_ms b'
      end).
    { intros eid H. injection H as _ <- _. cbn [vad_state set_audio_end_ms audio_start_ms audio_end_ms].
      rewrite Hstart, Hdur. lia. }
    cbv zeta. destruct (found_span b td) as [ts|]; [|apply Hstop].
    destruct ((ts_end ts <? 3000) && (duration_ms b >? 3000)); [apply Hstop|].
    intros H. injection H as _ <- _. rewrite Hstart. exact Hm.
  - destruct (audio_end_ms (vad_state b)) as [e|] eqn:Hend; [contradiction|].
    destruct (found_span b td) as [pair|] eqn:Hpair; cbv zeta;
      intros H; injection H as _ <- _.
    + cbn [vad_state set_audio_start_ms audio_start_ms audio_end_ms]. rewrite Hend.
      change (duration_ms (set_audio_start_ms b
                (duration_ms b - window_duration_ms b + ts_start pair)))
        with (duration_ms b).
      pose proof (start_position_bounds b td pair Hvad Hpair). lia.
    + rewrite Hstart, Hend. exact I.
Qed.

(** X5. Along every run of evaluations with a VAD capability that reports
    spans inside the window, the markers stay consistent with the audio:
    [audio_end_ms] is never set without [audio_start_ms],
    [0 <= audio_start_ms <= duration_ms], and an end moved back by the
    padding lies between the start and the end of the audio,
    [audio_start_ms <= audio_end_ms + prefix_padding_ms <= duration_ms]. *)
Theorem markers_stay_ordered td chunks : forall b w evs b' w',
  spans_within_window ->
  markers_ordered td b ->
  evaluations b td chunks w = Ok (evs, b') w' ->
  markers_ordered td b'.
Proof.
  induction chunks as [|chunk chunks IH]; intros b w evs b' w' Hvad Hm Hrun.
  - cbn in Hrun. injection Hrun as _ <- _. exact Hm.
  - cbn [evaluations] in Hrun. unfold bind in Hrun.
    destruct (vad_detection_flow (append b chunk) td w) as [[ev b2] w2|] eqn:Hflow;
      [|discriminate].
    destruct (evaluations b2 td chunks w2) as [[evs' b3] w3|] eqn:Hrest;
      [|discriminate].
    cbn in Hrun. injection Hrun as _ <- _.
    eapply IH; [exact Hvad | | exact Hrest].
    eapply markers_ordered_evaluation; [exact Hvad | | exact Hflow].
    apply markers_ordered_append. exact Hm.
Qed.

(** *** More facts on insertion-ordered dictionaries *)

Lemma keys_setitem {V} k (v : V) d :
  keys (setitem k v d) = if mem k d then keys d else keys d ++ [k].
Proof.
  standalone. unfold setitem. destruct (mem k d).
  - apply keys_replace.
  - unfold keys. rewrite map_app. reflexivity.
Qed.

Lemma wf_setitem {V} k (v : V) d : wf d -> wf (setitem k v d).
Proof.
  standalone. intros Hwf. unfold wf. rewrite keys_setitem.
  destruct (mem k d) eqn:E; [exact Hwf|].
  assert (Hk : ~ In k (keys d)).
  { intros H. apply mem_In in H. congruence. }
  change (keys d ++ [k]) with (keys d ++ map fst [(k, v)]).
  unfold keys. rewrite <- map_app. apply wf_snoc. split; assumption.
Qed.

Lemma setitem_nonempty {V} k (v : V) d : setitem k v d <> [].
Proof.
  standalone. unfold setitem. destruct (mem k d) eqn:E.
  - destruct d as [|[k' v'] d]; [discriminate|]. cbn.
    destruct (String.eqb k k'); discriminate.
  - destruct d; discriminate.
Qed.

Lemma getitem_setitem_eq {V} k (v : V) d : getitem k (setitem k v d) = Some v.
Proof.
  standalone. unfold setitem. destruct (mem k d) eqn:E.
  - apply getitem_replace. apply mem_In. exact E.
  - rewrite getitem_app_r.
    + cbn. rewrite String.eqb_refl. reflexivity.
    + intros H. apply mem_In in H. congruence.
Qed.

Lemma getitem_replace_ne {V} k k' (v : V) d :
  k' <> k -> getitem k' (replace k v d) = getitem k' d.
Proof.
  standalone. intros Hne. induction d as [|[k0 v0] d IH]; cbn; [reflexivity|].
  destruct (String.eqb_spec k k0) as [->|Hk]; cbn.
  - destruct (String.eqb_spec k' k0); [contradiction | reflexivity].
  - rewrite IH. reflexivity.
Qed.

Lemma getitem_setitem_ne {V} k k' (v : V) d :
  k' <> k -> getitem k' (setitem k v d) = getitem k' d.
Proof.
  standalone. intros Hne. unfold setitem. destruct (mem k d).
  - apply getitem_replace_ne. exact Hne.
  - destruct (in_dec string_dec k' (keys d)) as [Hin|Hout].
    + apply getitem_app_l. exact Hin.
    + rewrite getitem_app_r by exact Hout. cbn.
      destruct (String.eqb_spec k' k); [contradiction|].
      symmetry. apply getitem_None. exact Hout.
Qed.

Lemma In_getitem {V} k (d : odict V) :
  In k (keys d) -> exists v, getitem k d = Some v.
Proof.
  standalone. induction d as [|[k' v'] d IH]; cbn; [intros []|].
  intros H. destruct (String.eqb_spec k k') as [->|Hne].
  - eexists. reflexivity.
  - apply IH. destruct H; [congruence | assumption].
Qed.

Lemma getitem_In_pair {V} k (d : odict V) v : getitem k d = Some v -> In (k, v) d.
Proof.
  standalone. induction d as [|[k' v'] d IH]; cbn; [discriminate|].
  destruct (String.eqb_spec k k') as [->|Hne].
  - intros H. injection H as <-. left. reflexivity.
  - intros H. right. apply IH. exact H.
Qed.

Lemma replace_nonempty {V} k (v : V) d : d <> [] -> replace k v d <> [].
Proof.
  standalone. destruct d as [|[k' v'] d]; [congruence|]. intros _. cbn.
  destruct (String.eqb k k'); discriminate.
Qed.

Lemma popitem_nonempty {V} (d : odict V) :
  d <> [] -> exists kv r, popitem d = Some (kv, r) /\ d = r ++ [kv].
Proof.
  standalone. intros Hd. destruct (exists_last Hd) as [r [kv ->]].
  exists kv, r. split; [apply popitem_snoc | reflexivity].
Qed.

Lemma popitem_inv {V} (d : odict V) kv r :
  popitem d = Some (kv, r) -> d = r ++ [kv].
Proof.
  standalone. destruct d as [|x d'] eqn:E; [discriminate|].
  assert (Hd : x :: d' <> []) by discriminate.
  destruct (popitem_nonempty _ Hd) as [kv' [r' [Hp Heq]]].
  rewrite Hp. intros H. injection H as <- <-. exact Heq.
Qed.

Lemma last_key_nil {V} (d : odict V) : last_key d = None -> d = [].
Proof.
  standalone. unfold last_key. destruct (rev d) as [|[k v] r] eqn:E; [|discriminate].
  intros _. rewrite <- (rev_involutive d), E. reflexivity.
Qed.

Lemma stored_replace d key b :
  stored_under_own_id d -> id b = key -> stored_under_own_id (replace key b d).
Proof.
  standalone. unfold stored_under_own_id. intros Hd Hid.
  induction d as [|[k' v'] d IH]; cbn; [constructor|].
  inversion Hd as [|? ? Hx Hrest]; subst.
  destruct (String.eqb_spec (id b) k') as [Heq|Hne].
  - constructor; [exact Heq | exact Hrest].
  - constructor; [exact Hx | apply IH; exact Hrest].
Qed.

Lemma stored_setitem d b :
  stored_under_own_id d -> stored_under_own_id (setitem (id b) b d).
Proof.
  standalone. intros Hd. unfold setitem. destruct (mem (id b) d).
  - apply stored_replace; [exact Hd | reflexivity].
  - unfold stored_under_own_id. apply Forall_app. split; [exact Hd|].
    constructor; [reflexivity | constructor].
Qed.

(** *** What each handler does to the world *)

Lemma active_buffer_ok w :
  session_ok (ctx w) ->
  exists key b,
    last_key (input_audio_buffers (ctx w)) = Some key
    /\ getitem key (input_audio_buffers (ctx w)) = Some b
    /\ id b = key
    /\ active_buffer w = Ok (key, b) w.
Proof.
  intros [_ [Hne [Hst _]]].
  destruct (last_key (input_audio_buffers (ctx w))) as [key|] eqn:Hkey;
    [|apply last_key_nil in Hkey; contradiction].
  destruct (In_getitem key _ (last_key_In _ _ Hkey)) as [b Hget].
  exists key, b. repeat split; try assumption.
  - apply getitem_In_pair in Hget. unfold stored_under_own_id in Hst.
    rewrite Forall_forall in Hst. exact (Hst _ Hget).
  - apply active_buffer_run; assumption.
Qed.

Lemma install_new_buffer_installed w : install_new_buffer w = Ok tt (installed w).
Proof. reflexivity. Qed.

Lemma commit_run w key b :
  last_key (input_audio_buffers (ctx w)) = Some key ->
  getitem key (input_audio_buffers (ctx w)) = Some b ->
  handle_input_audio_buffer_commit w =
  if size b =? 0
  then Ok tt (published (drawn w)
                (ErrorEvent (generate_event_id (draws w))
                   empty_input_audio_buffer_commit_error))
  else match last_key (conversation (ctx w)) with
       | Some previous =>
           Ok tt (installed
                    (published (drawn w)
                       (InputAudioBufferCommittedEvent (generate_item_id (draws w))
                          previous key)))
       | None => Raise ValidationError (drawn w)
       end.
Proof.
  intros Hkey Hget. unfold handle_input_audio_buffer_commit, bind at 1.
  rewrite (active_buffer_run _ _ _ Hkey Hget).
  destruct (size b =? 0); [reflexivity|].
  unfold bind, draw, get_ctx. cbn [ctx conversation draws].
  destruct (last_key (conversation (ctx w))); reflexivity.
Qed.

Lemma clear_run w kv remaining :
  popitem (input_audio_buffers (ctx w)) = Some (kv, remaining) ->
  handle_input_audio_buffer_clear w =
  Ok tt
    (installed
       (published
          (drawn {| ctx := with_buffers (ctx w) remaining;
                    draws := draws w;
                    vad_calls := vad_calls w |})
          (InputAudioBufferClearedEvent (generate_item_id (draws w))))).
Proof.
  intros Hpop. unfold handle_input_audio_buffer_clear, bind, get_ctx.
  rewrite Hpop. destruct kv. reflexivity.
Qed.

Lemma speech_stopped_run w item :
  handle_input_audio_buffer_speech_stopped item w =
  Ok tt
    (published (drawn (installed w))
       (InputAudioBufferCommittedEvent (generate_item_id (S (draws w)))
          (match last_key (conversation (ctx w)) with
                | Some k => k
                | None => "IDK"
                end)
          item)).
Proof. reflexivity. Qed.

Lemma committed_run w item :
  handle_input_audio_buffer_committed item w =
  Ok tt
    (published
       (drawn {| ctx := {| input_audio_buffers := input_audio_buffers (ctx w);
                           conversation :=
                             setitem item (user_audio_item item)
                               (conversation (ctx w));
                           pubsub := pubsub (ctx w);
                           configuration := configuration (ctx w) |};
                 draws := draws w;
                 vad_calls := vad_calls w |})
       (ConversationItemCreatedEvent (generate_item_id (draws w)) None
          (user_audio_item item))).
Proof. reflexivity. Qed.

Lemma append_run w audio chunk key b :
  resample_audio_data (audio_samples_from_file audio) 24000 16000 = Some chunk ->
  last_key (input_audio_buffers (ctx w)) = Some key ->
  getitem key (input_audio_buffers (ctx w)) = Some b ->
  handle_input_audio_buffer_append audio w =
  match turn_detection (configuration (ctx w)) with
  | None => Ok tt (stored w key (append b chunk))
  | Some td =>
      match vad_detection_flow (append b chunk) td (stored w key (append b chunk)) with
      | Ok (ev, b2) w2 => Ok tt (published_if (stored w2 key b2) ev)
      | Raise e w2 => Raise e w2
      end
  end.
Proof.
  intros Hres Hkey Hget.
  unfold handle_input_audio_buffer_append, bind. rewrite Hres. cbn [from_option ret].
  rewrite (active_buffer_run _ _ _ Hkey Hget).
  unfold store_buffer, set_input_audio_buffers, put_ctx, get_ctx, bind.
  cbn [ctx configuration draws vad_calls input_audio_buffers conversation pubsub].
  destruct (turn_detection (configuration (ctx w))) as [td|]; [|reflexivity].
  change {| ctx := {| input_audio_buffers :=
                        replace key (append b chunk) (input_audio_buffers (ctx w));
                      conversation := conversation (ctx w);
                      pubsub := pubsub (ctx w);
                      configuration := configuration (ctx w) |};
            draws := draws w; vad_calls := vad_calls w |}
    with (stored w key (append b chunk)).
  destruct (vad_detection_flow (append b chunk) td (stored w key (append b chunk)))
    as [[ev b2] w2|e w2]; [|reflexivity].
  destruct ev; reflexivity.
Qed.

Lemma vad_detection_flow_outcome b td w ev b' w' :
  vad_detection_flow b td w = Ok (ev, b') w' ->
  (ev = None /\ b' = b)
  \/ (exists ms,
        ev = Some (InputAudioBufferSpeechStartedEvent
                     (generate_item_id (draws w)) (id b) ms)
        /\ b' = set_audio_start_ms b ms
        /\ audio_start_ms (vad_state b) = None)
  \/ (exists ms,
        ev = Some (InputAudioBufferSpeechStoppedEvent
                     (generate_item_id (draws w)) (id b) ms)
        /\ b' = set_audio_end_ms b ms
        /\ audio_start_ms (vad_state b) <> None).
Proof.
  rewrite vad_detection_flow_unfold.
  destruct (audio_start_ms (vad_state b)) as [a|] eqn:Hstart;
    destruct (found_span b td) as [ts|]; cbv zeta.
  - destruct ((ts_end ts <? 3000) && (duration_ms b >? 3000));
      intros H; injection H as <- <- _.
    + right. right. eexists. repeat split. discriminate.
    + left. split; reflexivity.
  - intros H; injection H as <- <- _.
    right. right. eexists. repeat split. discriminate.
  - intros H; injection H as <- <- _.
    right. left. eexists. repeat split.
  - intros H; injection H as <- <- _. left. split; reflexivity.
Qed.

(** *** The session across handler calls *)

Lemma session_ok_published w ev : session_ok (ctx w) -> session_ok (ctx (published w ev)).
Proof. intros H. exact H. Qed.

Lemma session_ok_installed w :
  wf (input_audio_buffers (ctx w)) ->
  stored_under_own_id (input_audio_buffers (ctx w)) ->
  wf (conversation (ctx w)) ->
  session_ok (ctx (installed w)).
Proof.
  intros Hwf Hst Hconv. unfold session_ok, installed. cbn.
  repeat split.
  - apply wf_setitem. exact Hwf.
  - apply setitem_nonempty.
  - apply (stored_setitem _ (empty_buffer (generate_item_id (draws w)))). exact Hst.
  - exact Hconv.
Qed.

Lemma session_ok_stored w key b :
  session_ok (ctx w) -> id b = key -> session_ok (ctx (stored w key b)).
Proof.
  intros [Hwf [Hne [Hst Hconv]]] Hid. unfold session_ok, stored. cbn.
  repeat split.
  - unfold wf. rewrite keys_replace. exact Hwf.
  - apply replace_nonempty. exact Hne.
  - apply stored_replace; assumption.
  - exact Hconv.
Qed.

Lemma append_cases w audio :
  handle_input_audio_buffer_append audio w =
  match resample_audio_data (audio_samples_from_file audio) 24000 16000 with
  | None => Raise ValueError w
  | Some chunk =>
      match last_key (input_audio_buffers (ctx w)) with
      | None => Raise StopIteration w
      | Some key =>
          match getitem key (input_audio_buffers (ctx w)) with
          | None => Raise KeyError w
          | Some b =>
              match turn_detection (configuration (ctx w)) with
              | None => Ok tt (stored w key (append b chunk))
              | Some td =>
                  match vad_detection_flow (append b chunk) td
                          (stored w key (append b chunk)) with
                  | Ok (ev, b2) w2 => Ok tt (published_if (stored w2 key b2) ev)
                  | Raise e w2 => Raise e w2
                  end
              end
          end
      end
  end.
Proof.
  destruct (resample_audio_data (audio_samples_from_file audio) 24000 16000)
    as [chunk|] eqn:Hres.
  - destruct (last_key (input_audio_buffers (ctx w))) as [key|] eqn:Hkey.
    + destruct (getitem key (input_audio_buffers (ctx w))) as [b|] eqn:Hget.
      * apply append_run; assumption.
      * unfold handle_input_audio_buffer_append, bind. rewrite Hres. cbn [from_option ret].
        unfold active_buffer, bind, get_ctx. rewrite Hkey. cbn [from_option ret].
        rewrite Hget. reflexivity.
    + unfold handle_input_audio_buffer_append, bind. rewrite Hres. cbn [from_option ret].
      unfold active_buffer, bind, get_ctx. rewrite Hkey. reflexivity.
  - unfold handle_input_audio_buffer_append, bind. rewrite Hres. reflexivity.
Qed.

Lemma commit_cases w :
  handle_input_audio_buffer_commit w =
  match last_key (input_audio_buffers (ctx w)) with
  | None => Raise StopIteration w
  | Some key =>
      match getitem key (input_audio_buffers (ctx w)) with
      | None => Raise KeyError w
      | Some b =>
          if size b =? 0
          then Ok tt (published (drawn w)
                        (ErrorEvent (generate_event_id (draws w))
                           empty_input_audio_buffer_commit_error))
          else match last_key (conversation (ctx w)) with
               | Some previous =>
                   Ok tt (installed
                            (published (drawn w)
                               (InputAudioBufferCommittedEvent
                                  (generate_item_id (draws w)) previous key)))
               | None => Raise ValidationError (drawn w)
               end
      end
  end.
Proof.
  destruct (last_key (input_audio_buffers (ctx w))) as [key|] eqn:Hkey.
  - destruct (getitem key (input_audio_buffers (ctx w))) as [b|] eqn:Hget.
    + apply commit_run; assumption.
    + unfold handle_input_audio_buffer_commit, active_buffer, bind, get_ctx.
      rewrite Hkey. cbn [from_option ret]. rewrite Hget. reflexivity.
  - unfold handle_input_audio_buffer_commit, active_buffer, bind, get_ctx.
    rewrite Hkey. reflexivity.
Qed.

Lemma clear_cases w :
  handle_input_audio_buffer_clear w =
  match popitem (input_audio_buffers (ctx w)) with
  | None => Raise KeyError w
  | Some (_, remaining) =>
      Ok tt
        (installed
           (published
              (drawn {| ctx := with_buffers (ctx w) remaining;
                        draws := draws w;
                        vad_calls := vad_calls w |})
              (InputAudioBufferClearedEvent (generate_item_id (draws w)))))
  end.
Proof.
  destruct (popitem (input_audio_buffers (ctx w))) as [[kv remaining]|] eqn:Hpop.
  - apply (clear_run _ kv). exact Hpop.
  - unfold handle_input_audio_buffer_clear, bind, get_ctx. rewrite Hpop. reflexivity.
Qed.

Lemma last_key_getitem {V} (d : odict V) key :
  last_key d = Some key -> exists v, getitem key d = Some v.
Proof. standalone. intros H. apply In_getitem. eapply last_key_In. exact H. Qed.

(** X6. Every handler that returns leaves the session as the handlers
    expect it: the buffer mapping and the conversation keep distinct
    keys, there is an active buffer, and every buffer sits under its own
    id.  No assumption on the identifiers generated is needed. *)
Theorem handlers_keep_session_ok m w w' :
  handler_call m ->
  session_ok (ctx w) ->
  m w = Ok tt w' ->
  session_ok (ctx w').
Proof.
  intros Hcall Hok. pose proof Hok as [Hwf [Hne [Hst Hconv]]].
  destruct Hcall as [audio| | |item|item].
  - rewrite append_cases.
    destruct (resample_audio_data _ 24000 16000) as [chunk|]; [|discriminate].
    destruct (active_buffer_ok w Hok) as [key [b [Hkey [Hget [Hid _]]]]].
    rewrite Hkey, Hget.
    assert (Hok1 : session_ok (ctx (stored w key (append b chunk))))
      by (apply session_ok_stored; assumption).
    destruct (turn_detection (configuration (ctx w))) as [td|].
    + destruct (vad_detection_flow (append b chunk) td (stored w key (append b chunk)))
        as [[ev b2] w2|] eqn:Hflow; [|discriminate].
      destruct (vad_detection_flow_world _ _ _ _ _ _ Hflow) as [Hctx _].
      destruct (vad_detection_flow_discipline _ _ _ _ _ _ Hflow) as [_ [Hid2 _]].
      intros H. injection H as <-.
      assert (Hok2 : session_ok (ctx (stored w2 key b2))).
      { apply session_ok_stored; [rewrite Hctx; exact Hok1 | rewrite Hid2; exact Hid]. }
      destruct ev; exact Hok2.
    + intros H. injection H as <-. exact Hok1.
  - rewrite commit_cases.
    destruct (active_buffer_ok w Hok) as [key [b [Hkey [Hget _]]]].
    rewrite Hkey, Hget.
    destruct (size b =? 0).
    + intros H. injection H as <-. exact Hok.
    + destruct (last_key (conversation (ctx w))) as [previous|]; [|discriminate].
      intros H. injection H as <-. apply session_ok_installed; assumption.
  - rewrite clear_cases.
    destruct (popitem (input_audio_buffers (ctx w))) as [[kv remaining]|] eqn:Hpop;
      [|discriminate].
    intros H. injection H as <-.
    apply popitem_inv in Hpop. rewrite Hpop in Hwf, Hst.
    destruct kv as [k v]. apply wf_snoc in Hwf. destruct Hwf as [Hwf _].
    apply Forall_app in Hst. destruct Hst as [Hst _].
    apply session_ok_installed; assumption.
  - rewrite speech_stopped_run. intros H. injection H as <-.
    apply session_ok_published.
    apply (session_ok_installed w); assumption.
  - rewrite committed_run. intros H. injection H as <-.
    unfold session_ok. cbn. repeat split; try assumption.
    apply wf_setitem. exact Hconv.
Qed.

(** X7. On a session as the handlers expect it the handlers that
    rotate buffers or record items go through, with one exception.
    Clearing, handling [speech_stopped] and handling [committed] never
    raise.  A commit raises exactly when the active buffer is non-empty
    while the conversation is empty: the [committed] event cannot be built
    from [previous_item_id = None] and [ValidationError] is raised with
    the session context untouched. *)
Theorem rotations_do_not_fail w :
  session_ok (ctx w) ->
  (exists w', handle_input_audio_buffer_clear w = Ok tt w')
  /\ (forall item, exists w',
        handle_input_audio_buffer_speech_stopped item w = Ok tt w')
  /\ (forall item, exists w',
        handle_input_audio_buffer_committed item w = Ok tt w')
  /\ exists key b,
       last_key (input_audio_buffers (ctx w)) = Some key
       /\ getitem key (input_audio_buffers (ctx w)) = Some b
       /\ ((size b = 0 \/ conversation (ctx w) <> [] ->
            exists w', handle_input_audio_buffer_commit w = Ok tt w')
           /\ (size b <> 0 -> conversation (ctx w) = [] ->
               exists w',
                 handle_input_audio_buffer_commit w = Raise ValidationError w'
                 /\ ctx w' = ctx w)).
Proof.
  intros Hok. pose proof Hok as [Hwf [Hne [Hst Hconv]]].
  split; [|split; [|split]].
  - rewrite clear_cases.
    destruct (popitem_nonempty _ Hne) as [kv [r [Hpop _]]]. rewrite Hpop.
    destruct kv. eexists. reflexivity.
  - intros item. rewrite speech_stopped_run. eexists. reflexivity.
  - intros item. rewrite committed_run. eexists. reflexivity.
  - destruct (active_buffer_ok w Hok) as [key [b [Hkey [Hget _]]]].
    exists key, b. split; [exact Hkey|]. split; [exact Hget|].
    rewrite (commit_run _ key b Hkey Hget). split.
    + intros [Hsize|Hitems].
      * rewrite Hsize. eexists. reflexivity.
      * destruct (size b =? 0); [eexists; reflexivity|].
        destruct (last_key (conversation (ctx w))) as [previous|] eqn:Hlast;
          [eexists; reflexivity|].
        apply last_key_nil in Hlast. contradiction.
    + intros Hsize Hitems.
      destruct (size b =? 0) eqn:E; [apply Z.eqb_eq in E; contradiction|].
      rewrite Hitems. eexists. split; reflexivity.
Qed.

(** X9. Every handler call publishes at most one event, after the events
    already published, which it leaves in place; it never changes the
    session configuration, and the calls logged to the VAD capability only
    grow. *)
Theorem handlers_publish_at_most_one m w w' :
  handler_call m ->
  m w = Ok tt w' ->
  exists events,
    pubsub (ctx w') = pubsub (ctx w) ++ events
    /\ (length events <= 1)%nat
    /\ configuration (ctx w') = configuration (ctx w)
    /\ exists calls, vad_calls w' = vad_calls w ++ calls /\ (length calls <= 1)%nat.
Proof.
  intros Hcall. destruct Hcall as [audio| | |item|item].
  - rewrite append_cases.
    destruct (resample_audio_data _ 24000 16000) as [chunk|]; [|discriminate].
    destruct (last_key (input_audio_buffers (ctx w))) as [key|]; [|discriminate].
    destruct (getitem key (input_audio_buffers (ctx w))) as [b|]; [|discriminate].
    destruct (turn_detection (configuration (ctx w))) as [td|].
    + destruct (vad_detection_flow (append b chunk) td (stored w key (append b chunk)))
        as [[ev b2] w2|] eqn:Hflow; [|discriminate].
      destruct (vad_detection_flow_world _ _ _ _ _ _ Hflow) as [Hctx Hcalls].
      intros H. injection H as <-.
      destruct ev as [ev|]; cbn; rewrite Hctx, Hcalls; cbn.
      * exists [ev]. repeat split; [cbn; lia|]. eexists. split; [reflexivity | cbn; lia].
      * exists []. rewrite app_nil_r. repeat split; [cbn; lia|].
        eexists. split; [reflexivity | cbn; lia].
    + intros H. injection H as <-. exists []. cbn. rewrite app_nil_r.
      repeat split; [lia|]. exists []. rewrite app_nil_r. split; [reflexivity | cbn; lia].
  - rewrite commit_cases.
    destruct (last_key (input_audio_buffers (ctx w))) as [key|]; [|discriminate].
    destruct (getitem key (input_audio_buffers (ctx w))) as [b|]; [|discriminate].
    assert (Hdone : forall w0 (ev : Event),
              pubsub (ctx w0) = pubsub (ctx w) ++ [ev] ->
              configuration (ctx w0) = configuration (ctx w) ->
              vad_calls w0 = vad_calls w ->
              exists events,
                pubsub (ctx w0) = pubsub (ctx w) ++ events
                /\ (length events <= 1)%nat
                /\ configuration (ctx w0) = configuration (ctx w)
                /\ exists calls,
                     vad_calls w0 = vad_calls w ++ calls /\ (length calls <= 1)%nat).
    { intros w0 ev Hp Hc Hv. exists [ev]. repeat split; [exact Hp | cbn; lia | exact Hc |].
      exists []. rewrite app_nil_r. split; [exact Hv | cbn; lia]. }
    destruct (size b =? 0).
    + intros H. injection H as <-. eapply Hdone; reflexivity.
    + destruct (last_key (conversation (ctx w))) as [previous|]; [|discriminate].
      intros H. injection H as <-. eapply Hdone; reflexivity.
  - rewrite clear_cases.
    destruct (popitem (input_audio_buffers (ctx w))) as [[kv r]|]; [|discriminate].
    intros H. injection H as <-. cbn. eexists. split; [reflexivity|].
    repeat split; [cbn; lia|]. exists []. rewrite app_nil_r.
    split; [reflexivity | cbn; lia].
  - rewrite speech_stopped_run. intros H. injection H as <-. cbn.
    eexists. split; [reflexivity|].
    repeat split; [cbn; lia|]. exists []. rewrite app_nil_r.
    split; [reflexivity | cbn; lia].
  - rewrite committed_run. intros H. injection H as <-. cbn.
    eexists. split; [reflexivity|].
    repeat split; [cbn; lia|]. exists []. rewrite app_nil_r.
    split; [reflexivity | cbn; lia].
Qed.

(** X10. On a session without any buffer: committing raises
    [StopIteration], clearing raises [KeyError], an append of audio that
    resamples raises [StopIteration], each leaving the world as it is;
    the [speech_stopped] handler alone goes through and installs a
    buffer. *)
Theorem handlers_without_buffers w :
  input_audio_buffers (ctx w) = [] ->
  handle_input_audio_buffer_commit w = Raise StopIteration w
  /\ handle_input_audio_buffer_clear w = Raise KeyError w
  /\ (forall audio,
        resample_audio_data (audio_samples_from_file audio) 24000 16000 <> None ->
        handle_input_audio_buffer_append audio w = Raise StopIteration w)
  /\ (forall item, exists w',
        handle_input_audio_buffer_speech_stopped item w = Ok tt w'
        /\ input_audio_buffers (ctx w')
           = [(generate_item_id (draws w), empty_buffer (generate_item_id (draws w)))]).
Proof.
  intros Hempty. repeat split.
  - rewrite commit_cases, Hempty. reflexivity.
  - rewrite clear_cases, Hempty. reflexivity.
  - intros audio Hres. rewrite append_cases, Hempty.
    destruct (resample_audio_data _ 24000 16000); [reflexivity | congruence].
  - intros item. rewrite speech_stopped_run. eexists. split; [reflexivity|].
    cbn. rewrite Hempty. reflexivity.
Qed.

(** X11. An append that returns touches one buffer only: the keys of the
    mapping and their order, every buffer but the active one, and the
    conversation are as before, and the active buffer keeps its id and
    holds its former audio followed by the resampled chunk. *)
Theorem append_frame w audio w' :
  handle_input_audio_buffer_append audio w = Ok tt w' ->
  exists chunk key b b',
    resample_audio_data (audio_samples_from_file audio) 24000 16000 = Some chunk
    /\ last_key (input_audio_buffers (ctx w)) = Some key
    /\ getitem key (input_audio_buffers (ctx w)) = Some b
    /\ keys (input_audio_buffers (ctx w')) = keys (input_audio_buffers (ctx w))
    /\ getitem key (input_audio_buffers (ctx w')) = Some b'
    /\ id b' = id b
    /\ data b' = data b ++ chunk
    /\ (forall k, k <> key ->
          getitem k (input_audio_buffers (ctx w'))
          = getitem k (input_audio_buffers (ctx w)))
    /\ conversation (ctx w') = conversation (ctx w).
Proof.
  rewrite append_cases.
  destruct (resample_audio_data _ 24000 16000) as [chunk|]; [|discriminate].
  destruct (last_key (input_audio_buffers (ctx w))) as [key|] eqn:Hkey; [|discriminate].
  destruct (getitem key (input_audio_buffers (ctx w))) as [b|] eqn:Hget; [|discriminate].
  assert (Hin : In key (keys (input_audio_buffers (ctx w)))) by (eapply last_key_In; eauto).
  destruct (turn_detection (configuration (ctx w))) as [td|].
  - destruct (vad_detection_flow (append b chunk) td (stored w key (append b chunk)))
      as [[ev b2] w2|] eqn:Hflow; [|discriminate].
    destruct (vad_detection_flow_world _ _ _ _ _ _ Hflow) as [Hctx _].
    destruct (vad_detection_flow_discipline _ _ _ _ _ _ Hflow) as [_ [Hid Hdata]].
    intros H. injection H as <-.
    exists chunk, key, b, b2.
    assert (Hbufs : input_audio_buffers (ctx (published_if (stored w2 key b2) ev))
                    = replace key b2
                        (replace key (append b chunk) (input_audio_buffers (ctx w)))).
    { destruct ev; cbn; rewrite Hctx; reflexivity. }
    assert (Hconv : conversation (ctx (published_if (stored w2 key b2) ev))
                    = conversation (ctx w)).
    { destruct ev; cbn; rewrite Hctx; reflexivity. }
    rewrite Hbufs, Hconv. repeat split; try exact Hget.
    + rewrite !keys_replace. reflexivity.
    + apply getitem_replace. rewrite keys_replace. exact Hin.
    + exact Hid.
    + exact Hdata.
    + intros k Hk. rewrite !getitem_replace_ne by exact Hk. reflexivity.
  - intros H. injection H as <-. exists chunk, key, b, (append b chunk).
    cbn [stored ctx with_buffers input_audio_buffers conversation append id data].
    repeat split; try exact Hget.
    + apply keys_replace.
    + apply getitem_replace. exact Hin.
    + intros k Hk. apply getitem_replace_ne. exact Hk.
Qed.

(** X12. Without a turn-detection configuration an append only
    accumulates audio: the VAD capability is not called, nothing is
    published, no identifier is drawn, and the markers of the active
    buffer are left alone. *)
Theorem append_without_turn_detection w audio w' :
  turn_detection (configuration (ctx w)) = None ->
  handle_input_audio_buffer_append audio w = Ok tt w' ->
  vad_calls w' = vad_calls w
  /\ pubsub (ctx w') = pubsub (ctx w)
  /\ draws w' = draws w
  /\ exists key b b',
       last_key (input_audio_buffers (ctx w)) = Some key
       /\ getitem key (input_audio_buffers (ctx w)) = Some b
       /\ getitem key (input_audio_buffers (ctx w')) = Some b'
       /\ vad_state b' = vad_state b.
Proof.
  intros Htd. rewrite append_cases, Htd.
  destruct (resample_audio_data _ 24000 16000) as [chunk|]; [|discriminate].
  destruct (last_key (input_audio_buffers (ctx w))) as [key|] eqn:Hkey; [|discriminate].
  destruct (getitem key (input_audio_buffers (ctx w))) as [b|] eqn:Hget; [|discriminate].
  intros H. injection H as <-.
  cbn [stored ctx with_buffers input_audio_buffers pubsub draws vad_calls].
  repeat split.
  exists key, b, (append b chunk). repeat split; try exact Hget.
  apply getitem_replace. eapply last_key_In; eauto.
Qed.

(** X13. With turn detection configured, what an append publishes and
    what it stores agree.  Either nothing is published and the markers of
    the active buffer are unchanged; or [speech_started] is published for
    the active buffer, whose [audio_start_ms], unset before, now holds the
    value in the event; or [speech_stopped] is published for the active
    buffer, which had started, and whose [audio_end_ms] now holds the
    value in the event. *)
Theorem append_publishes_what_it_stores w audio td w' :
  session_ok (ctx w) ->
  turn_detection (configuration (ctx w)) = Some td ->
  handle_input_audio_buffer_append audio w = Ok tt w' ->
  exists key b b',
    last_key (input_audio_buffers (ctx w)) = Some key
    /\ getitem key (input_audio_buffers (ctx w)) = Some b
    /\ getitem key (input_audio_buffers (ctx w')) = Some b'
    /\ ((pubsub (ctx w') = pubsub (ctx w) /\ vad_state b' = vad_state b)
        \/ (exists eid ms,
              pubsub (ctx w')
              = pubsub (ctx w) ++ [InputAudioBufferSpeechStartedEvent eid key ms]
              /\ audio_start_ms (vad_state b) = None
              /\ audio_start_ms (vad_state b') = Some ms
              /\ audio_end_ms (vad_state b') = audio_end_ms (vad_state b))
        \/ (exists eid ms,
              pubsub (ctx w')
              = pubsub (ctx w) ++ [InputAudioBufferSpeechStoppedEvent eid key ms]
              /\ audio_start_ms (vad_state b) <> None
              /\ audio_start_ms (vad_state b') = audio_start_ms (vad_state b)
              /\ audio_end_ms (vad_state b') = Some ms)).
Proof.
  intros Hok Htd. rewrite append_cases, Htd.
  destruct (resample_audio_data _ 24000 16000) as [chunk|]; [|discriminate].
  destruct (active_buffer_ok w Hok) as [key [b [Hkey [Hget [Hid _]]]]].
  rewrite Hkey, Hget.
  assert (Hin : In key (keys (input_audio_buffers (ctx w)))) by (eapply last_key_In; eauto).
  destruct (vad_detection_flow (append b chunk) td (stored w key (append b chunk)))
    as [[ev b2] w2|] eqn:Hflow; [|discriminate].
  destruct (vad_detection_flow_world _ _ _ _ _ _ Hflow) as [Hctx _].
  intros H. injection H as <-.
  exists key, b, b2. split; [reflexivity|]. split; [exact Hget|].
  assert (Hbufs : input_audio_buffers (ctx (published_if (stored w2 key b2) ev))
                  = replace key b2
                      (replace key (append b chunk) (input_audio_buffers (ctx w)))).
  { destruct ev; cbn; rewrite Hctx; reflexivity. }
  split.
  { rewrite Hbufs. apply getitem_replace. rewrite keys_replace. exact Hin. }
  destruct (vad_detection_flow_outcome _ _ _ _ _ _ Hflow)
    as [[-> ->] | [[ms [-> [-> Hnone]]] | [ms [-> [-> Hsome]]]]].
  - left. split; [cbn; rewrite Hctx; reflexivity | reflexivity].
  - right. left. exists (generate_item_id (draws w)), ms.
    change (id (append b chunk)) with (id b). rewrite Hid.
    repeat split; [cbn; rewrite Hctx; reflexivity | exact Hnone].
  - right. right. exists (generate_item_id (draws w)), ms.
    change (id (append b chunk)) with (id b). rewrite Hid.
    repeat split; [cbn; rewrite Hctx; reflexivity | exact Hsome].
Qed.

(** *** Handlers one after the other *)

(** X14. The committed handler always goes through.  It stores a
    completed user message with pending audio transcript under the id of
    the event: a new id goes last in the conversation, an id already
    there keeps its place and has its item replaced.  It publishes one
    [conversation.item.created] event, always with
    [previous_item_id = None], and leaves every other item and the buffer
    mapping alone. *)
Theorem committed_records_item w item :
  exists w',
    handle_input_audio_buffer_committed item w = Ok tt w'
    /\ getitem item (conversation (ctx w')) = Some (user_audio_item item)
    /\ keys (conversation (ctx w'))
       = (if mem item (conversation (ctx w))
          then keys (conversation (ctx w))
          else keys (conversation (ctx w)) ++ [item])
    /\ (forall k, k <> item ->
          getitem k (conversation (ctx w')) = getitem k (conversation (ctx w)))
    /\ input_audio_buffers (ctx w') = input_audio_buffers (ctx w)
    /\ pubsub (ctx w')
       = pubsub (ctx w)
         ++ [ConversationItemCreatedEvent (generate_item_id (draws w)) None
               (user_audio_item item)].
Proof.
  rewrite committed_run. eexists. split; [reflexivity|]. cbn. repeat split.
  - apply getitem_setitem_eq.
  - apply keys_setitem.
  - intros k Hk. apply getitem_setitem_ne. exact Hk.
Qed.

(** X15. Server-side turn end, start to finish.  When the
    [speech_stopped] event of a buffer is handled and then the
    [committed] event it publishes, the stopped buffer has become the
    last item of the conversation, the active buffer is a new empty one,
    and exactly two events have been published, [committed] and
    [conversation.item.created], in this order.  The item is taken not to
    be in the conversation yet and the generated buffer id to be
    unused. *)
Theorem speech_stopped_then_committed w item :
  ~ In item (keys (conversation (ctx w))) ->
  ~ In (generate_item_id (draws w)) (keys (input_audio_buffers (ctx w))) ->
  exists w',
    (handle_input_audio_buffer_speech_stopped item ;;;
     handle_input_audio_buffer_committed item) w = Ok tt w'
    /\ last_key (conversation (ctx w')) = Some item
    /\ getitem item (conversation (ctx w')) = Some (user_audio_item item)
    /\ last_key (input_audio_buffers (ctx w')) = Some (generate_item_id (draws w))
    /\ getitem (generate_item_id (draws w)) (input_audio_buffers (ctx w'))
       = Some (empty_buffer (generate_item_id (draws w)))
    /\ pubsub (ctx w')
       = pubsub (ctx w)
         ++ [InputAudioBufferCommittedEvent (generate_item_id (S (draws w)))
               (match last_key (conversation (ctx w)) with
                     | Some k => k
                     | None => "IDK"
                     end)
               item;
             ConversationItemCreatedEvent (generate_item_id (S (S (draws w)))) None
               (user_audio_item item)].
Proof.
  intros Hitem Hfresh. unfold bind. rewrite speech_stopped_run, committed_run.
  eexists. split; [reflexivity|]. cbn.
  rewrite (setitem_fresh item) by exact Hitem.
  rewrite (setitem_fresh (generate_item_id (draws w))) by exact Hfresh.
  repeat split.
  - apply last_key_snoc.
  - rewrite getitem_app_r by exact Hitem. cbn. rewrite String.eqb_refl. reflexivity.
  - apply last_key_snoc.
  - rewrite getitem_app_r by exact Hfresh. cbn. rewrite String.eqb_refl. reflexivity.
  - rewrite <- app_assoc. reflexivity.
Qed.

(** X16. Once the [committed] event of a buffer has been handled, the
    next turn points back at it: a [speech_stopped] handled next, or a
    commit of a non-empty active buffer, publishes a [committed] event
    whose [previous_item_id] is that buffer, never the placeholder.  The
    item is taken not to be in the conversation yet. *)
Theorem next_turn_points_at_last_item w item :
  ~ In item (keys (conversation (ctx w))) ->
  (forall next, exists w',
     (handle_input_audio_buffer_committed item ;;;
      handle_input_audio_buffer_speech_stopped next) w = Ok tt w'
     /\ pubsub (ctx w')
        = pubsub (ctx w)
          ++ [ConversationItemCreatedEvent (generate_item_id (draws w)) None
                (user_audio_item item);
              InputAudioBufferCommittedEvent (generate_item_id (S (S (draws w))))
                item next])
  /\ (forall key b,
        last_key (input_audio_buffers (ctx w)) = Some key ->
        getitem key (input_audio_buffers (ctx w)) = Some b ->
        size b <> 0 ->
        exists w',
          (handle_input_audio_buffer_committed item ;;;
           handle_input_audio_buffer_commit) w = Ok tt w'
          /\ pubsub (ctx w')
             = pubsub (ctx w)
               ++ [ConversationItemCreatedEvent (generate_item_id (draws w)) None
                     (user_audio_item item);
                   InputAudioBufferCommittedEvent (generate_item_id (S (draws w)))
                     item key]).
Proof.
  intros Hitem. split.
  - intros next. unfold bind. rewrite committed_run, speech_stopped_run.
    eexists. split; [reflexivity|]. cbn.
    rewrite (setitem_fresh item) by exact Hitem. rewrite last_key_snoc.
    rewrite <- app_assoc. reflexivity.
  - intros key b Hkey Hget Hsize. unfold bind. rewrite committed_run.
    rewrite (commit_run _ key b) by assumption.
    destruct (size b =? 0) eqn:E; [apply Z.eqb_eq in E; contradiction|].
    cbn [ctx published drawn conversation].
    rewrite (setitem_fresh item) by exact Hitem. rewrite last_key_snoc.
    eexists. split; [reflexivity|]. cbn.
    rewrite <- app_assoc. reflexivity.
Qed.

Lemma commit_of_installed w :
  ~ In (generate_item_id (draws w)) (keys (input_audio_buffers (ctx w))) ->
  handle_input_audio_buffer_commit (installed w)
  = Ok tt (published (drawn (installed w))
             (ErrorEvent (generate_event_id (S (draws w)))
                empty_input_audio_buffer_commit_error)).
Proof.
  intros Hfresh.
  rewrite (commit_run _ (generate_item_id (draws w))
             (empty_buffer (generate_item_id (draws w)))).
  - reflexivity.
  - cbn. rewrite setitem_fresh by exact Hfresh. apply last_key_snoc.
  - cbn. apply getitem_setitem_eq.
Qed.

(** X17. After a rotation the active buffer is empty, so a commit that
    follows at once is refused: after a commit of a non-empty buffer that
    went through (the conversation held an item), after a clear, and
    after a handled [speech_stopped], the next commit publishes the
    empty-buffer error and leaves the buffer mapping as the rotation left
    it.  The identifiers generated for new buffers are taken to be
    unused. *)
Theorem commit_after_rotation_is_refused w :
  input_audio_buffers (ctx w) <> [] ->
  ~ In (generate_item_id (draws w)) (keys (input_audio_buffers (ctx w))) ->
  ~ In (generate_item_id (S (draws w))) (keys (input_audio_buffers (ctx w))) ->
  (forall key b previous,
     last_key (input_audio_buffers (ctx w)) = Some key ->
     getitem key (input_audio_buffers (ctx w)) = Some b ->
     size b <> 0 ->
     last_key (conversation (ctx w)) = Some previous ->
     exists w1 w2,
       handle_input_audio_buffer_commit w = Ok tt w1
       /\ handle_input_audio_buffer_commit w1 = Ok tt w2
       /\ pubsub (ctx w2)
          = pubsub (ctx w1)
            ++ [ErrorEvent (generate_event_id (draws w1))
                  empty_input_audio_buffer_commit_error]
       /\ input_audio_buffers (ctx w2) = input_audio_buffers (ctx w1))
  /\ (exists w1 w2,
        handle_input_audio_buffer_clear w = Ok tt w1
        /\ handle_input_audio_buffer_commit w1 = Ok tt w2
        /\ pubsub (ctx w2)
           = pubsub (ctx w1)
             ++ [ErrorEvent (generate_event_id (draws w1))
                   empty_input_audio_buffer_commit_error]
        /\ input_audio_buffers (ctx w2) = input_audio_buffers (ctx w1))
  /\ (forall item, exists w1 w2,
        handle_input_audio_buffer_speech_stopped item w = Ok tt w1
        /\ handle_input_audio_buffer_commit w1 = Ok tt w2
        /\ pubsub (ctx w2)
           = pubsub (ctx w1)
             ++ [ErrorEvent (generate_event_id (draws w1))
                   empty_input_audio_buffer_commit_error]
        /\ input_audio_buffers (ctx w2) = input_audio_buffers (ctx w1)).
Proof.
  intros Hne Hfresh0 Hfresh1. repeat split.
  - intros key b previous Hkey Hget Hsize Hlast.
    rewrite (commit_run _ key b) by assumption.
    destruct (size b =? 0) eqn:E; [apply Z.eqb_eq in E; contradiction|].
    rewrite Hlast.
    eexists _, _. split; [reflexivity|].
    rewrite commit_of_installed by exact Hfresh1.
    split; [reflexivity|]. split; reflexivity.
  - destruct (popitem_nonempty _ Hne) as [kv [r [Hpop Hd]]].
    rewrite (clear_run _ kv r) by exact Hpop.
    eexists _, _. split; [reflexivity|].
    rewrite commit_of_installed.
    + split; [reflexivity|]. split; reflexivity.
    + cbn. intros H. apply Hfresh1. rewrite Hd. unfold keys. rewrite map_app.
      apply in_or_app. left. exact H.
  - intros item. rewrite speech_stopped_run.
    eexists _, _. split; [reflexivity|].
    assert (Hc : handle_input_audio_buffer_commit
                   (published (drawn (installed w))
                      (InputAudioBufferCommittedEvent (generate_item_id (S (draws w)))
                         (match last_key (conversation (ctx w)) with
                               | Some k => k
                               | None => "IDK"
                               end) item))
                 = Ok tt (published
                            (drawn (published (drawn (installed w))
                               (InputAudioBufferCommittedEvent
                                  (generate_item_id (S (draws w)))
                                  (match last_key (conversation (ctx w)) with
                                        | Some k => k
                                        | None => "IDK"
                                        end) item)))
                            (ErrorEvent (generate_event_id (S (S (draws w))))
                               empty_input_audio_buffer_commit_error))).
    { rewrite (commit_run _ (generate_item_id (draws w))
                 (empty_buffer (generate_item_id (draws w)))).
      - reflexivity.
      - cbn. rewrite setitem_fresh by exact Hfresh0. apply last_key_snoc.
      - cbn. apply getitem_setitem_eq. }
    rewrite Hc. split; [reflexivity|]. split; reflexivity.
Qed.

(** X18. What a colliding identifier does.  If the identifier generated
    for the new buffer of a commit that goes through (the conversation
    holds an item) is already a key of the mapping, no buffer is added:
    the keys and the active buffer id stay as they are, and the buffer
    that sat under that identifier is overwritten by an empty one. *)
Theorem colliding_identifier_overwrites w key b previous :
  last_key (input_audio_buffers (ctx w)) = Some key ->
  getitem key (input_audio_buffers (ctx w)) = Some b ->
  size b <> 0 ->
  last_key (conversation (ctx w)) = Some previous ->
  In (generate_item_id (S (draws w))) (keys (input_audio_buffers (ctx w))) ->
  exists w',
    handle_input_audio_buffer_commit w = Ok tt w'
    /\ keys (input_audio_buffers (ctx w')) = keys (input_audio_buffers (ctx w))
    /\ last_key (input_audio_buffers (ctx w')) = Some key
    /\ getitem (generate_item_id (S (draws w))) (input_audio_buffers (ctx w'))
       = Some (empty_buffer (generate_item_id (S (draws w)))).
Proof.
  intros Hkey Hget Hsize Hlast Hin. rewrite (commit_run _ key b) by assumption.
  destruct (size b =? 0) eqn:E; [apply Z.eqb_eq in E; contradiction|].
  rewrite Hlast.
  eexists. split; [reflexivity|]. cbn.
  assert (Hkeys : keys (setitem (generate_item_id (S (draws w)))
                          (empty_buffer (generate_item_id (S (draws w))))
                          (input_audio_buffers (ctx w)))
                  = keys (input_audio_buffers (ctx w))).
  { rewrite keys_setitem. apply mem_In in Hin. rewrite Hin. reflexivity. }
  repeat split.
  - exact Hkeys.
  - rewrite (last_key_keys _ (input_audio_buffers (ctx w)) Hkeys). exact Hkey.
  - apply getitem_setitem_eq.
Qed.

End Router.

(** ** The resampler *)

Lemma Some_inj {A} (x y : A) : Some x = Some y -> x = y.
Proof. congruence. Qed.

Lemma nth_map_seq {A} (f : nat -> A) (d : A) k m i :
  (i < m)%nat -> nth i (map f (seq k m)) d = f (k + i)%nat.
Proof.
  intros Hi. rewrite (nth_indep _ d (f 0%nat)) by (rewrite length_map, length_seq; exact Hi).
  rewrite map_nth. rewrite seq_nth by exact Hi. reflexivity.
Qed.

Lemma Qlt_bool_iff x y : Numpy.Qlt_bool x y = true <-> (x < y)%Q.
Proof.
  unfold Numpy.Qlt_bool. rewrite negb_true_iff.
  split.
  - intros H. apply Qnot_le_lt. intros Hle. apply Qle_bool_iff in Hle. congruence.
  - intros H. destruct (Qle_bool y x) eqn:E; [|reflexivity].
    apply Qle_bool_iff in E. exfalso. exact (Qlt_not_le _ _ H E).
Qed.

Lemma Qlt_bool_false x y : Numpy.Qlt_bool x y = false <-> (y <= x)%Q.
Proof.
  unfold Numpy.Qlt_bool. rewrite negb_false_iff. apply Qle_bool_iff.
Qed.

Lemma Qlt_bool_comp x x' y y' :
  (x == x')%Q -> (y == y')%Q -> Numpy.Qlt_bool x y = Numpy.Qlt_bool x' y'.
Proof.
  intros Hx Hy.
  destruct (Numpy.Qlt_bool x y) eqn:E; symmetry.
  - apply Qlt_bool_iff. rewrite <- Hx, <- Hy. apply Qlt_bool_iff. exact E.
  - apply Qlt_bool_false. rewrite <- Hx, <- Hy. apply Qlt_bool_false. exact E.
Qed.

(** On a non-negative rational [int] is the floor. *)
Lemma py_int_floor x : (0 <= x)%Q -> Numpy.py_int x = Qfloor x.
Proof.
  destruct x as [n d]. unfold Qle. cbn. intros H.
  apply Z.quot_div_nonneg; lia.
Qed.

(** *** Integer rounding and powers of two *)

Local Open Scope Q_scope.
Import Float64.

Lemma pow2_pos e : 0 < pow2 e.
Proof. apply Qpower_0_lt. reflexivity. Qed.

Lemma pow2_add a b : pow2 (a + b) == pow2 a * pow2 b.
Proof. apply Qpower_plus. discriminate. Qed.

Lemma pow2_le a b : (a <= b)%Z -> pow2 a <= pow2 b.
Proof. intros H. apply Qpower_le_compat_l; [exact H | discriminate]. Qed.

Lemma pow2_lt a b : (a < b)%Z -> pow2 a < pow2 b.
Proof. intros H. apply Qpower_lt_compat_l; [exact H | reflexivity]. Qed.

Lemma pow2_lt_inv a b : pow2 a < pow2 b -> (a < b)%Z.
Proof. intros H. apply (Qpower_lt_compat_l_inv 2); [exact H | reflexivity]. Qed.

Lemma pow2_Z e : (0 <= e)%Z -> pow2 e == inject_Z (2 ^ e).
Proof. intros H. unfold pow2. rewrite Zpower_Qpower by exact H. reflexivity. Qed.

Lemma pow2_split a b : pow2 a == pow2 (a - b) * pow2 b.
Proof. rewrite <- pow2_add. replace (a - b + b)%Z with a by ring. reflexivity. Qed.

(** Rounding to the nearest integer. *)
Lemma round_half_even_cases q :
  let f := Qfloor q in
  (q - inject_Z f < 1 # 2 /\ round_half_even q = f)
  \/ (1 # 2 < q - inject_Z f /\ round_half_even q = (f + 1)%Z)
  \/ (q - inject_Z f == 1 # 2
      /\ round_half_even q = if Z.even f then f else (f + 1)%Z).
Proof.
  unfold round_half_even. cbv zeta.
  destruct (Qcompare_spec (q - inject_Z (Qfloor q)) (1 # 2)) as [H|H|H].
  - right. right. split; [exact H | reflexivity].
  - left. split; [exact H | reflexivity].
  - right. left. split; [exact H | reflexivity].
Qed.

Lemma Qfloor_bounds q : inject_Z (Qfloor q) <= q /\ q < inject_Z (Qfloor q) + 1.
Proof.
  split; [apply Qfloor_le|].
  pose proof (Qlt_floor q) as H. rewrite inject_Z_plus in H. exact H.
Qed.

Lemma round_half_even_error q :
  - (1 # 2) <= inject_Z (round_half_even q) - q <= 1 # 2.
Proof.
  destruct (Qfloor_bounds q) as [H1 H2].
  destruct (round_half_even_cases q) as [[H ->] | [[H ->] | [H ->]]].
  - split; lra.
  - rewrite inject_Z_plus. change (inject_Z 1) with 1. split; lra.
  - destruct (Z.even (Qfloor q)).
    + split; lra.
    + rewrite inject_Z_plus. change (inject_Z 1) with 1. split; lra.
Qed.

Lemma round_half_even_Z z : round_half_even (inject_Z z) = z.
Proof.
  destruct (round_half_even_cases (inject_Z z)) as [[H ->] | [[H ->] | [H ->]]];
    rewrite Qfloor_Z in *; try reflexivity; exfalso; lra.
Qed.

Lemma round_half_even_mono q q' : q <= q' -> (round_half_even q <= round_half_even q')%Z.
Proof.
  intros Hle.
  pose proof (Qfloor_resp_le _ _ Hle) as Hf.
  destruct (Qfloor_bounds q) as [H1 H2]. destruct (Qfloor_bounds q') as [H1' H2'].
  pose proof (round_half_even_cases q) as C. pose proof (round_half_even_cases q') as C'.
  cbv zeta in C, C'.
  set (f := Qfloor q) in *. set (f' := Qfloor q') in *.
  destruct (Z.eq_dec f f') as [Heq|Hne].
  - clearbody f f'. subst f'.
    destruct C as [[H ->] | [[H ->] | [H ->]]];
      destruct C' as [[H' ->] | [[H' ->] | [H' ->]]];
      destruct (Z.even f); try lia; exfalso; lra.
  - destruct C as [[H ->] | [[H ->] | [H ->]]];
      destruct C' as [[H' ->] | [[H' ->] | [H' ->]]];
      try destruct (Z.even f); try destruct (Z.even f'); lia.
Qed.

Lemma round_half_even_comp q q' : q == q' -> round_half_even q = round_half_even q'.
Proof.
  intros H. apply Z.le_antisymm; apply round_half_even_mono; rewrite H; apply Qle_refl.
Qed.

Lemma Qfloor_unique q z : inject_Z z <= q -> q < inject_Z z + 1 -> Qfloor q = z.
Proof.
  intros H1 H2. destruct (Qfloor_bounds q) as [F1 F2].
  assert (A : inject_Z (Qfloor q) < inject_Z (z + 1)).
  { rewrite inject_Z_plus. change (inject_Z 1) with 1. lra. }
  assert (B : inject_Z z < inject_Z (Qfloor q + 1)).
  { rewrite inject_Z_plus. change (inject_Z 1) with 1. lra. }
  rewrite <- Zlt_Qlt in A, B. lia.
Qed.

Lemma round_half_even_small q : 0 <= q -> q < 1 # 2 -> round_half_even q = 0%Z.
Proof.
  intros H0 H1.
  assert (Hf : Qfloor q = 0%Z).
  { apply Qfloor_unique; change (inject_Z 0) with 0; lra. }
  destruct (round_half_even_cases q) as [[H ->] | [[H ->] | [H ->]]];
    rewrite Hf in *; change (inject_Z 0) with 0 in *; try reflexivity; exfalso; lra.
Qed.

(** Rounding just below an integer, and halfway below an even one. *)
Lemma round_half_even_below m q :
  inject_Z m - (1 # 2) < q -> q <= inject_Z m -> round_half_even q = m.
Proof.
  intros H1 H2. destruct (Qle_lt_or_eq _ _ H2) as [Hlt|Heq].
  - assert (Hf : Qfloor q = (m - 1)%Z).
    { apply Qfloor_unique; unfold Z.sub; rewrite inject_Z_plus, inject_Z_opp;
        change (inject_Z 1) with 1; lra. }
    destruct (round_half_even_cases q) as [[H ->] | [[H ->] | [H ->]]];
      rewrite Hf in *; unfold Z.sub in H; rewrite inject_Z_plus, inject_Z_opp in H;
      change (inject_Z 1) with 1 in H; try lia; exfalso; lra.
  - rewrite (round_half_even_comp _ _ Heq). apply round_half_even_Z.
Qed.

Lemma round_half_even_tie m :
  Z.even m = true -> round_half_even (inject_Z m - (1 # 2)) = m.
Proof.
  intros Hm.
  assert (Hf : Qfloor (inject_Z m - (1 # 2)) = (m - 1)%Z).
  { apply Qfloor_unique; unfold Z.sub; rewrite inject_Z_plus, inject_Z_opp;
      change (inject_Z 1) with 1; lra. }
  assert (Hodd : Z.even (m - 1) = false).
  { rewrite Z.even_sub, Hm. reflexivity. }
  destruct (round_half_even_cases (inject_Z m - (1 # 2))) as [[H ->] | [[H ->] | [H ->]]];
    rewrite Hf in *; unfold Z.sub in H; rewrite inject_Z_plus, inject_Z_opp in H;
    change (inject_Z 1) with 1 in H; try rewrite Hodd; try lia; exfalso; lra.
Qed.

(** *** The magnitude *)

Lemma Qmake_pos n d : 0 < n # d -> (0 < n)%Z.
Proof. unfold Qlt. cbn. lia. Qed.

Lemma mag_spec x : 0 < x -> pow2 (mag x - 1) <= x /\ x < pow2 (mag x).
Proof.
  intros Hx. destruct x as [n d]. pose proof (Qmake_pos _ _ Hx) as Hn.
  unfold mag. cbn [Qnum Qden]. rewrite Z.abs_eq by lia.
  set (ln := Z.log2 n). set (ld := Z.log2 (Z.pos d)).
  assert (Hln : (0 <= ln)%Z) by apply Z.log2_nonneg.
  assert (Hld : (0 <= ld)%Z) by apply Z.log2_nonneg.
  destruct (Z.log2_spec n Hn) as [N1 N2]. fold ln in N1, N2.
  destruct (Z.log2_spec (Z.pos d) eq_refl) as [D1 D2]. fold ld in D1, D2.
  assert (Habs : Qabs (n # d) == n # d) by (apply Qabs_pos; apply Qlt_le_weak; exact Hx).
  assert (Hd : 0 < inject_Z (Z.pos d)) by reflexivity.
  rewrite Zle_Qle in N1, D1. rewrite Zlt_Qlt in N2, D2.
  rewrite <- pow2_Z in N1, N2, D1, D2 by lia.
  assert (Hlow : pow2 (ln - ld - 1) < n # d).
  { rewrite (Qmake_Qdiv n d). apply Qlt_shift_div_l; [exact Hd|].
    apply Qlt_le_trans with (pow2 (ln - ld - 1) * pow2 (Z.succ ld)).
    - apply Qmult_lt_l; [apply pow2_pos | exact D2].
    - rewrite <- pow2_add. replace (ln - ld - 1 + Z.succ ld)%Z with ln by lia. exact N1. }
  assert (Hhigh : n # d < pow2 (ln - ld + 1)).
  { rewrite (Qmake_Qdiv n d). apply Qlt_shift_div_r; [exact Hd|].
    apply Qlt_le_trans with (pow2 (ln - ld + 1) * pow2 ld).
    - rewrite <- pow2_add. replace (ln - ld + 1 + ld)%Z with (Z.succ ln) by lia. exact N2.
    - apply Qmult_le_l; [apply pow2_pos | exact D1]. }
  destruct (Qle_bool (pow2 (ln - ld)) (Qabs (n # d))) eqn:E.
  - apply Qle_bool_iff in E. rewrite Habs in E.
    replace (ln - ld + 1 - 1)%Z with (ln - ld)%Z by ring. split; assumption.
  - split; [apply Qlt_le_weak; exact Hlow|].
    apply Qnot_le_lt. intros H.
    assert (H' : pow2 (ln - ld) <= Qabs (n # d)) by (rewrite Habs; exact H).
    apply Qle_bool_iff in H'. congruence.
Qed.

Lemma mag_unique x k : 0 < x -> pow2 (k - 1) <= x -> x < pow2 k -> mag x = k.
Proof.
  intros Hx H1 H2. destruct (mag_spec x Hx) as [M1 M2].
  assert (A : pow2 (mag x - 1) < pow2 k) by (eapply Qle_lt_trans; eassumption).
  assert (B : pow2 (k - 1) < pow2 (mag x)) by (eapply Qle_lt_trans; eassumption).
  apply pow2_lt_inv in A, B. lia.
Qed.

Lemma mag_mono x y : 0 < x -> x <= y -> (mag x <= mag y)%Z.
Proof.
  intros Hx Hle.
  assert (Hy : 0 < y) by (eapply Qlt_le_trans; eassumption).
  destruct (mag_spec x Hx) as [X1 X2]. destruct (mag_spec y Hy) as [Y1 Y2].
  assert (A : pow2 (mag x - 1) < pow2 (mag y)).
  { eapply Qle_lt_trans; [exact X1|]. eapply Qle_lt_trans; eassumption. }
  apply pow2_lt_inv in A. lia.
Qed.

Lemma mag_comp x y : 0 < x -> x == y -> mag x = mag y.
Proof.
  intros Hx Heq. assert (Hy : 0 < y) by (rewrite <- Heq; exact Hx).
  destruct (mag_spec y Hy) as [Y1 Y2].
  apply mag_unique; [exact Hx | rewrite Heq; exact Y1 | rewrite Heq; exact Y2].
Qed.

(** *** Rounding to binary64 *)

Lemma round_unfold x :
  round x = inject_Z (round_half_even (x / pow2 (ulp_exponent x))) * pow2 (ulp_exponent x).
Proof. reflexivity. Qed.

Lemma round_comp x y : 0 < x -> x == y -> round x == round y.
Proof.
  intros Hx Heq. rewrite !round_unfold. unfold ulp_exponent.
  rewrite (mag_comp x y Hx Heq).
  rewrite (round_half_even_comp (x / pow2 (Z.max (mag y - 53) (-1074)))
             (y / pow2 (Z.max (mag y - 53) (-1074)))) by (rewrite Heq; reflexivity).
  reflexivity.
Qed.

Lemma scaled_nonneg x e : 0 <= x -> 0 <= x / pow2 e.
Proof.
  intros Hx. apply Qle_shift_div_l; [apply pow2_pos|]. rewrite Qmult_0_l. exact Hx.
Qed.

Lemma round_nonneg x : 0 <= x -> 0 <= round x.
Proof.
  intros Hx. rewrite round_unfold. apply Qmult_le_0_compat.
  - change 0 with (inject_Z 0). rewrite <- Zle_Qle.
    rewrite <- (round_half_even_Z 0). apply round_half_even_mono.
    change (inject_Z 0) with 0. apply scaled_nonneg. exact Hx.
  - apply Qlt_le_weak. apply pow2_pos.
Qed.

Lemma scaled_le x y e : x <= y -> x / pow2 e <= y / pow2 e.
Proof.
  intros H. unfold Qdiv. apply Qmult_le_compat_r; [exact H|].
  apply Qlt_le_weak. apply Qinv_lt_0_compat. apply pow2_pos.
Qed.

(** A value below [2^a] does not round above [2^a]; a value of magnitude
    [b] in the normal range does not round below [2^(b-1)]. *)
Lemma round_le_pow2 x : 0 < x -> round x <= pow2 (mag x).
Proof.
  intros Hx. destruct (mag_spec x Hx) as [_ M2]. rewrite round_unfold.
  set (e := ulp_exponent x).
  destruct (Z.le_gt_cases e (mag x)) as [Hle|Hgt].
  - rewrite (pow2_split (mag x) e).
    apply Qmult_le_compat_r; [|apply Qlt_le_weak; apply pow2_pos].
    rewrite (pow2_Z (mag x - e)) by lia. rewrite <- Zle_Qle.
    rewrite <- (round_half_even_Z (2 ^ (mag x - e))). apply round_half_even_mono.
    rewrite <- pow2_Z by lia. apply Qle_shift_div_r; [apply pow2_pos|].
    rewrite <- pow2_split. apply Qlt_le_weak. exact M2.
  - rewrite round_half_even_small.
    + rewrite Qmult_0_l. apply Qlt_le_weak. apply pow2_pos.
    + apply scaled_nonneg. apply Qlt_le_weak. exact Hx.
    + apply Qlt_shift_div_r; [apply pow2_pos|].
      eapply Qlt_le_trans; [exact M2|].
      change (1 # 2) with (pow2 (-1)). rewrite <- pow2_add. apply pow2_le. lia.
Qed.

Lemma round_ge_pow2 x : 0 < x -> (-1021 <= mag x)%Z -> pow2 (mag x - 1) <= round x.
Proof.
  intros Hx Hnormal. destruct (mag_spec x Hx) as [M1 _]. rewrite round_unfold.
  unfold ulp_exponent. rewrite Z.max_l by lia.
  rewrite (pow2_split (mag x - 1) (mag x - 53)).
  apply Qmult_le_compat_r; [|apply Qlt_le_weak; apply pow2_pos].
  replace (mag x - 1 - (mag x - 53))%Z with 52%Z by ring.
  rewrite (pow2_Z 52) by lia. rewrite <- Zle_Qle.
  rewrite <- (round_half_even_Z (2 ^ 52)) at 1. apply round_half_even_mono.
  rewrite <- pow2_Z by lia. apply Qle_shift_div_l; [apply pow2_pos|].
  rewrite <- pow2_add. replace (52 + (mag x - 53))%Z with (mag x - 1)%Z by ring. exact M1.
Qed.

Lemma round_mono x y : 0 < x -> x <= y -> round x <= round y.
Proof.
  intros Hx Hle.
  assert (Hy : 0 < y) by (eapply Qlt_le_trans; eassumption).
  pose proof (mag_mono x y Hx Hle) as Hmag.
  destruct (Z.eq_dec (ulp_exponent x) (ulp_exponent y)) as [Heq|Hne].
  - rewrite !round_unfold, Heq.
    apply Qmult_le_compat_r; [|apply Qlt_le_weak; apply pow2_pos].
    rewrite <- Zle_Qle. apply round_half_even_mono. apply scaled_le. exact Hle.
  - unfold ulp_exponent in Hne.
    assert (Hlt : (mag x < mag y)%Z) by lia.
    assert (Hnormal : (-1021 <= mag y)%Z) by lia.
    eapply Qle_trans; [apply round_le_pow2; exact Hx|].
    eapply Qle_trans; [|apply round_ge_pow2; assumption].
    apply pow2_le. lia.
Qed.

(** A number with a significand below [2^53] and an exponent in range is
    a binary64 number: rounding leaves it as it is. *)
Lemma round_exact m c :
  (0 < m < 2 ^ 53)%Z -> (-1074 <= c)%Z ->
  round (inject_Z m * pow2 c) == inject_Z m * pow2 c.
Proof.
  intros Hm Hc. set (x := inject_Z m * pow2 c).
  assert (Hx : 0 < x).
  { subst x. apply Qmult_lt_0_compat; [|apply pow2_pos].
    change 0 with (inject_Z 0). rewrite <- Zlt_Qlt. lia. }
  destruct (mag_spec x Hx) as [M1 _].
  assert (Hup : x < pow2 (53 + c)).
  { subst x. rewrite pow2_add. apply Qmult_lt_compat_r; [apply pow2_pos|].
    rewrite (pow2_Z 53) by lia. rewrite <- Zlt_Qlt. lia. }
  assert (Hmag : (mag x <= 53 + c)%Z).
  { assert (A : pow2 (mag x - 1) < pow2 (53 + c)) by (eapply Qle_lt_trans; eassumption).
    apply pow2_lt_inv in A. lia. }
  rewrite round_unfold. set (e := ulp_exponent x).
  assert (He : (e <= c)%Z) by (subst e; unfold ulp_exponent; lia).
  assert (Hq : x / pow2 e == inject_Z (m * 2 ^ (c - e))).
  { subst x. rewrite inject_Z_mult, <- pow2_Z by lia.
    rewrite (pow2_split c e). field.
    intros H. pose proof (pow2_pos e) as P. rewrite H in P. discriminate P. }
  rewrite (round_half_even_comp _ _ Hq), round_half_even_Z.
  rewrite inject_Z_mult, <- pow2_Z by lia. subst x.
  rewrite (pow2_split c e). ring.
Qed.

Lemma round_zero : round 0 == 0.
Proof. reflexivity. Qed.

Lemma round_int n : (0 <= n <= 2 ^ 53)%Z -> round (inject_Z n) == inject_Z n.
Proof.
  intros Hn.
  destruct (Z.eq_dec n 0) as [->|Hpos]; [reflexivity|].
  destruct (Z.eq_dec n (2 ^ 53)) as [->|Hlt].
  - assert (H : inject_Z (2 ^ 53) == inject_Z (2 ^ 52) * pow2 1) by reflexivity.
    assert (Hx : 0 < inject_Z (2 ^ 53)) by reflexivity.
    rewrite (round_comp _ _ Hx H).
    eapply Qeq_trans; [apply round_exact; [split; reflexivity | discriminate]|].
    symmetry. exact H.
  - assert (H : inject_Z n == inject_Z n * pow2 0).
    { change (pow2 0) with 1. ring. }
    assert (Hx : 0 < inject_Z n).
    { change 0 with (inject_Z 0). rewrite <- Zlt_Qlt. lia. }
    rewrite (round_comp _ _ Hx H).
    eapply Qeq_trans; [apply round_exact; lia | symmetry; exact H].
Qed.

Lemma round_error x :
  0 < x -> (-1021 <= mag x)%Z ->
  x * (1 - unit_roundoff) <= round x <= x * (1 + unit_roundoff).
Proof.
  intros Hx Hnormal. destruct (mag_spec x Hx) as [M1 _].
  rewrite round_unfold. unfold ulp_exponent. rewrite Z.max_l by lia.
  set (e := (mag x - 53)%Z). set (E := pow2 e).
  assert (HE : 0 < E) by apply pow2_pos.
  set (q := x / E).
  assert (Hq : x == q * E).
  { subst q. field. intros H. rewrite H in HE. discriminate HE. }
  assert (Hulp : E <= x * (1 # 4503599627370496)).
  { assert (H : E == pow2 (mag x - 1) * pow2 (-52)).
    { subst E e. rewrite <- pow2_add. replace (mag x - 1 + -52)%Z with (mag x - 53)%Z by ring.
      reflexivity. }
    rewrite H. change (pow2 (-52)) with (1 # 4503599627370496).
    apply Qmult_le_compat_r; [exact M1 | discriminate]. }
  destruct (round_half_even_error q) as [R1 R2].
  set (r := inject_Z (round_half_even q)) in *.
  assert (A1 : (q - (1 # 2)) * E <= r * E)
    by (apply Qmult_le_compat_r; [lra | apply Qlt_le_weak; exact HE]).
  assert (A2 : r * E <= (q + (1 # 2)) * E)
    by (apply Qmult_le_compat_r; [lra | apply Qlt_le_weak; exact HE]).
  unfold unit_roundoff. split; lra.
Qed.

Lemma round_eq_zero x : x == 0 -> round x == 0.
Proof.
  intros Hx. rewrite round_unfold.
  rewrite (round_half_even_comp _ 0).
  - change (round_half_even 0) with 0%Z. ring.
  - set (e := ulp_exponent x). unfold Qdiv.
    transitivity (0 * / pow2 e); [apply Qmult_comp; [exact Hx | reflexivity] | ring].
Qed.

Lemma round_mono_nonneg x y : 0 <= x -> x <= y -> round x <= round y.
Proof.
  intros Hx Hle. destruct (Qle_lt_or_eq _ _ Hx) as [Hpos|Hzero].
  - apply round_mono; assumption.
  - rewrite (round_eq_zero x) by (symmetry; exact Hzero).
    apply round_nonneg. eapply Qle_trans; eassumption.
Qed.

Lemma round_comp_nonneg x y : 0 <= x -> x == y -> round x == round y.
Proof.
  intros Hx Heq. destruct (Qle_lt_or_eq _ _ Hx) as [Hpos|Hzero].
  - apply round_comp; assumption.
  - rewrite (round_eq_zero x) by (symmetry; exact Hzero).
    rewrite (round_eq_zero y) by (rewrite <- Heq; symmetry; exact Hzero).
    reflexivity.
Qed.

Local Open Scope Z_scope.

Lemma finite_inv x y : finite x = Some y -> y = x.
Proof. unfold finite. destruct (Qle_bool _ _); congruence. Qed.

Lemma finite_below x : (0 <= x)%Q -> (x < pow2 1024)%Q -> finite x = Some x.
Proof.
  intros H0 H1. unfold finite.
  destruct (Qle_bool (pow2 1024) (Qabs x)) eqn:E; [|reflexivity].
  apply Qle_bool_iff in E. rewrite (Qabs_pos x H0) in E.
  exfalso. exact (Qlt_not_le _ _ H1 E).
Qed.

(** What the length is when the computation goes through. *)
Lemma target_length_inv n s t L :
  target_length n s t = Some L ->
  s <> 0
  /\ L = Numpy.py_int (round (round (inject_Z n) * round (inject_Z t / inject_Z s))).
Proof.
  unfold target_length, truediv, of_int, mul.
  destruct (Z.eqb_spec s 0) as [|Hs]; [discriminate|].
  destruct (finite (round (inject_Z t / inject_Z s))) as [ratio|] eqn:Hr; [|discriminate].
  destruct (finite (round (inject_Z n))) as [flen|] eqn:Hn; [|discriminate].
  destruct (finite (round (flen * ratio))) as [p|] eqn:Hp; [|discriminate].
  apply finite_inv in Hr, Hn, Hp. subst. cbn. intros H. injection H as <-.
  split; [exact Hs | reflexivity].
Qed.

Lemma target_length_run n s t :
  s <> 0 ->
  let ratio := round (inject_Z t / inject_Z s) in
  let flen := round (inject_Z n) in
  let product := round (flen * ratio) in
  (0 <= ratio < pow2 1024)%Q -> (0 <= flen < pow2 1024)%Q ->
  (0 <= product < pow2 1024)%Q ->
  target_length n s t = Some (Qfloor product).
Proof.
  intros Hs ratio flen product [R0 R1] [F0 F1] [P0 P1].
  unfold target_length, truediv, of_int, mul.
  destruct (Z.eqb_spec s 0) as [|_]; [contradiction|].
  fold ratio. rewrite (finite_below ratio R0 R1).
  fold flen. rewrite (finite_below flen F0 F1).
  fold product. rewrite (finite_below product P0 P1).
  cbn. rewrite py_int_floor by exact P0. reflexivity.
Qed.

Lemma ratio_pos s t : 0 < s -> 0 < t -> (0 < inject_Z t / inject_Z s)%Q.
Proof.
  intros Hs Ht. apply Qlt_shift_div_l.
  - change 0%Q with (inject_Z 0). rewrite <- Zlt_Qlt. exact Hs.
  - rewrite Qmult_0_l. change 0%Q with (inject_Z 0). rewrite <- Zlt_Qlt. exact Ht.
Qed.

Lemma ratio_le_1 s t : 0 < s -> t <= s -> (inject_Z t / inject_Z s <= 1)%Q.
Proof.
  intros Hs Hle. apply Qle_shift_div_r.
  - change 0%Q with (inject_Z 0). rewrite <- Zlt_Qlt. exact Hs.
  - rewrite Qmult_1_l. rewrite <- Zle_Qle. exact Hle.
Qed.

Lemma ratio_ge_1 s t : 0 < s -> s <= t -> (1 <= inject_Z t / inject_Z s)%Q.
Proof.
  intros Hs Hle. apply Qle_shift_div_l.
  - change 0%Q with (inject_Z 0). rewrite <- Zlt_Qlt. exact Hs.
  - rewrite Qmult_1_l. rewrite <- Zle_Qle. exact Hle.
Qed.

Lemma Qmult_le_compat_l a x y : (0 <= a -> x <= y -> a * x <= a * y)%Q.
Proof.
  intros Ha Hxy. rewrite (Qmult_comm a x), (Qmult_comm a y).
  apply Qmult_le_compat_r; assumption.
Qed.

Lemma round_one : (round 1 == 1)%Q.
Proof. exact (round_int 1 ltac:(split; [lia | discriminate])). Qed.

(** A lower target rate never lengthens, a higher one never shortens. *)
Lemma target_length_follows_rates n s t L :
  0 <= n <= 2 ^ 53 -> 0 < s -> 0 < t ->
  target_length n s t = Some L ->
  (t <= s -> L <= n) /\ (s <= t -> n <= L).
Proof.
  intros Hn Hs Ht HL. apply target_length_inv in HL. destruct HL as [_ ->].
  set (ratio := round (inject_Z t / inject_Z s)).
  set (flen := round (inject_Z n)).
  pose proof (ratio_pos s t Hs Ht) as Hx.
  assert (Hflen : (flen == inject_Z n)%Q) by (apply round_int; exact Hn).
  assert (Hn0 : (0 <= inject_Z n)%Q).
  { change 0%Q with (inject_Z 0). rewrite <- Zle_Qle. lia. }
  assert (Hratio : (0 <= ratio)%Q) by (apply round_nonneg; apply Qlt_le_weak; exact Hx).
  assert (Hprod : (0 <= flen * ratio)%Q).
  { apply Qmult_le_0_compat; [rewrite Hflen; exact Hn0 | exact Hratio]. }
  rewrite py_int_floor by (apply round_nonneg; exact Hprod).
  split; intros Hle.
  - assert (Hr : (ratio <= 1)%Q).
    { rewrite <- round_one. apply round_mono; [exact Hx | apply ratio_le_1; assumption]. }
    assert (Hy : (flen * ratio <= inject_Z n)%Q).
    { rewrite Hflen. rewrite <- (Qmult_1_r (inject_Z n)) at 2.
      apply Qmult_le_compat_l; assumption. }
    rewrite <- (Qfloor_Z n). apply Qfloor_resp_le.
    rewrite <- (round_int n Hn). apply round_mono_nonneg; assumption.
  - assert (Hr : (1 <= ratio)%Q).
    { rewrite <- round_one. apply round_mono; [reflexivity | apply ratio_ge_1; assumption]. }
    assert (Hy : (inject_Z n <= flen * ratio)%Q).
    { rewrite Hflen. rewrite <- (Qmult_1_r (inject_Z n)) at 1.
      apply Qmult_le_compat_l; assumption. }
    rewrite <- (Qfloor_Z n) at 1. apply Qfloor_resp_le.
    rewrite <- (round_int n Hn) at 1. apply round_mono_nonneg; assumption.
Qed.

Lemma inject_Z_nonneg n : 0 <= n -> (0 <= inject_Z n)%Q.
Proof. intros H. change 0%Q with (inject_Z 0). rewrite <- Zle_Qle. exact H. Qed.

Lemma inject_Z_pos n : 0 < n -> (0 < inject_Z n)%Q.
Proof. intros H. change 0%Q with (inject_Z 0). rewrite <- Zlt_Qlt. exact H. Qed.

Lemma below_2_53_finite x : (x <= inject_Z (2 ^ 53))%Q -> (x < pow2 1024)%Q.
Proof. intros H. eapply Qle_lt_trans; [exact H | reflexivity]. Qed.

(** Doubling the rate doubles the length. *)
Lemma target_length_double n s :
  0 <= n <= 2 ^ 52 -> 0 < s -> target_length n s (2 * s) = Some (2 * n).
Proof.
  intros Hn Hs.
  pose proof (inject_Z_pos s Hs) as HS.
  assert (Hx : (inject_Z (2 * s) / inject_Z s == inject_Z 2)%Q).
  { rewrite inject_Z_mult. field. intros H. rewrite H in HS. discriminate HS. }
  assert (Hratio : (round (inject_Z (2 * s) / inject_Z s) == inject_Z 2)%Q).
  { rewrite (round_comp _ _ (ratio_pos s (2 * s) Hs ltac:(lia)) Hx).
    apply round_int. split; [lia | discriminate]. }
  assert (Hflen : (round (inject_Z n) == inject_Z n)%Q).
  { apply round_int. split; [lia|].
    apply Z.le_trans with (2 ^ 52); [lia | discriminate]. }
  assert (Hy : (round (inject_Z n) * round (inject_Z (2 * s) / inject_Z s)
                == inject_Z (2 * n))%Q).
  { rewrite Hratio, Hflen, inject_Z_mult. ring. }
  assert (H2n : 0 <= 2 * n <= 2 ^ 53).
  { split; [lia|]. change (2 ^ 53) with (2 * 2 ^ 52). lia. }
  assert (Hp : (round (round (inject_Z n) * round (inject_Z (2 * s) / inject_Z s))
                == inject_Z (2 * n))%Q).
  { rewrite (round_comp_nonneg _ (inject_Z (2 * n))).
    - apply round_int. exact H2n.
    - rewrite Hy. apply inject_Z_nonneg. lia.
    - exact Hy. }
  rewrite target_length_run.
  - rewrite (Qfloor_comp _ _ Hp), Qfloor_Z. reflexivity.
  - lia.
  - rewrite Hratio. split; [discriminate | reflexivity].
  - rewrite Hflen. split; [apply inject_Z_nonneg; lia|].
    apply below_2_53_finite. rewrite <- Zle_Qle.
    apply Z.le_trans with (2 ^ 52); [lia | discriminate].
  - rewrite Hp. split; [apply inject_Z_nonneg; lia|].
    apply below_2_53_finite. rewrite <- Zle_Qle. lia.
Qed.

Lemma mag_lower x e : (0 < x)%Q -> (pow2 e <= x)%Q -> e < mag x.
Proof.
  intros Hx He. destruct (mag_spec x Hx) as [_ M2].
  apply pow2_lt_inv. eapply Qle_lt_trans; eassumption.
Qed.

(** The length against the exact quotient: for a product
    [len * target_sample_rate] below [2^51] it is the floor of the exact
    quotient, except that it may be one less when the quotient is an
    integer. *)
Lemma target_length_floor n s t :
  0 < n -> 0 < t -> 0 < s < 2 ^ 51 -> n * t < 2 ^ 51 ->
  exists L,
    target_length n s t = Some L
    /\ 0 <= L
    /\ n * t / s - 1 <= L <= n * t / s
    /\ ((n * t) mod s <> 0 -> L = n * t / s).
Proof.
  intros Hn Ht Hs Hnt.
  pose proof (inject_Z_pos s (proj1 Hs)) as HS.
  pose proof (inject_Z_pos t Ht) as HT.
  pose proof (inject_Z_pos n Hn) as HN.
  set (S := inject_Z s) in *. set (T := inject_Z t) in *. set (N := inject_Z n) in *.
  set (x := (T / S)%Q).
  assert (Hx : (0 < x)%Q) by (apply ratio_pos; lia).
  assert (HxS : (x * S == T)%Q).
  { subst x. field. intros H. rewrite H in HS. discriminate HS. }
  assert (Hn_small : n < 2 ^ 51) by nia.
  assert (Ht_small : t < 2 ^ 51) by nia.
  (* the quotient of the rates *)
  assert (Hxlow : (pow2 (-51) <= x)%Q).
  { subst x. apply Qle_shift_div_l; [exact HS|].
    apply Qle_trans with (pow2 (-51) * inject_Z (2 ^ 51))%Q.
    - apply Qmult_le_compat_l; [discriminate|]. subst S. rewrite <- Zle_Qle. lia.
    - apply Qle_trans with 1%Q; [discriminate|].
      subst T. change 1%Q with (inject_Z 1). rewrite <- Zle_Qle. lia. }
  pose proof (mag_lower x (-51) Hx Hxlow) as Hxmag.
  destruct (round_error x Hx ltac:(lia)) as [R1 R2].
  set (ratio := round x) in *.
  assert (Hratio : (0 < ratio)%Q).
  { eapply Qlt_le_trans; [|exact R1].
    apply Qmult_lt_0_compat; [exact Hx | reflexivity]. }
  (* the length as a float *)
  assert (Hflen : (round N == N)%Q).
  { apply round_int. split; [lia|]. apply Z.le_trans with (2 ^ 51); [lia | discriminate]. }
  set (flen := round N) in *.
  (* the product *)
  set (y := (flen * ratio)%Q).
  assert (Hy : (y == N * ratio)%Q) by (subst y; rewrite Hflen; reflexivity).
  assert (Hypos : (0 < y)%Q).
  { rewrite Hy. apply Qmult_lt_0_compat; assumption. }
  assert (Hylow : (pow2 (-52) <= y)%Q).
  { rewrite Hy. apply Qle_trans with (1 * ratio)%Q.
    - rewrite Qmult_1_l. eapply Qle_trans; [|exact R1].
      apply Qle_trans with (pow2 (-51) * (1 - unit_roundoff))%Q; [discriminate|].
      apply Qmult_le_compat_r; [exact Hxlow | discriminate].
    - apply Qmult_le_compat_r; [|apply Qlt_le_weak; exact Hratio].
      subst N. change 1%Q with (inject_Z 1). rewrite <- Zle_Qle. lia. }
  pose proof (mag_lower y (-52) Hypos Hylow) as Hymag.
  destruct (round_error y Hypos ltac:(lia)) as [P1 P2].
  set (p := round y) in *.
  (* everything multiplied by the source rate *)
  set (NT := inject_Z (n * t)).
  assert (HNT : (NT == N * T)%Q) by (subst NT N T; rewrite inject_Z_mult; reflexivity).
  assert (HNTpos : (0 <= NT)%Q) by (subst NT; apply inject_Z_nonneg; nia).
  assert (HNTsmall : (NT < inject_Z (2 ^ 51))%Q) by (subst NT; rewrite <- Zlt_Qlt; exact Hnt).
  assert (A1 : (ratio * S <= T * (1 + unit_roundoff))%Q).
  { apply Qle_trans with (x * (1 + unit_roundoff) * S)%Q.
    - apply Qmult_le_compat_r; [exact R2 | apply Qlt_le_weak; exact HS].
    - rewrite <- HxS. apply Qle_lteq. right. ring. }
  assert (A2 : (T * (1 - unit_roundoff) <= ratio * S)%Q).
  { apply Qle_trans with (x * (1 - unit_roundoff) * S)%Q.
    - rewrite <- HxS. apply Qle_lteq. right. ring.
    - apply Qmult_le_compat_r; [exact R1 | apply Qlt_le_weak; exact HS]. }
  assert (B1 : (y * S <= NT * (1 + unit_roundoff))%Q).
  { rewrite Hy, HNT. rewrite <- !Qmult_assoc.
    apply Qmult_le_compat_l; [apply Qlt_le_weak; exact HN | exact A1]. }
  assert (B2 : (NT * (1 - unit_roundoff) <= y * S)%Q).
  { rewrite Hy, HNT. rewrite <- !Qmult_assoc.
    apply Qmult_le_compat_l; [apply Qlt_le_weak; exact HN | exact A2]. }
  assert (C1 : (p * S <= y * S * (1 + unit_roundoff))%Q).
  { apply Qle_trans with (y * (1 + unit_roundoff) * S)%Q.
    - apply Qmult_le_compat_r; [exact P2 | apply Qlt_le_weak; exact HS].
    - apply Qle_lteq. right. ring. }
  assert (C2 : (y * S * (1 - unit_roundoff) <= p * S)%Q).
  { apply Qle_trans with (y * (1 - unit_roundoff) * S)%Q.
    - apply Qle_lteq. right. ring.
    - apply Qmult_le_compat_r; [exact P1 | apply Qlt_le_weak; exact HS]. }
  assert (D1 : (p * S < NT + 1)%Q).
  { unfold unit_roundoff in *. change (inject_Z (2 ^ 51)) with (2251799813685248 # 1)%Q in HNTsmall.
    set (yS := (y * S)%Q) in *. set (pS := (p * S)%Q) in *. lra. }
  assert (D2 : (NT - 1 < p * S)%Q).
  { unfold unit_roundoff in *. change (inject_Z (2 ^ 51)) with (2251799813685248 # 1)%Q in HNTsmall.
    set (yS := (y * S)%Q) in *. set (pS := (p * S)%Q) in *. lra. }
  (* against the integer quotient *)
  set (k := n * t / s). set (f := (n * t) mod s).
  assert (Hdiv : n * t = s * k + f) by (subst k f; apply Z.div_mod; lia).
  assert (Hf : 0 <= f < s) by (subst f; apply Z.mod_pos_bound; lia).
  assert (Hk : 0 <= k) by (subst k; apply Z.div_pos; nia).
  assert (HNTk : (NT == S * inject_Z k + inject_Z f)%Q).
  { subst NT S. rewrite Hdiv, inject_Z_plus, inject_Z_mult. reflexivity. }
  assert (Hfs : (inject_Z f + 1 <= S)%Q).
  { subst S. change 1%Q with (inject_Z 1). rewrite <- inject_Z_plus, <- Zle_Qle. lia. }
  assert (Hf0 : (0 <= inject_Z f)%Q) by (apply inject_Z_nonneg; lia).
  assert (Hp0 : (0 <= p)%Q).
  { subst p. apply round_nonneg. apply Qlt_le_weak. exact Hypos. }
  assert (E1 : (p < inject_Z k + 1)%Q).
  { apply (Qmult_lt_r _ _ S HS).
    apply Qlt_le_trans with (NT + 1)%Q; [exact D1|].
    rewrite HNTk. apply Qle_trans with (S * inject_Z k + S)%Q; [lra|].
    apply Qle_lteq. right. ring. }
  assert (E2 : (inject_Z k - 1 < p)%Q).
  { apply (Qmult_lt_r _ _ S HS).
    apply Qle_lt_trans with (NT - 1)%Q; [|exact D2].
    rewrite HNTk. apply Qle_trans with (S * inject_Z k - S)%Q; [|lra].
    apply Qle_lteq. right. ring. }
  assert (E3 : f <> 0 -> (inject_Z k <= p)%Q).
  { intros Hne. apply Qlt_le_weak. apply (Qmult_lt_r _ _ S HS).
    apply Qle_lt_trans with (NT - 1)%Q; [|exact D2].
    assert (Hf1 : (1 <= inject_Z f)%Q).
    { change 1%Q with (inject_Z 1). rewrite <- Zle_Qle. lia. }
    rewrite HNTk. apply Qle_trans with (S * inject_Z k)%Q; [|lra].
    apply Qle_lteq. right. ring. }
  assert (Hfloor : k - 1 <= Qfloor p <= k).
  { split.
    - assert (H : (inject_Z (k - 1) <= p)%Q).
      { unfold Z.sub. rewrite inject_Z_plus, inject_Z_opp. change (inject_Z 1) with 1%Q. lra. }
      apply Qfloor_resp_le in H. rewrite Qfloor_Z in H. exact H.
    - assert (H : (inject_Z (Qfloor p) < inject_Z (k + 1))%Q).
      { eapply Qle_lt_trans; [apply Qfloor_le|].
        rewrite inject_Z_plus. exact E1. }
      rewrite <- Zlt_Qlt in H. lia. }
  exists (Qfloor p). split; [|split; [|split]].
  2:{ change 0 with (Qfloor 0). apply Qfloor_resp_le. exact Hp0. }
  - apply target_length_run.
    + lia.
    + fold S T x ratio. split; [apply Qlt_le_weak; exact Hratio|].
      apply below_2_53_finite.
      assert (HxT : (x <= T)%Q).
      { subst x. apply Qle_shift_div_r; [exact HS|].
        rewrite <- (Qmult_1_r T) at 1. apply Qmult_le_compat_l; [apply Qlt_le_weak; exact HT|].
        subst S. change 1%Q with (inject_Z 1). rewrite <- Zle_Qle. lia. }
      assert (HTsmall : (T < inject_Z (2 ^ 51))%Q) by (subst T; rewrite <- Zlt_Qlt; exact Ht_small).
      change (inject_Z (2 ^ 51)) with (2251799813685248 # 1)%Q in HTsmall.
      change (inject_Z (2 ^ 53)) with (9007199254740992 # 1)%Q.
      unfold unit_roundoff in *. lra.
    + fold N flen. rewrite Hflen. split; [apply Qlt_le_weak; exact HN|].
      apply below_2_53_finite. subst N. rewrite <- Zle_Qle.
      apply Z.le_trans with (2 ^ 51); [lia | discriminate].
    + fold N flen S T x ratio y p. split; [exact Hp0|].
      apply below_2_53_finite. apply Qlt_le_weak.
      eapply Qlt_le_trans; [exact E1|].
      change 1%Q with (inject_Z 1). rewrite <- inject_Z_plus, <- Zle_Qle.
      assert (k <= n * t).
      { subst k. apply Z.div_le_upper_bound; nia. }
      apply Z.le_trans with (2 ^ 51 + 1); [lia | discriminate].
  - exact Hfloor.
  - intros Hne. specialize (E3 Hne).
    apply Qfloor_resp_le in E3. rewrite Qfloor_Z in E3. lia.
Qed.

Local Open Scope Q_scope.

Lemma pow2_nonzero e : ~ pow2 e == 0.
Proof. intros H. pose proof (pow2_pos e) as P. rewrite H in P. discriminate P. Qed.

(** A number one part in [2^54] below a binary64 integer rounds back to
    that integer: it is nearer to it than to its predecessor, or, below a
    power of two, halfway to a predecessor whose significand is odd. *)
Lemma round_below_integer k :
  (0 < k < 2 ^ 53)%Z ->
  round (inject_Z k * (1 - (1 # 18014398509481984))) == inject_Z k.
Proof.
  intros Hk. set (K := inject_Z k). set (x := K * (1 - (1 # 18014398509481984))).
  assert (HK : 0 < K) by (apply inject_Z_pos; lia).
  assert (HKup : K < 9007199254740992 # 1).
  { subst K. change (9007199254740992 # 1) with (inject_Z (2 ^ 53)). rewrite <- Zlt_Qlt. lia. }
  assert (Hx : 0 < x) by (subst x; lra).
  set (j := Z.log2 k).
  destruct (Z.log2_spec k (proj1 Hk)) as [J1 J2]. fold j in J1, J2.
  assert (Hj0 : (0 <= j)%Z) by apply Z.log2_nonneg.
  assert (Hj : (j < 53)%Z) by (subst j; apply Z.log2_lt_pow2; lia).
  rewrite round_unfold.
  destruct (Z.eq_dec k (2 ^ j)) as [Hpow|Hmid].
  - assert (HKj : K == pow2 j) by (subst K; rewrite Hpow, pow2_Z by lia; reflexivity).
    assert (Hmag : mag x = j).
    { apply mag_unique; [exact Hx | |].
      - assert (H : pow2 j == pow2 (j - 1) * 2).
        { rewrite (pow2_split j (j - 1)). replace (j - (j - 1))%Z with 1%Z by ring.
          change (pow2 1) with 2. ring. }
        subst x. rewrite HKj, H. pose proof (pow2_pos (j - 1)). lra.
      - subst x. rewrite <- HKj. lra. }
    unfold ulp_exponent. rewrite Hmag, Z.max_l by lia.
    assert (Hq : x / pow2 (j - 53) == inject_Z (2 ^ 53) - (1 # 2)).
    { subst x. rewrite HKj, (pow2_split j (j - 53)).
      replace (j - (j - 53))%Z with 53%Z by ring.
      change (pow2 53) with (9007199254740992 # 1).
      change (inject_Z (2 ^ 53)) with (9007199254740992 # 1).
      field. apply pow2_nonzero. }
    rewrite (round_half_even_comp _ _ Hq), round_half_even_tie by reflexivity.
    rewrite HKj, (pow2_split j (j - 53)). replace (j - (j - 53))%Z with 53%Z by ring.
    rewrite (pow2_Z 53) by lia. ring.
  - assert (Hmag : mag x = (j + 1)%Z).
    { apply mag_unique; [exact Hx | |].
      - replace (j + 1 - 1)%Z with j by ring. rewrite pow2_Z by lia.
        assert (H : inject_Z (2 ^ j) + 1 <= K).
        { subst K. change 1 with (inject_Z 1). rewrite <- inject_Z_plus, <- Zle_Qle. lia. }
        subst x. lra.
      - rewrite pow2_Z by lia.
        assert (H : K < inject_Z (2 ^ (j + 1))) by (subst K; rewrite <- Zlt_Qlt; exact J2).
        subst x. lra. }
    unfold ulp_exponent. rewrite Hmag, Z.max_l by lia.
    replace (j + 1 - 53)%Z with (j - 52)%Z by ring.
    set (M := (k * 2 ^ (52 - j))%Z).
    assert (HM : inject_Z M == K * pow2 (52 - j)).
    { subst M K. rewrite inject_Z_mult, <- pow2_Z by lia. reflexivity. }
    assert (HMup : inject_Z M < 9007199254740992 # 1).
    { change (9007199254740992 # 1) with (inject_Z (2 ^ 53)). rewrite <- Zlt_Qlt. subst M.
      replace (2 ^ 53)%Z with (2 ^ (j + 1) * 2 ^ (52 - j))%Z.
      - apply Z.mul_lt_mono_pos_r; [apply Z.pow_pos_nonneg; lia | exact J2].
      - rewrite <- Z.pow_add_r by lia. f_equal. ring. }
    assert (HMpos : 0 < inject_Z M).
    { rewrite HM. apply Qmult_lt_0_compat; [exact HK | apply pow2_pos]. }
    assert (Hq : x / pow2 (j - 52) == inject_Z M * (1 - (1 # 18014398509481984))).
    { rewrite HM. subst x.
      assert (H : pow2 (52 - j) == / pow2 (j - 52)).
      { replace (52 - j)%Z with (- (j - 52))%Z by ring. apply Qpower_opp. }
      rewrite H. field. apply pow2_nonzero. }
    rewrite (round_half_even_comp _ _ Hq).
    rewrite (round_half_even_below M) by lra.
    rewrite HM, <- Qmult_assoc, <- pow2_add.
    replace (52 - j + (j - 52))%Z with 0%Z by ring. change (pow2 0) with 1. ring.
Qed.

Local Open Scope Z_scope.

(** From 24 kHz to 16 kHz the length is two thirds of the input length,
    rounded down, as in exact arithmetic. *)
Lemma target_length_two_thirds n :
  0 < n < 2 ^ 37 -> target_length n 24000 16000 = Some (2 * n / 3).
Proof.
  intros Hn.
  assert (Hk : n * 16000 / 24000 = 2 * n / 3).
  { replace (n * 16000) with (2 * n * 8000) by ring.
    change 24000 with (3 * 8000). apply Z.div_mul_cancel_r; lia. }
  assert (Hsmall : n * 16000 < 2 ^ 51).
  { apply Z.lt_le_trans with (2 ^ 37 * 16000); [lia | discriminate]. }
  destruct (target_length_floor n 24000 16000 ltac:(lia) eq_refl
              ltac:(split; reflexivity) Hsmall) as [L [HL [_ [Hbounds Hexact]]]].
  rewrite HL. f_equal. rewrite Hk in *.
  destruct (Z.eq_dec ((n * 16000) mod 24000) 0) as [Hzero|Hne]; [|apply Hexact; exact Hne].
  (* three divides [n]: the product is just below an integer *)
  apply Z.mod_divide in Hzero; [|discriminate]. destruct Hzero as [c Hc].
  assert (Hn3 : n = 3 * (2 * n / 3 / 2) /\ 2 * n / 3 = 2 * (2 * n / 3 / 2)).
  { assert (n = 3 * (c / 2) /\ c = 2 * (c / 2)).
    { assert (2 * n = 3 * c) by lia.
      assert (c mod 2 = 0).
      { assert (Hm : (3 * c) mod 2 = 0) by (rewrite <- H, Z.mul_comm; apply Z_mod_mult).
        rewrite Z.mul_mod in Hm by lia. change (3 mod 2) with 1 in Hm.
        rewrite Z.mul_1_l, Z.mod_mod in Hm by lia. exact Hm. }
      pose proof (Z.div_mod c 2 ltac:(lia)). lia. }
    destruct H as [H1 H2].
    assert (2 * n / 3 = c).
    { replace (2 * n) with (c * 3) by lia. apply Z.div_mul. lia. }
    rewrite H. lia. }
  set (m := 2 * n / 3 / 2) in *. destruct Hn3 as [Hn3 Hk2].
  apply target_length_inv in HL. destruct HL as [_ ->].
  assert (Hratio : (round (inject_Z 16000 / inject_Z 24000)
                    == 6004799503160661 # 9007199254740992)%Q)
    by (vm_compute; reflexivity).
  assert (Hflen : (round (inject_Z n) == inject_Z n)%Q).
  { apply round_int. split; [lia|]. apply Z.le_trans with (2 ^ 37); [lia | discriminate]. }
  assert (Hy : (round (inject_Z n) * round (inject_Z 16000 / inject_Z 24000)
                == inject_Z (2 * n / 3) * (1 - (1 # 18014398509481984)))%Q).
  { rewrite Hratio, Hflen, Hk2. rewrite Hn3 at 1. rewrite !inject_Z_mult.
    change (inject_Z 3) with 3%Q. change (inject_Z 2) with 2%Q. field. }
  assert (Hkpos : 0 < 2 * n / 3 < 2 ^ 53).
  { split; [lia|]. apply Z.le_lt_trans with (2 * n); [|
      apply Z.lt_le_trans with (2 * 2 ^ 37); [lia | discriminate]].
    apply Z.div_le_upper_bound; lia. }
  assert (Hp : (round (round (inject_Z n) * round (inject_Z 16000 / inject_Z 24000))
                == inject_Z (2 * n / 3))%Q).
  { assert (Hy0 : (0 <= round (inject_Z n) * round (inject_Z 16000 / inject_Z 24000))%Q).
    { rewrite Hy. apply Qmult_le_0_compat; [apply inject_Z_nonneg; lia | discriminate]. }
    rewrite (round_comp_nonneg _ _ Hy0 Hy).
    apply round_below_integer. exact Hkpos. }
  rewrite py_int_floor.
  - rewrite (Qfloor_comp _ _ Hp). apply Qfloor_Z.
  - rewrite Hp. apply inject_Z_nonneg. lia.
Qed.

Local Close Scope Q_scope.
Local Open Scope list_scope.

(** *** Sample points and interpolation *)

Lemma linspace_length start stop num l :
  Numpy.linspace start stop num = Some l -> length l = Z.to_nat num.
Proof.
  unfold Numpy.linspace. destruct (num <? 0); [discriminate|].
  destruct (Z.to_nat num) as [|[|div]]; intros H; apply Some_inj in H; subst l;
    try reflexivity.
  rewrite length_app, length_map, length_seq. cbn. lia.
Qed.

Lemma linspace_some start stop num :
  0 <= num -> exists l, Numpy.linspace start stop num = Some l.
Proof.
  intros H. unfold Numpy.linspace.
  destruct (Z.ltb_spec num 0); [lia|].
  destruct (Z.to_nat num) as [|[|div]]; eexists; reflexivity.
Qed.

(** The points of [linspace(0, n, num)]. *)
Lemma linspace_nth (n : nat) num l i :
  Numpy.linspace 0%Q (inject_Z (Z.of_nat n)) num = Some l ->
  (i < length l)%nat ->
  (nth i l 0 == code_position n (length l) i)%Q.
Proof.
  intros Hl Hi. unfold Numpy.linspace in Hl. destruct (num <? 0); [discriminate|].
  unfold code_position.
  destruct (Z.to_nat num) as [|[|div]]; apply Some_inj in Hl; subst l.
  - cbn in Hi. lia.
  - cbn in Hi. assert (i = 0)%nat as -> by lia. cbn. ring.
  - rewrite length_app, length_map, length_seq in *. cbn [length] in *.
    replace (S div + 1)%nat with (S (S div)) in * by lia. cbn [Nat.eqb].
    replace (S (S div) - 1)%nat with (S div) by lia.
    assert (Hdiv : ~ (inject_Z (Z.of_nat (S div)) == 0)%Q).
    { unfold Qeq, inject_Z. cbn. lia. }
    destruct (Nat.eq_dec i (S div)) as [->|Hne].
    + rewrite app_nth2; rewrite length_map, length_seq; [|lia].
      rewrite Nat.sub_diag. cbn [nth]. field. exact Hdiv.
    + rewrite app_nth1 by (rewrite length_map, length_seq; lia).
      rewrite nth_map_seq by lia. cbn [Nat.add]. field. exact Hdiv.
Qed.

Lemma search_arange m : forall k j x,
  (inject_Z (Z.of_nat k) <= x)%Q ->
  Numpy.search x (map (fun i => inject_Z (Z.of_nat i)) (seq k m)) j
  = (j + Nat.min (Z.to_nat (Qfloor x) - k) (m - 1))%nat.
Proof.
  induction m as [|m IH]; intros k j x Hk.
  - cbn. lia.
  - assert (Hfloor : Z.of_nat k <= Qfloor x).
    { rewrite <- (Qfloor_Z (Z.of_nat k)). apply Qfloor_resp_le. exact Hk. }
    destruct m as [|m].
    + cbn. lia.
    + pose proof (IH (S k) (S j) x) as IH'.
      cbn [seq map Numpy.search] in IH' |- *.
      destruct (Qle_bool (inject_Z (Z.of_nat (S k))) x) eqn:E.
      * apply Qle_bool_iff in E. rewrite IH' by exact E.
        assert (Z.of_nat (S k) <= Qfloor x).
        { rewrite <- (Qfloor_Z (Z.of_nat (S k))). apply Qfloor_resp_le. exact E. }
        lia.
      * assert (Hlt : (x < inject_Z (Z.of_nat (S k)))%Q).
        { apply Qnot_le_lt. intros H. apply Qle_bool_iff in H. congruence. }
        assert (Qfloor x < Z.of_nat (S k)).
        { rewrite Zlt_Qlt. eapply Qle_lt_trans; [apply Qfloor_le | exact Hlt]. }
        lia.
Qed.

Lemma arange_length n : length (Numpy.arange n) = n.
Proof. unfold Numpy.arange. rewrite length_map, length_seq. reflexivity. Qed.

Lemma arange_nth n i :
  (i < n)%nat -> nth i (Numpy.arange n) 0%Q = inject_Z (Z.of_nat i).
Proof. intros H. unfold Numpy.arange. rewrite nth_map_seq by exact H. reflexivity. Qed.

(** On the sample points [0, 1, ..., n-1] numpy's interpolation is the
    piecewise-linear interpolant of the samples. *)
Lemma interp1_arange data x :
  data <> [] ->
  (Numpy.interp1 (Numpy.arange (length data)) data x == linear_interpolation data x)%Q.
Proof.
  intros Hdata.
  assert (Hn : (0 < length data)%nat) by (destruct data; [congruence | cbn; lia]).
  unfold Numpy.interp1, linear_interpolation. cbv zeta.
  rewrite arange_length, !arange_nth by lia.
  change (inject_Z (Z.of_nat 0)) with 0%Q.
  destruct (Numpy.Qlt_bool x 0) eqn:E0; [reflexivity|].
  destruct (Numpy.Qlt_bool (inject_Z (Z.of_nat (length data - 1))) x) eqn:E1; [reflexivity|].
  apply Qlt_bool_false in E0. apply Qlt_bool_false in E1.
  unfold Numpy.arange. rewrite search_arange by exact E0.
  assert (Hlo : 0 <= Qfloor x).
  { change 0 with (Qfloor 0%Q). apply Qfloor_resp_le. exact E0. }
  assert (Hhi : Qfloor x <= Z.of_nat (length data - 1)).
  { rewrite <- (Qfloor_Z (Z.of_nat (length data - 1))). apply Qfloor_resp_le. exact E1. }
  replace (0 + Nat.min (Z.to_nat (Qfloor x) - 0) (length data - 1))%nat
    with (Z.to_nat (Qfloor x)) by lia.
  set (j := Z.to_nat (Qfloor x)).
  assert (Hj : Z.of_nat j = Qfloor x) by (subst j; lia).
  fold (Numpy.arange (length data)).
  assert (Hexact : (inject_Z (Z.of_nat j) == x -> x - inject_Z (Qfloor x) == 0)%Q).
  { intros H. rewrite <- Hj, H. ring. }
  destruct (Nat.eqb_spec j (length data - 1)) as [Hlast|Hmid].
  - assert (Ht : (x - inject_Z (Qfloor x) == 0)%Q).
    { apply Hexact. apply Qle_antisym.
      - rewrite Hj. apply Qfloor_le.
      - rewrite Hlast. exact E1. }
    rewrite Ht. ring.
  - rewrite !arange_nth by lia.
    destruct (Qeq_bool (inject_Z (Z.of_nat j)) x) eqn:E2.
    + apply Qeq_bool_iff in E2. rewrite (Hexact E2). ring.
    + replace (Z.of_nat (S j)) with (Qfloor x + 1) by lia. rewrite Hj.
      rewrite inject_Z_plus. change (inject_Z 1) with 1%Q.
      field. intros H. ring_simplify in H. discriminate H.
Qed.

Lemma linear_interpolation_comp data x y :
  (x == y)%Q -> (linear_interpolation data x == linear_interpolation data y)%Q.
Proof.
  intros H. unfold linear_interpolation.
  rewrite (Qlt_bool_comp x y 0 0 H (Qeq_refl 0)).
  rewrite (Qlt_bool_comp _ _ x y (Qeq_refl _) H).
  rewrite (Qfloor_comp _ _ H).
  destruct (Numpy.Qlt_bool y 0); [reflexivity|].
  destruct (Numpy.Qlt_bool _ y); [reflexivity|].
  rewrite H. reflexivity.
Qed.

(** *** What the resampler returns *)

Lemma interp_arange positions data :
  data <> [] ->
  Numpy.interp positions (Numpy.arange (length data)) data
  = Some (map (Numpy.interp1 (Numpy.arange (length data)) data) positions).
Proof.
  intros Hdata. unfold Numpy.interp.
  assert (Hn : (0 < length data)%nat) by (destruct data; [congruence | cbn; lia]).
  destruct (Numpy.arange (length data)) as [|x0 xp] eqn:Har.
  { apply (f_equal (@length Q)) in Har. rewrite arange_length in Har. cbn in Har. lia. }
  rewrite <- Har. rewrite arange_length, Nat.eqb_refl. reflexivity.
Qed.

Lemma resample_nil from_rate to_rate : resample_audio_data [] from_rate to_rate = None.
Proof.
  unfold resample_audio_data. cbn [length Z.of_nat].
  destruct (target_length 0 from_rate to_rate); [|reflexivity].
  destruct (Numpy.linspace _ _ _); reflexivity.
Qed.

Lemma resample_inv data from_rate to_rate out :
  resample_audio_data data from_rate to_rate = Some out ->
  exists positions,
    target_length (Z.of_nat (length data)) from_rate to_rate
    = Some (Z.of_nat (length out))
    /\ Numpy.linspace 0%Q (inject_Z (Z.of_nat (length data))) (Z.of_nat (length out))
       = Some positions
    /\ out = map (Numpy.interp1 (Numpy.arange (length data)) data) positions
    /\ data <> [].
Proof.
  intros Hout.
  assert (Hdata : data <> []).
  { intros ->. rewrite resample_nil in Hout. discriminate. }
  unfold resample_audio_data in Hout.
  destruct (target_length (Z.of_nat (length data)) from_rate to_rate) as [L|] eqn:HL;
    [|discriminate].
  destruct (Numpy.linspace 0%Q (inject_Z (Z.of_nat (length data))) L) as [pos|] eqn:Hpos;
    [|discriminate].
  rewrite interp_arange in Hout by exact Hdata. apply Some_inj in Hout. subst out.
  assert (HL0 : 0 <= L).
  { unfold Numpy.linspace in Hpos. destruct (Z.ltb_spec L 0); [discriminate | assumption]. }
  assert (Hlen : Z.of_nat (length (map (Numpy.interp1 (Numpy.arange (length data)) data) pos))
                 = L).
  { rewrite length_map, (linspace_length _ _ _ _ Hpos). lia. }
  rewrite Hlen. exists pos. repeat split; try assumption.
Qed.

Lemma resample_run data from_rate to_rate L :
  data <> [] ->
  target_length (Z.of_nat (length data)) from_rate to_rate = Some L ->
  0 <= L ->
  exists out,
    resample_audio_data data from_rate to_rate = Some out
    /\ Z.of_nat (length out) = L.
Proof.
  intros Hdata HL HL0. unfold resample_audio_data. rewrite HL.
  destruct (linspace_some 0%Q (inject_Z (Z.of_nat (length data))) L HL0) as [pos Hpos].
  rewrite Hpos, interp_arange by exact Hdata.
  eexists. split; [reflexivity|].
  rewrite length_map, (linspace_length _ _ _ _ Hpos). lia.
Qed.

Lemma resample_sample data from_rate to_rate out i :
  resample_audio_data data from_rate to_rate = Some out ->
  (i < length out)%nat ->
  (nth i out 0
   == linear_interpolation data (code_position (length data) (length out) i))%Q.
Proof.
  intros Hout Hi.
  destruct (resample_inv _ _ _ _ Hout) as [pos [_ [Hpos [Heq Hdata]]]].
  assert (Hlen : length out = length pos).
  { pose proof (linspace_length _ _ _ _ Hpos). lia. }
  rewrite Heq at 1.
  rewrite (nth_indep _ 0%Q (Numpy.interp1 (Numpy.arange (length data)) data 0%Q))
    by (rewrite length_map; lia).
  rewrite map_nth. rewrite interp1_arange by exact Hdata.
  apply linear_interpolation_comp. rewrite Hlen.
  apply (linspace_nth _ _ _ _ Hpos). lia.
Qed.

(** C2, as the code has it.  For a non-empty input and positive rates
    (with [from_rate] and [len(samples) * to_rate] below [2^51], so that
    binary64 neither overflows nor runs out of integers) the resampler
    returns [int(len(samples) * (to_rate / from_rate))] samples, the
    quotient and the product each rounded to binary64 and the result
    truncated, not rounded.  That is [floor(len(samples) * to_rate /
    from_rate)], except that it may be one less when [from_rate] divides
    [len(samples) * to_rate].  Output sample [i] is the linear
    interpolation of the input, held at the last sample beyond position
    [len(samples) - 1], evaluated at the [i]-th of the evenly spaced
    points of [[0, len(samples)]] with both ends included, that is at
    [i * len(samples) / (L - 1)] for an output of [L > 1] samples.
    Resampling [A] samples from rate [R] to rate [2R] yields exactly [2A]
    samples. *)
Theorem resample_audio_data_shape data from_rate to_rate :
  data <> [] -> 0 < from_rate < 2 ^ 51 -> 0 < to_rate ->
  Z.of_nat (length data) * to_rate < 2 ^ 51 ->
  let exact := Z.of_nat (length data) * to_rate / from_rate in
  exists out,
    resample_audio_data data from_rate to_rate = Some out
    /\ target_length (Z.of_nat (length data)) from_rate to_rate
       = Some (Z.of_nat (length out))
    /\ exact - 1 <= Z.of_nat (length out) <= exact
    /\ ((Z.of_nat (length data) * to_rate) mod from_rate <> 0 ->
        Z.of_nat (length out) = exact)
    /\ (forall i, (i < length out)%nat ->
          (nth i out 0
           == linear_interpolation data (code_position (length data) (length out) i))%Q)
    /\ (to_rate = 2 * from_rate -> length out = (2 * length data)%nat).
Proof.
  intros Hdata Hf Ht Hsmall exact.
  assert (Hn : 0 < Z.of_nat (length data)) by (destruct data; [congruence | cbn; lia]).
  destruct (target_length_floor _ _ _ Hn Ht Hf Hsmall) as [L [HL [HL0 [Hbounds Hexact]]]].
  destruct (resample_run data from_rate to_rate L Hdata HL HL0) as [out [Hout Hlen]].
  exists out. rewrite Hlen.
  split; [exact Hout|]. split; [exact HL|]. split; [exact Hbounds|].
  split; [exact Hexact|]. split.
  - intros i Hi. apply (resample_sample data from_rate to_rate); assumption.
  - intros ->.
    rewrite target_length_double in HL by (first [lia | nia]).
    apply Some_inj in HL. lia.
Qed.

(** *** Further properties of the resampler *)

Lemma linear_interpolation_before data x :
  (x <= 0)%Q -> (linear_interpolation data x == nth 0 data 0)%Q.
Proof.
  intros Hx. unfold linear_interpolation.
  destruct (Numpy.Qlt_bool x 0) eqn:E0; [reflexivity|].
  apply Qlt_bool_false in E0.
  assert (Hzero : (x == 0)%Q) by (apply Qle_antisym; assumption).
  destruct (Numpy.Qlt_bool (inject_Z (Z.of_nat (length data - 1))) x) eqn:E1.
  - apply Qlt_bool_iff in E1. rewrite Hzero in E1.
    assert (Z.of_nat (length data - 1) < 0).
    { rewrite Zlt_Qlt. exact E1. }
    lia.
  - rewrite (Qfloor_comp _ _ Hzero). change (Qfloor 0) with 0%Z.
    change (Z.to_nat 0) with 0%nat. rewrite Hzero. change (inject_Z 0) with 0%Q. ring.
Qed.

Lemma linear_interpolation_after data x :
  (inject_Z (Z.of_nat (length data - 1)) < x)%Q -> data <> [] ->
  (linear_interpolation data x == nth (length data - 1) data 0)%Q.
Proof.
  intros Hx Hdata. unfold linear_interpolation.
  destruct (Numpy.Qlt_bool x 0) eqn:E0.
  - apply Qlt_bool_iff in E0.
    assert (inject_Z (Z.of_nat (length data - 1)) < 0)%Q
      by (eapply Qlt_trans; eassumption).
    assert (Z.of_nat (length data - 1) < 0) by (rewrite Zlt_Qlt; assumption).
    lia.
  - apply Qlt_bool_iff in Hx. rewrite Hx. reflexivity.
Qed.

(** X19. The resampler keeps both ends of the signal: the first output
    sample is the first input sample and, when there are two output
    samples or more, the last output sample is the last input sample. *)
Theorem resample_keeps_the_ends data from_rate to_rate out :
  data <> [] -> 0 < from_rate -> 0 < to_rate ->
  resample_audio_data data from_rate to_rate = Some out ->
  ((0 < length out)%nat -> (nth 0 out 0 == nth 0 data 0)%Q)
  /\ ((1 < length out)%nat ->
      (nth (length out - 1) out 0 == nth (length data - 1) data 0)%Q).
Proof.
  intros Hdata Hf Ht Hout.
  assert (Hn : (0 < length data)%nat) by (destruct data; [congruence | cbn; lia]).
  split; intros HL.
  - rewrite (resample_sample data from_rate to_rate out 0 Hout HL).
    apply linear_interpolation_before. unfold code_position.
    destruct (Nat.eqb (length out) 1); [apply Qle_refl|].
    apply Qle_lteq. right. unfold Qdiv. change (inject_Z (Z.of_nat 0)) with 0%Q. ring.
  - rewrite (resample_sample data from_rate to_rate out (length out - 1) Hout)
      by lia.
    assert (Hpos : (code_position (length data) (length out) (length out - 1)
                    == inject_Z (Z.of_nat (length data)))%Q).
    { unfold code_position.
      destruct (Nat.eqb_spec (length out) 1) as [H1|_]; [lia|].
      field. unfold Qeq, inject_Z. cbn. lia. }
    rewrite (linear_interpolation_comp _ _ _ Hpos).
    apply linear_interpolation_after; [|exact Hdata].
    rewrite <- Zlt_Qlt. lia.
Qed.

Lemma convex_between (lo hi a b t : Q) :
  (lo <= a <= hi)%Q -> (lo <= b <= hi)%Q -> (0 <= t <= 1)%Q ->
  (lo <= (1 - t) * a + t * b <= hi)%Q.
Proof.
  intros [Ha1 Ha2] [Hb1 Hb2] [Ht1 Ht2].
  assert (H1t : (0 <= 1 - t)%Q).
  { apply (Qplus_le_r _ _ t). ring_simplify. exact Ht2. }
  split.
  - apply (Qle_trans _ ((1 - t) * lo + t * lo)); [ring_simplify; apply Qle_refl|].
    apply Qplus_le_compat.
    + rewrite (Qmult_comm (1 - t) lo), (Qmult_comm (1 - t) a).
      apply Qmult_le_compat_r; assumption.
    + rewrite (Qmult_comm t lo), (Qmult_comm t b).
      apply Qmult_le_compat_r; assumption.
  - apply (Qle_trans _ ((1 - t) * hi + t * hi)); [|ring_simplify; apply Qle_refl].
    apply Qplus_le_compat.
    + rewrite (Qmult_comm (1 - t) hi), (Qmult_comm (1 - t) a).
      apply Qmult_le_compat_r; assumption.
    + rewrite (Qmult_comm t hi), (Qmult_comm t b).
      apply Qmult_le_compat_r; assumption.
Qed.

Lemma nth_between (lo hi : Q) data i :
  Forall (fun x => lo <= x <= hi)%Q data -> (i < length data)%nat ->
  (lo <= nth i data 0 <= hi)%Q.
Proof.
  intros Hall Hi. rewrite Forall_forall in Hall. apply Hall. apply nth_In. exact Hi.
Qed.

Lemma linear_interpolation_between (lo hi : Q) data x :
  data <> [] ->
  Forall (fun y => lo <= y <= hi)%Q data ->
  (lo <= linear_interpolation data x <= hi)%Q.
Proof.
  intros Hdata Hall.
  assert (Hn : (0 < length data)%nat) by (destruct data; [congruence | cbn; lia]).
  unfold linear_interpolation.
  destruct (Numpy.Qlt_bool x 0) eqn:E0; [apply nth_between; assumption|].
  destruct (Numpy.Qlt_bool (inject_Z (Z.of_nat (length data - 1))) x) eqn:E1;
    [apply nth_between; [assumption | lia]|].
  apply Qlt_bool_false in E0. apply Qlt_bool_false in E1.
  assert (Hlo : 0 <= Qfloor x).
  { change 0 with (Qfloor 0%Q). apply Qfloor_resp_le. exact E0. }
  assert (Hhi : Qfloor x <= Z.of_nat (length data - 1)).
  { rewrite <- (Qfloor_Z (Z.of_nat (length data - 1))). apply Qfloor_resp_le. exact E1. }
  assert (Ht : (0 <= x - inject_Z (Qfloor x) <= 1)%Q).
  { pose proof (Qfloor_le x) as Hfl. pose proof (Qlt_floor x) as Hlt.
    rewrite inject_Z_plus in Hlt. change (inject_Z 1) with 1%Q in Hlt.
    split; lra. }
  destruct (Nat.eq_dec (Z.to_nat (Qfloor x)) (length data - 1)) as [Hlast|Hmid].
  - assert (Hexact : (x - inject_Z (Qfloor x) == 0)%Q).
    { assert (Hx : (x == inject_Z (Qfloor x))%Q).
      { apply Qle_antisym; [|apply Qfloor_le].
        eapply Qle_trans; [exact E1|]. rewrite <- Zle_Qle. lia. }
      rewrite <- Hx. ring. }
    assert (Heq : ((1 - (x - inject_Z (Qfloor x))) * nth (Z.to_nat (Qfloor x)) data 0
                   + (x - inject_Z (Qfloor x)) * nth (S (Z.to_nat (Qfloor x))) data 0
                   == nth (Z.to_nat (Qfloor x)) data 0)%Q)
      by (rewrite Hexact; ring).
    rewrite Heq. apply nth_between; [assumption | lia].
  - apply convex_between; [| | exact Ht]; apply nth_between; try assumption; lia.
Qed.

(** X20. The resampler never overshoots: when every input sample lies
    between two bounds, so does every output sample (audio in [[-1, 1]]
    stays in [[-1, 1]]; a constant signal stays that constant). *)
Theorem resample_stays_in_range (lo hi : Q) data from_rate to_rate out :
  data <> [] -> 0 < from_rate -> 0 < to_rate ->
  Forall (fun x => lo <= x <= hi)%Q data ->
  resample_audio_data data from_rate to_rate = Some out ->
  Forall (fun y => lo <= y <= hi)%Q out.
Proof.
  intros Hdata Hf Ht Hall Hout.
  destruct (resample_inv _ _ _ _ Hout) as [pos [_ [_ [-> _]]]].
  apply Forall_forall. intros y Hy. apply in_map_iff in Hy.
  destruct Hy as [x [<- _]].
  rewrite interp1_arange by exact Hdata.
  apply linear_interpolation_between; assumption.
Qed.

(** X21. How the length follows the rates, for an input of at most
    [2^53] samples (a length binary64 holds exactly): a lower target rate
    never yields more samples than it was given, a higher one never
    fewer, and equal rates keep the number of samples. *)
Theorem resample_length_follows_rates data from_rate to_rate out :
  data <> [] -> 0 < from_rate -> 0 < to_rate ->
  Z.of_nat (length data) <= 2 ^ 53 ->
  resample_audio_data data from_rate to_rate = Some out ->
  (to_rate <= from_rate -> (length out <= length data)%nat)
  /\ (from_rate <= to_rate -> (length data <= length out)%nat)
  /\ (to_rate = from_rate -> length out = length data).
Proof.
  intros Hdata Hf Ht Hsize Hout.
  destruct (resample_inv _ _ _ _ Hout) as [pos [HL _]].
  destruct (target_length_follows_rates _ _ _ _
              (conj (Nat2Z.is_nonneg (length data)) Hsize) Hf Ht HL) as [Hdown Hup].
  repeat split.
  - intros Hle. specialize (Hdown Hle). lia.
  - intros Hle. specialize (Hup Hle). lia.
  - intros ->. specialize (Hdown (Z.le_refl _)). specialize (Hup (Z.le_refl _)). lia.
Qed.

(** X23. What an append does to the size of the active buffer: audio
    arrives at 24 kHz and is stored at 16 kHz, so an append of [n] decoded
    samples that returns adds exactly [floor(2n / 3)] samples, for every
    [n] below [2^37]: there the length computed in binary64 is the exact
    one. *)
Theorem append_grows_by_two_thirds
    (vad : list sample -> VadOptions -> list SpeechTimestamp)
    (item_ids : nat -> string) (decode : string -> list sample) w audio w' :
  Z.of_nat (length (decode audio)) < 2 ^ 37 ->
  handle_input_audio_buffer_append vad item_ids decode audio w = Ok tt w' ->
  exists key b b',
    last_key (input_audio_buffers (ctx w)) = Some key
    /\ getitem key (input_audio_buffers (ctx w)) = Some b
    /\ getitem key (input_audio_buffers (ctx w')) = Some b'
    /\ size b' = size b + 2 * Z.of_nat (length (decode audio)) / 3.
Proof.
  intros Hshort. rewrite append_cases.
  destruct (resample_audio_data (decode audio) 24000 16000) as [chunk|] eqn:Hres;
    [|discriminate].
  destruct (resample_inv _ _ _ _ Hres) as [pos [HL [_ [_ Hdata]]]].
  assert (Hn : 0 < Z.of_nat (length (decode audio)))
    by (destruct (decode audio); [congruence | cbn; lia]).
  rewrite target_length_two_thirds in HL by lia.
  apply Some_inj in HL. rename HL into Hlen. symmetry in Hlen.
  destruct (last_key (input_audio_buffers (ctx w))) as [key|] eqn:Hkey; [|discriminate].
  destruct (getitem key (input_audio_buffers (ctx w))) as [b|] eqn:Hget; [|discriminate].
  assert (Hin : In key (keys (input_audio_buffers (ctx w)))) by (eapply last_key_In; eauto).
  assert (Hsize : forall b2, data b2 = data b ++ chunk ->
            size b2 = size b + 2 * Z.of_nat (length (decode audio)) / 3).
  { intros b2 H2. unfold size. rewrite H2, length_app. lia. }
  destruct (turn_detection (configuration (ctx w))) as [td|].
  - destruct (vad_detection_flow vad item_ids (append b chunk) td
                (stored w key (append b chunk))) as [[ev b2] w2|] eqn:Hflow;
      [|discriminate].
    destruct (vad_detection_flow_world _ _ _ _ _ _ _ _ Hflow) as [Hctx _].
    destruct (vad_detection_flow_discipline _ _ _ _ _ _ _ _ Hflow) as [_ [_ Hd]].
    intros H. apply (f_equal (fun r => match r with Ok _ x => x | Raise _ x => x end)) in H.
    subst w'. exists key, b, b2.
    split; [first [reflexivity | exact Hkey]|].
    split; [first [reflexivity | exact Hget]|]. split.
    + assert (Hbufs : input_audio_buffers (ctx (published_if (stored w2 key b2) ev))
                      = replace key b2
                          (replace key (append b chunk) (input_audio_buffers (ctx w)))).
      { destruct ev; cbn; rewrite Hctx; reflexivity. }
      rewrite Hbufs. apply getitem_replace. rewrite keys_replace. exact Hin.
    + apply Hsize. exact Hd.
  - intros H. apply (f_equal (fun r => match r with Ok _ x => x | Raise _ x => x end)) in H.
    subst w'. exists key, b, (append b chunk).
    split; [first [reflexivity | exact Hkey]|].
    split; [first [reflexivity | exact Hget]|]. split.
    + cbn [stored ctx with_buffers input_audio_buffers]. apply getitem_replace. exact Hin.
    + apply Hsize. reflexivity.
Qed.

(** X27. From 24 kHz to 16 kHz the resampler goes through on every
    non-empty chunk of fewer than [2^37] samples, and for [n] samples it
    returns exactly [floor(2n / 3)]: at these rates the length computed
    in binary64 is the exact one. *)
Theorem resample_two_thirds data :
  data <> [] -> Z.of_nat (length data) < 2 ^ 37 ->
  exists out,
    resample_audio_data data 24000 16000 = Some out
    /\ Z.of_nat (length out) = 2 * Z.of_nat (length data) / 3.
Proof.
  intros Hdata Hshort.
  assert (Hn : 0 < Z.of_nat (length data)) by (destruct data; [congruence | cbn; lia]).
  apply resample_run; [exact Hdata | apply target_length_two_thirds; lia |].
  apply Z.div_pos; lia.
Qed.

(** X24. Only the last span counts: two VAD capabilities whose answers
    for the window of a buffer end with the same span lead an evaluation
    to the same event, the same buffer and the same world, whatever
    spans they report before it. *)
Theorem only_the_last_span_counts
    (vad1 vad2 : list sample -> VadOptions -> list SpeechTimestamp)
    (item_ids : nat -> string) b td w :
  raw_span vad1 b td = raw_span vad2 b td ->
  vad_detection_flow vad1 item_ids b td w = vad_detection_flow vad2 item_ids b td w.
Proof.
  intros Hlast. rewrite !vad_detection_flow_unfold, !found_span_raw, Hlast.
  reflexivity.
Qed.

(** X25. An append whose decoded audio holds no sample is refused: the
    resampler raises [ValueError] before the session is looked at, so
    nothing is appended, evaluated or published, whatever the session. *)
Theorem append_of_no_audio_is_refused
    (vad : list sample -> VadOptions -> list SpeechTimestamp)
    (item_ids : nat -> string) (decode : string -> list sample) w audio :
  decode audio = [] ->
  handle_input_audio_buffer_append vad item_ids decode audio w = Raise ValueError w.
Proof.
  intros Hnone. rewrite append_cases, Hnone, resample_nil. reflexivity.
Qed.

Lemma speech_stopped_value
    (vad : list sample -> VadOptions -> list SpeechTimestamp)
    (item_ids : nat -> string) b td w eid item ms b' w' :
  vad_detection_flow vad item_ids b td w
  = Ok (Some (InputAudioBufferSpeechStoppedEvent eid item ms), b') w' ->
  ms = duration_ms b - prefix_padding_ms td
  /\ audio_end_ms (vad_state b') = Some ms.
Proof.
  rewrite vad_detection_flow_unfold.
  destruct (audio_start_ms (vad_state b)); destruct (found_span vad b td) as [ts|];
    cbv zeta; try destruct ((ts_end ts <? 3000) && (duration_ms b >? 3000));
    intros H; inversion H; subst; split; reflexivity.
Qed.

(** X26. Under the configuration a session is created with, the VAD
    capability is called with threshold 0.9, a minimum silence of 550 ms
    and no padding, and every [speech_stopped] event carries the duration
    of the buffer as its [audio_end_ms]. *)
Theorem default_configuration_evaluation
    (vad : list sample -> VadOptions -> list SpeechTimestamp)
    (item_ids : nat -> string) td b w ev b' w' :
  turn_detection create_session_configuration = Some td ->
  vad_detection_flow vad item_ids b td w = Ok (ev, b') w' ->
  vad_calls w'
  = vad_calls w
    ++ [(audio_window b,
         {| vad_threshold := 9 # 10;
            min_silence_duration_ms := 550;
            speech_pad_ms := 0 |})]
  /\ (forall eid item ms,
        ev = Some (InputAudioBufferSpeechStoppedEvent eid item ms) ->
        ms = duration_ms b /\ audio_end_ms (vad_state b') = Some (duration_ms b)).
Proof.
  intros Htd Hflow. injection Htd as <-.
  destruct (vad_detection_flow_world _ _ _ _ _ _ _ _ Hflow) as [_ Hcalls].
  split; [exact Hcalls|].
  intros eid item ms ->.
  destruct (speech_stopped_value _ _ _ _ _ _ _ _ _ _ Hflow) as [-> Hend].
  cbn [prefix_padding_ms] in *. rewrite Z.sub_0_r in *. split; [reflexivity | exact Hend].
Qed.

(** ** The statements on sample sessions *)

(** The length on the inputs used below, and where no length comes
    back: a rate of zero, a product beyond the range of binary64. *)
Example target_lengths :
  target_length 1 24000 16000 = Some 0
  /\ target_length 6 24000 16000 = Some 4
  /\ target_length 2 1 2 = Some 4
  /\ target_length 5 0 3 = None
  /\ target_length 3 1 (2 ^ 1023) = None.
Proof. split; [|split; [|split; [|split]]]; vm_compute; reflexivity. Qed.

(** Binary64 may fall short of the exact quotient: [13 / 3] and [1 / 49]
    are rounded down, and 27 samples from rate 3 to rate 13 give 116
    samples, 49 samples from rate 49 to rate 1 none at all. *)
Remark target_length_may_fall_short :
  target_length 27 3 13 = Some 116 /\ 27 * 13 / 3 = 117
  /\ target_length 49 49 1 = Some 0 /\ 49 * 1 / 49 = 1.
Proof. split; [|split; [|split]]; vm_compute; reflexivity. Qed.

(** Beyond [2^53] samples the length itself is rounded when it becomes a
    float, and the length of the result no longer follows the rates: at
    equal rates [2^53 + 1] samples would give one sample less and
    [2^53 + 3] one more, and from 24 kHz to 16 kHz [2^53 + 1] samples
    would give one less than two thirds of them. *)
Remark target_length_of_a_rounded_length :
  target_length (2 ^ 53 + 1) 24000 24000 = Some (2 ^ 53)
  /\ target_length (2 ^ 53 + 3) 24000 24000 = Some (2 ^ 53 + 4)
  /\ target_length (2 ^ 53 + 1) 24000 16000 = Some (2 * (2 ^ 53 + 1) / 3 - 1).
Proof. split; [|split]; vm_compute; reflexivity. Qed.

(** The rounding of [Float64] against the IEEE 754 arithmetic of the
    Standard Library: the two computations of the length agree for every
    length below 24 with every pair of rates from 0 to 12, at the usual
    audio rates, and on lengths and rates at the limits of binary64. *)
Example target_length_agrees_with_SpecFloat :
  forallb (fun len =>
    forallb (fun sample_rate =>
      forallb (same_target_length len sample_rate) (upto 13)) (upto 13)) (upto 24)
  = true
  /\ forallb (fun len =>
       forallb (fun sample_rate =>
         forallb (same_target_length len sample_rate)
           [8000; 16000; 22050; 24000; 44100; 48000])
         [8000; 16000; 22050; 24000; 44100; 48000])
       [1; 2; 3; 160; 480; 1000; 4096; 24000; 2 ^ 37 - 1; 2 ^ 52 + 1;
        3 * 2 ^ 51 + 3; 2 ^ 53 + 1; 2 ^ 53 + 3; 2 ^ 62 + 1]
     = true
  /\ forallb (fun '(len, sample_rate, target_sample_rate) =>
       same_target_length len sample_rate target_sample_rate)
       [(27, 3, 13); (49, 49, 1); (5, -3, 7); (-5, 3, 7); (7, 2 ^ 60, 3);
        (2 ^ 60, 3 * 2 ^ 1070, 1); (1, 2 ^ 1080, 3); (2 ^ 1023, 1, 1);
        (2 ^ 1024, 1, 1); (3, 1, 2 ^ 1023)]
     = true.
Proof. split; [|split]; vm_compute; reflexivity. Qed.

(** [np.interp] refuses an empty array of sample points: nothing can be
    resampled from nothing. *)
Remark resample_of_nothing from_rate to_rate :
  0 < from_rate -> resample_audio_data [] from_rate to_rate = None.
Proof.
  intros Hf. unfold resample_audio_data. cbn [length Z.of_nat].
  destruct (target_length 0 from_rate to_rate); [|reflexivity].
  destruct (Numpy.linspace _ _ _); reflexivity.
Qed.

(** C1 fails as stated: a closed buffer, evaluated while the VAD capability
    hears nothing, gets a new [audio_end_ms] and a second
    [speech_stopped]. *)
Lemma closed_buffer_is_reevaluated :
  audio_end_ms (vad_state Sample.closed) = Some 5
  /\ exists b' w',
       vad_detection_flow Sample.silent_vad Sample.item_ids Sample.closed
         Sample.default_turn_detection Sample.fresh_session
       = Ok (Some (InputAudioBufferSpeechStoppedEvent "item_0" "item_z" 10), b') w'
       /\ audio_end_ms (vad_state b') = Some 10
       /\ vad_state b' <> vad_state Sample.closed.
Proof.
  split; [reflexivity|].
  eexists _, _. split; [vm_compute; reflexivity|].
  split; [reflexivity | discriminate].
Qed.

Lemma closed_buffer_evaluation_witness :
  audio_start_ms (vad_state Sample.closed) = Some 2
  /\ audio_end_ms (vad_state Sample.closed) = Some 5
  /\ vad_detection_flow Sample.second_half_vad Sample.item_ids Sample.closed
       Sample.default_turn_detection Sample.fresh_session
     = Ok (None, Sample.closed)
          (logged Sample.fresh_session Sample.closed Sample.default_turn_detection)
  /\ exists b',
       vad_detection_flow Sample.silent_vad Sample.item_ids Sample.closed
         Sample.default_turn_detection Sample.fresh_session
       = Ok (Some (InputAudioBufferSpeechStoppedEvent
                     (Sample.item_ids 0) (id Sample.closed)
                     (duration_ms Sample.closed
                      - prefix_padding_ms Sample.default_turn_detection)),
             b')
            (drawn (logged Sample.fresh_session Sample.closed
                      Sample.default_turn_detection))
       /\ audio_end_ms (vad_state b')
          = Some (duration_ms Sample.closed
                  - prefix_padding_ms Sample.default_turn_detection)
       /\ audio_start_ms (vad_state b') = Some 2
       /\ id b' = id Sample.closed
       /\ data b' = data Sample.closed.
Proof.
  split; [reflexivity|]. split; [reflexivity|]. split.
  - apply (proj1 (closed_buffer_evaluation Sample.second_half_vad Sample.item_ids
                    Sample.closed Sample.default_turn_detection Sample.fresh_session
                    2 5 eq_refl eq_refl)).
    exists {| ts_start := 5; ts_end := 10 |}. split.
    + vm_compute. reflexivity.
    + right. vm_compute. discriminate.
  - apply (proj2 (closed_buffer_evaluation Sample.silent_vad Sample.item_ids
                    Sample.closed Sample.default_turn_detection Sample.fresh_session
                    2 5 eq_refl eq_refl)).
    intros [pair [Hpair _]]. vm_compute in Hpair. discriminate Hpair.
Defined.

(** C2 fails as stated, on the length and on the positions: one sample at
    24 kHz resamples to no sample at 16 kHz, where rounding gives one; 27
    samples from rate 3 to rate 13 give 116 samples, where rounding gives
    117; and the second of the four samples obtained from [0, 1] by
    doubling the rate is [2/3], not the interpolant at position [1/2]. *)
Lemma resample_is_not_rounded :
  (exists out,
     resample_audio_data [1%Q] 24000 16000 = Some out
     /\ Z.of_nat (length out)
        <> round_half_even (inject_Z 1 * inject_Z 16000 / inject_Z 24000))
  /\ (exists out,
        resample_audio_data (Sample.silence 27) 3 13 = Some out
        /\ Z.of_nat (length out) = 116
        /\ round_half_even (inject_Z 27 * inject_Z 13 / inject_Z 3) = 117)
  /\ (exists out,
        resample_audio_data [0%Q; 1%Q] 1 2 = Some out
        /\ (1 < length out)%nat
        /\ ~ (nth 1 out 0 == linear_interpolation [0%Q; 1%Q] (spec_position 1 2 1))%Q).
Proof.
  split; [|split].
  - exists []. split; [vm_compute; reflexivity|]. vm_compute. discriminate.
  - eexists. split; [vm_compute; reflexivity|]. split; vm_compute; reflexivity.
  - eexists. split; [vm_compute; reflexivity|]. split; [cbn; lia|].
    vm_compute. discriminate.
Qed.

Lemma resample_audio_data_shape_witness :
  Sample.squares <> []
  /\ 0 < 24000 < 2 ^ 51
  /\ 0 < 16000
  /\ Z.of_nat (length Sample.squares) * 16000 < 2 ^ 51
  /\ exists out,
       resample_audio_data Sample.squares 24000 16000 = Some out
       /\ target_length 6 24000 16000 = Some (Z.of_nat (length out))
       /\ 3 <= Z.of_nat (length out) <= 4
       /\ (forall i, (i < length out)%nat ->
             (nth i out 0
              == linear_interpolation Sample.squares (code_position 6 (length out) i))%Q).
Proof.
  assert (H1 : Sample.squares <> []) by discriminate.
  assert (H2 : 0 < 24000 < 2 ^ 51) by (split; reflexivity).
  assert (H3 : 0 < 16000) by reflexivity.
  assert (H4 : Z.of_nat (length Sample.squares) * 16000 < 2 ^ 51) by reflexivity.
  repeat (split; [assumption|]).
  destruct (resample_audio_data_shape Sample.squares 24000 16000 H1 H2 H3 H4)
    as [out [Hout [HL [Hlen [_ [Hval _]]]]]].
  exists out. repeat split; try assumption; apply Hlen.
Defined.

Lemma commit_of_empty_buffer_witness :
  last_key (input_audio_buffers (ctx Sample.fresh_session)) = Some "item_a"
  /\ getitem "item_a" (input_audio_buffers (ctx Sample.fresh_session))
     = Some (empty_buffer "item_a")
  /\ size (empty_buffer "item_a") = 0
  /\ exists w',
       handle_input_audio_buffer_commit Sample.item_ids Sample.event_ids
         Sample.fresh_session = Ok tt w'
       /\ pubsub (ctx w')
          = [ErrorEvent "event_0" empty_input_audio_buffer_commit_error]
       /\ input_audio_buffers (ctx w') = [("item_a", empty_buffer "item_a")].
Proof.
  repeat (split; [reflexivity|]).
  destruct (commit_of_empty_buffer Sample.item_ids Sample.event_ids
              Sample.fresh_session "item_a" (empty_buffer "item_a")
              eq_refl eq_refl eq_refl)
    as [w' [Hrun [Hpub [Hbufs _]]]].
  exists w'. repeat split; assumption.
Defined.

Lemma pre_speech_evaluation_witness :
  audio_start_ms (vad_state Sample.listening) = None
  /\ (exists b',
        vad_detection_flow Sample.second_half_vad Sample.item_ids Sample.listening
          Sample.turn_detection_300 Sample.fresh_session
        = Ok (Some (InputAudioBufferSpeechStartedEvent "item_0" "item_a" 1600), b')
             (drawn (logged Sample.fresh_session Sample.listening
                       Sample.turn_detection_300))
        /\ audio_start_ms (vad_state b') = Some 1600
        /\ audio_end_ms (vad_state b') = None
        /\ data b' = data Sample.listening)
  /\ vad_detection_flow Sample.silent_vad Sample.item_ids Sample.listening
       Sample.turn_detection_300 Sample.fresh_session
     = Ok (None, Sample.listening)
          (logged Sample.fresh_session Sample.listening Sample.turn_detection_300).
Proof.
  split; [reflexivity|].
  assert (Hspan : found_span Sample.second_half_vad Sample.listening
                    Sample.turn_detection_300
                  = Some {| ts_start := 1500; ts_end := 3000 |})
    by (vm_compute; reflexivity).
  assert (Hms : duration_ms Sample.listening - window_duration_ms Sample.listening
                + 1500 = 1600)
    by (vm_compute; reflexivity).
  split.
  - pose proof (proj1 (pre_speech_evaluation Sample.second_half_vad Sample.item_ids
                         Sample.listening Sample.turn_detection_300
                         Sample.fresh_session eq_refl) _ Hspan) as H.
    cbv zeta in H. cbn [ts_start] in H. rewrite Hms in H.
    destruct H as [b' [Hrun [Hstart [Hend [_ Hdata]]]]].
    exists b'. repeat split; assumption.
  - apply (proj1 (proj2 (pre_speech_evaluation Sample.silent_vad Sample.item_ids
                           Sample.listening Sample.turn_detection_300
                           Sample.fresh_session eq_refl))).
    reflexivity.
Defined.

Lemma in_speech_evaluation_witness :
  audio_start_ms (vad_state Sample.speaking) = Some 2001
  /\ audio_end_ms (vad_state Sample.speaking) = None
  /\ (exists b',
        vad_detection_flow Sample.silent_vad Sample.item_ids Sample.speaking
          Sample.turn_detection_300 Sample.fresh_session
        = Ok (Some (InputAudioBufferSpeechStoppedEvent "item_0" "item_a" 2800), b')
             (drawn (logged Sample.fresh_session Sample.speaking
                       Sample.turn_detection_300))
        /\ audio_end_ms (vad_state b') = Some 2800
        /\ audio_start_ms (vad_state b') = Some 2001)
  /\ (exists b',
        vad_detection_flow Sample.first_half_vad Sample.item_ids Sample.speaking
          Sample.turn_detection_300 Sample.fresh_session
        = Ok (Some (InputAudioBufferSpeechStoppedEvent "item_0" "item_a" 2800), b')
             (drawn (logged Sample.fresh_session Sample.speaking
                       Sample.turn_detection_300))
        /\ audio_end_ms (vad_state b') = Some 2800
        /\ audio_start_ms (vad_state b') = Some 2001)
  /\ vad_detection_flow Sample.second_half_vad Sample.item_ids Sample.speaking
       Sample.turn_detection_300 Sample.fresh_session
     = Ok (None, Sample.speaking)
          (logged Sample.fresh_session Sample.speaking Sample.turn_detection_300).
Proof.
  split; [reflexivity|]. split; [reflexivity|].
  assert (Hms : duration_ms Sample.speaking
                - prefix_padding_ms Sample.turn_detection_300 = 2800)
    by (vm_compute; reflexivity).
  assert (Hdur : duration_ms Sample.speaking > 3000) by (vm_compute; reflexivity).
  split; [|split].
  - pose proof (proj1 (proj2 (in_speech_evaluation Sample.silent_vad Sample.item_ids
                  Sample.speaking Sample.turn_detection_300 Sample.fresh_session
                  2001 eq_refl eq_refl)) eq_refl) as H.
    rewrite Hms in H. destruct H as [b' [Hrun [Hend [Hstart _]]]].
    exists b'. repeat split; assumption.
  - pose proof (proj1 (in_speech_evaluation Sample.first_half_vad Sample.item_ids
                  Sample.speaking Sample.turn_detection_300 Sample.fresh_session
                  2001 eq_refl eq_refl) {| ts_start := 0; ts_end := 1500 |}) as H.
    rewrite Hms in H.
    assert (Hspan : found_span Sample.first_half_vad Sample.speaking
                      Sample.turn_detection_300
                    = Some {| ts_start := 0; ts_end := 1500 |})
      by (vm_compute; reflexivity).
    destruct (H Hspan eq_refl Hdur) as [b' [Hrun [Hend [Hstart _]]]].
    exists b'. repeat split; assumption.
  - apply (proj2 (proj2 (in_speech_evaluation Sample.second_half_vad Sample.item_ids
                  Sample.speaking Sample.turn_detection_300 Sample.fresh_session
                  2001 eq_refl eq_refl)) {| ts_start := 1500; ts_end := 3000 |}).
    + vm_compute. reflexivity.
    + left. discriminate.
Defined.

Lemma commit_of_nonempty_buffer_witness :
  (last_key (input_audio_buffers (ctx Sample.later_session)) = Some "item_a"
   /\ getitem "item_a" (input_audio_buffers (ctx Sample.later_session))
      = Some Sample.ten_ms
   /\ size Sample.ten_ms <> 0
   /\ last_key (conversation (ctx Sample.later_session)) = Some "item_z"
   /\ ~ In (Sample.item_ids 1) (keys (input_audio_buffers (ctx Sample.later_session)))
   /\ exists w',
        handle_input_audio_buffer_commit Sample.item_ids Sample.event_ids
          Sample.later_session = Ok tt w'
        /\ pubsub (ctx w') = [InputAudioBufferCommittedEvent "item_0" "item_z" "item_a"]
        /\ input_audio_buffers (ctx w')
           = [("item_z", Sample.closed); ("item_a", Sample.ten_ms);
              ("item_1", empty_buffer "item_1")]
        /\ last_key (input_audio_buffers (ctx w')) = Some "item_1"
        /\ getitem "item_a" (input_audio_buffers (ctx w')) = Some Sample.ten_ms)
  /\ (last_key (input_audio_buffers (ctx Sample.recording_session)) = Some "item_a"
      /\ getitem "item_a" (input_audio_buffers (ctx Sample.recording_session))
         = Some Sample.ten_ms
      /\ last_key (conversation (ctx Sample.recording_session)) = None
      /\ exists w',
           handle_input_audio_buffer_commit Sample.item_ids Sample.event_ids
             Sample.recording_session = Raise ValidationError w'
           /\ ctx w' = ctx Sample.recording_session
           /\ draws w' = 1%nat).
Proof.
  assert (Hsize : size Sample.ten_ms <> 0) by (vm_compute; discriminate).
  assert (Hfresh : ~ In (Sample.item_ids 1)
                       (keys (input_audio_buffers (ctx Sample.later_session)))).
  { intros [H|[H|[]]]; vm_compute in H; discriminate H. }
  split.
  - split; [reflexivity|]. split; [reflexivity|].
    split; [exact Hsize|]. split; [reflexivity|]. split; [exact Hfresh|].
    destruct (proj1 (commit_of_nonempty_buffer Sample.item_ids Sample.event_ids
                       Sample.later_session "item_a" Sample.ten_ms
                       eq_refl eq_refl Hsize) "item_z" eq_refl Hfresh)
      as [w' [Hrun [Hpub [Hbufs [Hlast [_ [_ [_ [Hkept _]]]]]]]]].
    exists w'. repeat split; assumption.
  - split; [reflexivity|]. split; [reflexivity|]. split; [reflexivity|].
    exact (proj2 (commit_of_nonempty_buffer Sample.item_ids Sample.event_ids
                    Sample.recording_session "item_a" Sample.ten_ms
                    eq_refl eq_refl Hsize) eq_refl).
Defined.

Lemma clear_replaces_active_buffer_witness :
  wf (input_audio_buffers (ctx Sample.later_session))
  /\ last_key (input_audio_buffers (ctx Sample.later_session)) = Some "item_a"
  /\ ~ In (Sample.item_ids 1) (keys (input_audio_buffers (ctx Sample.later_session)))
  /\ exists w',
       handle_input_audio_buffer_clear Sample.item_ids Sample.later_session = Ok tt w'
       /\ input_audio_buffers (ctx w')
          = [("item_z", Sample.closed); ("item_1", empty_buffer "item_1")]
       /\ getitem "item_a" (input_audio_buffers (ctx w')) = None
       /\ pubsub (ctx w') = [InputAudioBufferClearedEvent "item_0"].
Proof.
  assert (Hwf : wf (input_audio_buffers (ctx Sample.later_session))).
  { repeat constructor.
    - intros [H|[]]. discriminate H.
    - intros []. }
  assert (Hfresh : ~ In (Sample.item_ids 1)
                       (keys (input_audio_buffers (ctx Sample.later_session)))).
  { intros [H|[H|[]]]; vm_compute in H; discriminate H. }
  split; [exact Hwf|]. split; [reflexivity|]. split; [exact Hfresh|].
  destruct (clear_replaces_active_buffer Sample.item_ids Sample.later_session
              "item_a" Hwf eq_refl Hfresh)
    as [w' [remaining [b [Hrun [Hbefore [Hafter [_ [Hgone [Hpub _]]]]]]]]].
  exists w'. split; [exact Hrun|].
  assert (Hrem : remaining = [("item_z", Sample.closed)]).
  { change (input_audio_buffers (ctx Sample.later_session))
      with ([("item_z", Sample.closed)] ++ [("item_a", Sample.ten_ms)]) in Hbefore.
    apply app_inj_tail in Hbefore. destruct Hbefore as [Hr _]. symmetry. exact Hr. }
  rewrite Hrem in Hafter. repeat split; assumption.
Defined.

Lemma speech_stopped_rotates_and_commits_witness :
  last_key (input_audio_buffers (ctx Sample.later_session)) = Some "item_a"
  /\ ~ In (Sample.item_ids 0) (keys (input_audio_buffers (ctx Sample.later_session)))
  /\ exists w',
       handle_input_audio_buffer_speech_stopped Sample.item_ids "item_a"
         Sample.later_session = Ok tt w'
       /\ input_audio_buffers (ctx w')
          = [("item_z", Sample.closed); ("item_a", Sample.ten_ms);
             ("item_0", empty_buffer "item_0")]
       /\ last_key (input_audio_buffers (ctx w')) = Some "item_0"
       /\ pubsub (ctx w')
          = [InputAudioBufferCommittedEvent "item_1" "item_z" "item_a"].
Proof.
  assert (Hfresh : ~ In (Sample.item_ids 0)
                       (keys (input_audio_buffers (ctx Sample.later_session)))).
  { intros [H|[H|[]]]; vm_compute in H; discriminate H. }
  split; [reflexivity|]. split; [exact Hfresh|].
  destruct (speech_stopped_rotates_and_commits Sample.item_ids Sample.later_session
              "item_a" eq_refl Hfresh)
    as [w' [Hrun [Hbufs [Hlast [_ [_ Hpub]]]]]].
  exists w'. repeat split; assumption.
Defined.

(** C9 fails as stated: a single 24 kHz sample resamples to nothing, the
    active buffer of a fresh session stays zero-length, and the VAD
    capability is called all the same, on an empty window. *)
Lemma zero_length_buffer_reaches_vad :
  exists w',
    handle_input_audio_buffer_append Sample.silent_vad Sample.item_ids
      Sample.one_sample_per_char "A" Sample.fresh_session = Ok tt w'
    /\ turn_detection (configuration (ctx Sample.fresh_session))
       = Some Sample.default_turn_detection
    /\ last_key (input_audio_buffers (ctx w')) = Some "item_a"
    /\ getitem "item_a" (input_audio_buffers (ctx w')) = Some (empty_buffer "item_a")
    /\ size (empty_buffer "item_a") = 0
    /\ vad_calls Sample.fresh_session = []
    /\ vad_calls w' = [([], vad_options Sample.default_turn_detection)]
    /\ vad_calls w' <> vad_calls Sample.fresh_session.
Proof.
  eexists. split; [vm_compute; reflexivity|].
  repeat split; try reflexivity. cbn. discriminate.
Qed.

Lemma append_evaluates_any_length_witness :
  resample_audio_data (Sample.one_sample_per_char "ABC") 24000 16000
  = Some [1 # 2; 1 # 2]%Q
  /\ last_key (input_audio_buffers (ctx Sample.recording_session)) = Some "item_a"
  /\ getitem "item_a" (input_audio_buffers (ctx Sample.recording_session))
     = Some Sample.ten_ms
  /\ turn_detection (configuration (ctx Sample.recording_session))
     = Some Sample.default_turn_detection
  /\ exists w' b',
       handle_input_audio_buffer_append Sample.second_half_vad Sample.item_ids
         Sample.one_sample_per_char "ABC" Sample.recording_session = Ok tt w'
       /\ vad_calls w'
          = [(Sample.silence 160 ++ [1 # 2; 1 # 2]%Q,
              vad_options Sample.default_turn_detection)]
       /\ getitem "item_a" (input_audio_buffers (ctx w')) = Some b'
       /\ data b' = Sample.silence 160 ++ [1 # 2; 1 # 2]%Q.
Proof.
  assert (Hres : resample_audio_data (Sample.one_sample_per_char "ABC") 24000 16000
                 = Some [1 # 2; 1 # 2]%Q) by (vm_compute; reflexivity).
  split; [exact Hres|]. repeat (split; [reflexivity|]).
  destruct (append_evaluates_any_length Sample.second_half_vad Sample.item_ids
              Sample.one_sample_per_char Sample.recording_session "ABC"
              [1 # 2; 1 # 2]%Q "item_a" Sample.ten_ms Sample.default_turn_detection
              Hres eq_refl eq_refl eq_refl)
    as [w' [b' [Hrun [Hcalls [_ [Hget Hdata]]]]]].
  exists w', b'. repeat split; assumption.
Defined.

(** ** Further statements on sample sessions *)

Lemma second_half_vad_within : spans_within_window Sample.second_half_vad.
Proof.
  intros window options. unfold Sample.second_half_vad.
  constructor; [|constructor].
  unfold span_within. cbn [ts_start ts_end].
  assert (0 <= Z.of_nat (length window)) by lia.
  repeat split.
  - apply Z.div_pos; lia.
  - apply Z.div_le_upper_bound; lia.
  - lia.
Qed.

Lemma recording_session_ok : session_ok (ctx Sample.recording_session).
Proof.
  unfold session_ok. cbn. repeat split.
  - repeat constructor. intros [].
  - discriminate.
  - repeat constructor.
  - constructor.
Qed.

Lemma later_session_ok : session_ok (ctx Sample.later_session).
Proof.
  unfold session_ok. cbn. repeat split.
  - repeat constructor; [intros [H|[]]; discriminate H | intros []].
  - discriminate.
  - repeat constructor.
  - repeat constructor. intros [].
Qed.

Lemma found_span_within_window_witness :
  spans_within_window Sample.second_half_vad
  /\ found_span Sample.second_half_vad Sample.listening Sample.turn_detection_300
     = Some {| ts_start := 1500; ts_end := 3000 |}
  /\ span_within (window_duration_ms Sample.listening)
       {| ts_start := 1500; ts_end := 3000 |}
  /\ window_duration_ms Sample.listening <= 3000.
Proof.
  assert (Hspan : found_span Sample.second_half_vad Sample.listening
                    Sample.turn_detection_300
                  = Some {| ts_start := 1500; ts_end := 3000 |})
    by (vm_compute; reflexivity).
  split; [exact second_half_vad_within|]. split; [exact Hspan|].
  exact (found_span_within_window Sample.second_half_vad Sample.listening
           Sample.turn_detection_300 _ second_half_vad_within Hspan).
Defined.

Lemma ten_ms_hears_speech :
  vad_detection_flow Sample.second_half_vad Sample.item_ids Sample.ten_ms
    Sample.default_turn_detection Sample.fresh_session
  = Ok (Some (InputAudioBufferSpeechStartedEvent "item_0" "item_a" 5),
        set_audio_start_ms Sample.ten_ms 5)
       (drawn (logged Sample.fresh_session Sample.ten_ms Sample.default_turn_detection)).
Proof. vm_compute. reflexivity. Qed.

Lemma speech_started_position_witness :
  spans_within_window Sample.second_half_vad
  /\ audio_start_ms (vad_state Sample.ten_ms) = None
  /\ exists ms,
       InputAudioBufferSpeechStartedEvent "item_0" "item_a" 5
       = InputAudioBufferSpeechStartedEvent (Sample.item_ids 0) (id Sample.ten_ms) ms
       /\ audio_start_ms (vad_state (set_audio_start_ms Sample.ten_ms 5)) = Some ms
       /\ Z.max 0 (duration_ms Sample.ten_ms - 3000) <= ms <= duration_ms Sample.ten_ms.
Proof.
  split; [exact second_half_vad_within|]. split; [reflexivity|].
  exact (speech_started_position Sample.second_half_vad Sample.item_ids
           Sample.ten_ms Sample.default_turn_detection Sample.fresh_session
           _ _ _ second_half_vad_within eq_refl ten_ms_hears_speech).
Defined.

Lemma speaking_goes_on :
  vad_detection_flow Sample.second_half_vad Sample.item_ids Sample.speaking
    Sample.turn_detection_300 Sample.fresh_session
  = Ok (None, Sample.speaking)
       (logged Sample.fresh_session Sample.speaking Sample.turn_detection_300).
Proof.
  rewrite vad_detection_flow_unfold.
  change (audio_start_ms (vad_state Sample.speaking)) with (Some 2001).
  assert (Hspan : found_span Sample.second_half_vad Sample.speaking
                    Sample.turn_detection_300
                  = Some {| ts_start := 1500; ts_end := 3000 |})
    by (vm_compute; reflexivity).
  rewrite Hspan. reflexivity.
Qed.

Lemma speech_goes_on_only_at_the_live_edge_witness :
  spans_within_window Sample.second_half_vad
  /\ audio_start_ms (vad_state Sample.speaking) = Some 2001
  /\ duration_ms Sample.speaking > 3000
  /\ exists raw,
       raw_span Sample.second_half_vad Sample.speaking Sample.turn_detection_300
       = Some raw
       /\ ts_end raw = MAX_VAD_WINDOW_SIZE_SAMPLES.
Proof.
  assert (Hdur : duration_ms Sample.speaking > 3000) by (vm_compute; reflexivity).
  split; [exact second_half_vad_within|]. split; [reflexivity|]. split; [exact Hdur|].
  exact (proj1 (proj1 (speech_goes_on_only_at_the_live_edge Sample.second_half_vad
                         Sample.item_ids Sample.speaking Sample.turn_detection_300
                         Sample.fresh_session 2001 _ _ _
                         second_half_vad_within eq_refl Hdur speaking_goes_on))
               eq_refl).
Defined.

Lemma evaluation_frame_witness :
  id (set_audio_start_ms Sample.ten_ms 5) = id Sample.ten_ms
  /\ data (set_audio_start_ms Sample.ten_ms 5) = data Sample.ten_ms
  /\ ctx (drawn (logged Sample.fresh_session Sample.ten_ms
                   Sample.default_turn_detection))
     = ctx Sample.fresh_session
  /\ vad_calls (drawn (logged Sample.fresh_session Sample.ten_ms
                         Sample.default_turn_detection))
     = vad_calls Sample.fresh_session
       ++ [(audio_window Sample.ten_ms, vad_options Sample.default_turn_detection)]
  /\ event_item_id (InputAudioBufferSpeechStartedEvent "item_0" "item_a" 5)
     = Some (id Sample.ten_ms)
  /\ draws (drawn (logged Sample.fresh_session Sample.ten_ms
                     Sample.default_turn_detection))
     = S (draws Sample.fresh_session).
Proof.
  exact (evaluation_frame Sample.second_half_vad Sample.item_ids Sample.ten_ms
           Sample.default_turn_detection Sample.fresh_session _ _ _
           ten_ms_hears_speech).
Defined.

Lemma markers_stay_ordered_witness :
  spans_within_window Sample.second_half_vad
  /\ markers_ordered Sample.turn_detection_300 Sample.ten_ms
  /\ exists evs b' w',
       evaluations Sample.second_half_vad Sample.item_ids Sample.ten_ms
         Sample.turn_detection_300 [Sample.silence 16; []; Sample.silence 32]
         Sample.fresh_session
       = Ok (evs, b') w'
       /\ markers_ordered Sample.turn_detection_300 b'.
Proof.
  split; [exact second_half_vad_within|]. split; [exact I|].
  destruct (evaluations Sample.second_half_vad Sample.item_ids Sample.ten_ms
              Sample.turn_detection_300 [Sample.silence 16; []; Sample.silence 32]
              Sample.fresh_session) as [[evs b'] w'|e w'] eqn:E.
  - exists evs, b', w'. split; [reflexivity|].
    exact (markers_stay_ordered Sample.second_half_vad Sample.item_ids
             Sample.turn_detection_300 _ Sample.ten_ms Sample.fresh_session
             evs b' w' second_half_vad_within I E).
  - vm_compute in E. discriminate E.
Defined.

Lemma handlers_keep_session_ok_witness :
  session_ok (ctx Sample.later_session)
  /\ exists w',
       handle_input_audio_buffer_clear Sample.item_ids Sample.later_session = Ok tt w'
       /\ session_ok (ctx w').
Proof.
  split; [exact later_session_ok|].
  destruct (handle_input_audio_buffer_clear Sample.item_ids Sample.later_session)
    as [[] w'|e w'] eqn:E.
  - exists w'. split; [reflexivity|].
    exact (handlers_keep_session_ok Sample.silent_vad Sample.item_ids Sample.event_ids
             Sample.one_sample_per_char _ Sample.later_session w'
             (call_clear _ _ _ _) later_session_ok E).
  - vm_compute in E. discriminate E.
Defined.

Lemma rotations_do_not_fail_witness :
  session_ok (ctx Sample.later_session)
  /\ (exists w',
        handle_input_audio_buffer_clear Sample.item_ids Sample.later_session = Ok tt w')
  /\ session_ok (ctx Sample.recording_session)
  /\ exists key b,
       last_key (input_audio_buffers (ctx Sample.recording_session)) = Some key
       /\ getitem key (input_audio_buffers (ctx Sample.recording_session)) = Some b
       /\ ((size b = 0 \/ conversation (ctx Sample.recording_session) <> [] ->
            exists w',
              handle_input_audio_buffer_commit Sample.item_ids Sample.event_ids
                Sample.recording_session = Ok tt w')
           /\ (size b <> 0 -> conversation (ctx Sample.recording_session) = [] ->
               exists w',
                 handle_input_audio_buffer_commit Sample.item_ids Sample.event_ids
                   Sample.recording_session = Raise ValidationError w'
                 /\ ctx w' = ctx Sample.recording_session)).
Proof.
  split; [exact later_session_ok|]. split.
  - exact (proj1 (rotations_do_not_fail Sample.item_ids Sample.event_ids
                    Sample.later_session later_session_ok)).
  - split; [exact recording_session_ok|].
    exact (proj2 (proj2 (proj2 (rotations_do_not_fail Sample.item_ids Sample.event_ids
                                  Sample.recording_session recording_session_ok)))).
Defined.

Lemma handlers_publish_at_most_one_witness :
  exists w',
    handle_input_audio_buffer_append Sample.second_half_vad Sample.item_ids
      Sample.one_sample_per_char "ABC" Sample.recording_session = Ok tt w'
    /\ exists events,
         pubsub (ctx w') = pubsub (ctx Sample.recording_session) ++ events
         /\ (length events <= 1)%nat
         /\ configuration (ctx w') = configuration (ctx Sample.recording_session)
         /\ exists calls,
              vad_calls w' = vad_calls Sample.recording_session ++ calls
              /\ (length calls <= 1)%nat.
Proof.
  destruct (handle_input_audio_buffer_append Sample.second_half_vad Sample.item_ids
              Sample.one_sample_per_char "ABC" Sample.recording_session)
    as [[] w'|e w'] eqn:E.
  - exists w'. split; [reflexivity|].
    exact (handlers_publish_at_most_one Sample.second_half_vad Sample.item_ids
             Sample.event_ids Sample.one_sample_per_char _ Sample.recording_session w'
             (call_append _ _ _ _ "ABC") E).
  - vm_compute in E. discriminate E.
Defined.

Lemma handlers_without_buffers_witness :
  input_audio_buffers (ctx Sample.no_buffers) = []
  /\ handle_input_audio_buffer_commit Sample.item_ids Sample.event_ids Sample.no_buffers
     = Raise StopIteration Sample.no_buffers
  /\ handle_input_audio_buffer_clear Sample.item_ids Sample.no_buffers
     = Raise KeyError Sample.no_buffers.
Proof.
  split; [reflexivity|].
  destruct (handlers_without_buffers Sample.silent_vad Sample.item_ids Sample.event_ids
              Sample.one_sample_per_char Sample.no_buffers eq_refl)
    as [Hcommit [Hclear _]].
  split; assumption.
Defined.

Lemma append_frame_witness :
  exists w',
    handle_input_audio_buffer_append Sample.second_half_vad Sample.item_ids
      Sample.one_sample_per_char "ABC" Sample.later_session = Ok tt w'
    /\ keys (input_audio_buffers (ctx w')) = ["item_z"; "item_a"]
    /\ getitem "item_z" (input_audio_buffers (ctx w')) = Some Sample.closed
    /\ conversation (ctx w') = conversation (ctx Sample.later_session).
Proof.
  destruct (handle_input_audio_buffer_append Sample.second_half_vad Sample.item_ids
              Sample.one_sample_per_char "ABC" Sample.later_session)
    as [[] w'|e w'] eqn:E.
  - exists w'. split; [reflexivity|].
    destruct (append_frame Sample.second_half_vad Sample.item_ids
                Sample.one_sample_per_char Sample.later_session "ABC" w' E)
      as [chunk [key [b [b' [_ [Hkey [_ [Hkeys [_ [_ [_ [Hother Hconv]]]]]]]]]]]].
    injection Hkey as <-.
    split; [exact Hkeys|]. split; [|exact Hconv].
    rewrite Hother by discriminate. reflexivity.
  - vm_compute in E. discriminate E.
Defined.

Lemma append_without_turn_detection_witness :
  turn_detection (configuration (ctx Sample.quiet_session)) = None
  /\ exists w',
       handle_input_audio_buffer_append Sample.second_half_vad Sample.item_ids
         Sample.one_sample_per_char "ABC" Sample.quiet_session = Ok tt w'
       /\ vad_calls w' = []
       /\ pubsub (ctx w') = []
       /\ draws w' = 0%nat.
Proof.
  split; [reflexivity|].
  destruct (handle_input_audio_buffer_append Sample.second_half_vad Sample.item_ids
              Sample.one_sample_per_char "ABC" Sample.quiet_session)
    as [[] w'|e w'] eqn:E.
  - exists w'. split; [reflexivity|].
    destruct (append_without_turn_detection Sample.second_half_vad Sample.item_ids
                Sample.one_sample_per_char Sample.quiet_session "ABC" w' eq_refl E)
      as [Hcalls [Hpub [Hdraws _]]].
    repeat split; assumption.
  - vm_compute in E. discriminate E.
Defined.

Lemma append_publishes_what_it_stores_witness :
  session_ok (ctx Sample.recording_session)
  /\ turn_detection (configuration (ctx Sample.recording_session))
     = Some Sample.default_turn_detection
  /\ exists w' key b b',
       handle_input_audio_buffer_append Sample.second_half_vad Sample.item_ids
         Sample.one_sample_per_char "ABC" Sample.recording_session = Ok tt w'
       /\ last_key (input_audio_buffers (ctx Sample.recording_session)) = Some key
       /\ getitem key (input_audio_buffers (ctx Sample.recording_session)) = Some b
       /\ getitem key (input_audio_buffers (ctx w')) = Some b'
       /\ ((pubsub (ctx w') = pubsub (ctx Sample.recording_session)
            /\ vad_state b' = vad_state b)
           \/ (exists eid ms,
                 pubsub (ctx w')
                 = pubsub (ctx Sample.recording_session)
                   ++ [InputAudioBufferSpeechStartedEvent eid key ms]
                 /\ audio_start_ms (vad_state b) = None
                 /\ audio_start_ms (vad_state b') = Some ms
                 /\ audio_end_ms (vad_state b') = audio_end_ms (vad_state b))
           \/ (exists eid ms,
                 pubsub (ctx w')
                 = pubsub (ctx Sample.recording_session)
                   ++ [InputAudioBufferSpeechStoppedEvent eid key ms]
                 /\ audio_start_ms (vad_state b) <> None
                 /\ audio_start_ms (vad_state b') = audio_start_ms (vad_state b)
                 /\ audio_end_ms (vad_state b') = Some ms)).
Proof.
  split; [exact recording_session_ok|]. split; [reflexivity|].
  destruct (handle_input_audio_buffer_append Sample.second_half_vad Sample.item_ids
              Sample.one_sample_per_char "ABC" Sample.recording_session)
    as [[] w'|e w'] eqn:E.
  - destruct (append_publishes_what_it_stores Sample.second_half_vad Sample.item_ids
                Sample.one_sample_per_char Sample.recording_session "ABC"
                Sample.default_turn_detection w' recording_session_ok eq_refl E)
      as [key [b [b' H]]].
    exists w', key, b, b'. split; [reflexivity | exact H].
  - vm_compute in E. discriminate E.
Defined.

Lemma speech_stopped_then_committed_witness :
  ~ In "item_a" (keys (conversation (ctx Sample.later_session)))
  /\ ~ In (Sample.item_ids 0) (keys (input_audio_buffers (ctx Sample.later_session)))
  /\ exists w',
       (handle_input_audio_buffer_speech_stopped Sample.item_ids "item_a" ;;;
        handle_input_audio_buffer_committed Sample.item_ids "item_a")
         Sample.later_session = Ok tt w'
       /\ last_key (conversation (ctx w')) = Some "item_a"
       /\ last_key (input_audio_buffers (ctx w')) = Some "item_0"
       /\ pubsub (ctx w')
          = [InputAudioBufferCommittedEvent "item_1" "item_z" "item_a";
             ConversationItemCreatedEvent "item_2" None (user_audio_item "item_a")].
Proof.
  assert (Hitem : ~ In "item_a" (keys (conversation (ctx Sample.later_session)))).
  { intros [H|[]]. discriminate H. }
  assert (Hfresh : ~ In (Sample.item_ids 0)
                       (keys (input_audio_buffers (ctx Sample.later_session)))).
  { intros [H|[H|[]]]; vm_compute in H; discriminate H. }
  split; [exact Hitem|]. split; [exact Hfresh|].
  destruct (speech_stopped_then_committed Sample.item_ids Sample.later_session
              "item_a" Hitem Hfresh)
    as [w' [Hrun [Hconv [_ [Hlast [_ Hpub]]]]]].
  exists w'. repeat split; assumption.
Defined.

Lemma next_turn_points_at_last_item_witness :
  ~ In "item_a" (keys (conversation (ctx Sample.recording_session)))
  /\ exists w',
       (handle_input_audio_buffer_committed Sample.item_ids "item_a" ;;;
        handle_input_audio_buffer_speech_stopped Sample.item_ids "item_b")
         Sample.recording_session = Ok tt w'
       /\ pubsub (ctx w')
          = [ConversationItemCreatedEvent "item_0" None (user_audio_item "item_a");
             InputAudioBufferCommittedEvent "item_2" "item_a" "item_b"].
Proof.
  assert (Hitem : ~ In "item_a" (keys (conversation (ctx Sample.recording_session))))
    by (intros []).
  split; [exact Hitem|].
  exact (proj1 (next_turn_points_at_last_item Sample.item_ids Sample.event_ids
                  Sample.recording_session "item_a" Hitem) "item_b").
Defined.

Lemma commit_after_rotation_is_refused_witness :
  input_audio_buffers (ctx Sample.later_session) <> []
  /\ ~ In (Sample.item_ids 0) (keys (input_audio_buffers (ctx Sample.later_session)))
  /\ ~ In (Sample.item_ids 1) (keys (input_audio_buffers (ctx Sample.later_session)))
  /\ last_key (conversation (ctx Sample.later_session)) = Some "item_z"
  /\ exists w1 w2,
       handle_input_audio_buffer_commit Sample.item_ids Sample.event_ids
         Sample.later_session = Ok tt w1
       /\ handle_input_audio_buffer_commit Sample.item_ids Sample.event_ids w1
          = Ok tt w2
       /\ pubsub (ctx w2)
          = pubsub (ctx w1)
            ++ [ErrorEvent (Sample.event_ids (draws w1))
                  empty_input_audio_buffer_commit_error]
       /\ input_audio_buffers (ctx w2) = input_audio_buffers (ctx w1).
Proof.
  assert (Hne : input_audio_buffers (ctx Sample.later_session) <> [])
    by discriminate.
  assert (H0 : ~ In (Sample.item_ids 0)
                   (keys (input_audio_buffers (ctx Sample.later_session)))).
  { intros [H|[H|[]]]; vm_compute in H; discriminate H. }
  assert (H1 : ~ In (Sample.item_ids 1)
                   (keys (input_audio_buffers (ctx Sample.later_session)))).
  { intros [H|[H|[]]]; vm_compute in H; discriminate H. }
  assert (Hsize : size Sample.ten_ms <> 0) by (vm_compute; discriminate).
  split; [exact Hne|]. split; [exact H0|]. split; [exact H1|].
  split; [reflexivity|].
  exact (proj1 (commit_after_rotation_is_refused Sample.item_ids Sample.event_ids
                  Sample.later_session Hne H0 H1)
               "item_a" Sample.ten_ms "item_z" eq_refl eq_refl Hsize eq_refl).
Defined.

Lemma colliding_identifier_overwrites_witness :
  last_key (input_audio_buffers (ctx Sample.later_session)) = Some "item_a"
  /\ getitem "item_a" (input_audio_buffers (ctx Sample.later_session))
     = Some Sample.ten_ms
  /\ size Sample.ten_ms <> 0
  /\ last_key (conversation (ctx Sample.later_session)) = Some "item_z"
  /\ In (Sample.colliding_ids 1) (keys (input_audio_buffers (ctx Sample.later_session)))
  /\ exists w',
       handle_input_audio_buffer_commit Sample.colliding_ids Sample.event_ids
         Sample.later_session = Ok tt w'
       /\ keys (input_audio_buffers (ctx w')) = ["item_z"; "item_a"]
       /\ last_key (input_audio_buffers (ctx w')) = Some "item_a"
       /\ getitem "item_a" (input_audio_buffers (ctx w'))
          = Some (empty_buffer "item_a").
Proof.
  assert (Hsize : size Sample.ten_ms <> 0) by (vm_compute; discriminate).
  assert (Hin : In (Sample.colliding_ids 1)
                   (keys (input_audio_buffers (ctx Sample.later_session))))
    by (right; left; reflexivity).
  split; [reflexivity|]. split; [reflexivity|]. split; [exact Hsize|].
  split; [reflexivity|]. split; [exact Hin|].
  exact (colliding_identifier_overwrites Sample.colliding_ids Sample.event_ids
           Sample.later_session "item_a" Sample.ten_ms "item_z"
           eq_refl eq_refl Hsize eq_refl Hin).
Defined.

Lemma squares_resampled :
  resample_audio_data Sample.squares 24000 16000
  = Some [0; 4 # 1; 16 # 1; 25 # 1]%Q.
Proof. vm_compute. reflexivity. Qed.

Lemma resample_keeps_the_ends_witness :
  Sample.squares <> []
  /\ 0 < 24000
  /\ 0 < 16000
  /\ (nth 0 [0; 4 # 1; 16 # 1; 25 # 1] 0 == nth 0 Sample.squares 0)%Q
  /\ (nth 3 [0; 4 # 1; 16 # 1; 25 # 1] 0 == nth 5 Sample.squares 0)%Q.
Proof.
  assert (H1 : Sample.squares <> []) by discriminate.
  split; [exact H1|]. split; [reflexivity|]. split; [reflexivity|].
  destruct (resample_keeps_the_ends Sample.squares 24000 16000 _ H1 eq_refl eq_refl
              squares_resampled) as [Hfirst Hlast].
  split; [apply Hfirst | apply Hlast]; cbn; lia.
Defined.

Lemma squares_in_range : Forall (fun x => 0 <= x <= 25 # 1)%Q Sample.squares.
Proof. repeat constructor; cbn; discriminate. Qed.

Lemma resample_stays_in_range_witness :
  Sample.squares <> []
  /\ 0 < 24000
  /\ 0 < 16000
  /\ Forall (fun x => 0 <= x <= 25 # 1)%Q Sample.squares
  /\ Forall (fun y => 0 <= y <= 25 # 1)%Q [0; 4 # 1; 16 # 1; 25 # 1]%Q.
Proof.
  assert (H1 : Sample.squares <> []) by discriminate.
  split; [exact H1|]. split; [reflexivity|]. split; [reflexivity|].
  split; [exact squares_in_range|].
  exact (resample_stays_in_range 0 (25 # 1) Sample.squares 24000 16000 _ H1
           eq_refl eq_refl squares_in_range squares_resampled).
Defined.

Lemma resample_length_follows_rates_witness :
  Sample.squares <> []
  /\ 0 < 24000
  /\ 0 < 16000
  /\ Z.of_nat (length Sample.squares) <= 2 ^ 53
  /\ 16000 <= 24000
  /\ (length [0; 4 # 1; 16 # 1; 25 # 1]%Q <= length Sample.squares)%nat.
Proof.
  assert (H1 : Sample.squares <> []) by discriminate.
  assert (Hsize : Z.of_nat (length Sample.squares) <= 2 ^ 53) by discriminate.
  assert (Hle : 16000 <= 24000) by discriminate.
  split; [exact H1|]. split; [reflexivity|]. split; [reflexivity|].
  split; [exact Hsize|]. split; [exact Hle|].
  exact (proj1 (resample_length_follows_rates Sample.squares 24000 16000 _ H1
                  eq_refl eq_refl Hsize squares_resampled) Hle).
Defined.

Lemma resample_two_thirds_witness :
  Sample.squares <> []
  /\ Z.of_nat (length Sample.squares) < 2 ^ 37
  /\ exists out,
       resample_audio_data Sample.squares 24000 16000 = Some out
       /\ Z.of_nat (length out) = 2 * 6 / 3.
Proof.
  assert (H1 : Sample.squares <> []) by discriminate.
  assert (H2 : Z.of_nat (length Sample.squares) < 2 ^ 37) by reflexivity.
  split; [exact H1|]. split; [exact H2|].
  exact (resample_two_thirds Sample.squares H1 H2).
Defined.

Lemma append_grows_by_two_thirds_witness :
  Z.of_nat (length (Sample.one_sample_per_char "ABCDE")) < 2 ^ 37
  /\ exists w' key b b',
       handle_input_audio_buffer_append Sample.second_half_vad Sample.item_ids
         Sample.one_sample_per_char "ABCDE" Sample.recording_session = Ok tt w'
       /\ last_key (input_audio_buffers (ctx Sample.recording_session)) = Some key
       /\ getitem key (input_audio_buffers (ctx Sample.recording_session)) = Some b
       /\ getitem key (input_audio_buffers (ctx w')) = Some b'
       /\ size b' = size b + 2 * 5 / 3.
Proof.
  assert (Hshort : Z.of_nat (length (Sample.one_sample_per_char "ABCDE")) < 2 ^ 37)
    by reflexivity.
  split; [exact Hshort|].
  destruct (handle_input_audio_buffer_append Sample.second_half_vad Sample.item_ids
              Sample.one_sample_per_char "ABCDE" Sample.recording_session)
    as [[] w'|e w'] eqn:E.
  - destruct (append_grows_by_two_thirds Sample.second_half_vad Sample.item_ids
                Sample.one_sample_per_char Sample.recording_session "ABCDE" w'
                Hshort E)
      as [key [b [b' H]]].
    exists w', key, b, b'. split; [reflexivity | exact H].
  - vm_compute in E. discriminate E.
Defined.

Lemma only_the_last_span_counts_witness :
  raw_span Sample.two_spans_vad Sample.ten_ms Sample.default_turn_detection
  = raw_span Sample.second_half_vad Sample.ten_ms Sample.default_turn_detection
  /\ vad_detection_flow Sample.two_spans_vad Sample.item_ids Sample.ten_ms
       Sample.default_turn_detection Sample.fresh_session
     = vad_detection_flow Sample.second_half_vad Sample.item_ids Sample.ten_ms
         Sample.default_turn_detection Sample.fresh_session.
Proof.
  assert (H : raw_span Sample.two_spans_vad Sample.ten_ms Sample.default_turn_detection
              = raw_span Sample.second_half_vad Sample.ten_ms
                  Sample.default_turn_detection) by reflexivity.
  split; [exact H|].
  exact (only_the_last_span_counts Sample.two_spans_vad Sample.second_half_vad
           Sample.item_ids Sample.ten_ms Sample.default_turn_detection
           Sample.fresh_session H).
Defined.

Lemma append_of_no_audio_is_refused_witness :
  Sample.one_sample_per_char "" = []
  /\ handle_input_audio_buffer_append Sample.second_half_vad Sample.item_ids
       Sample.one_sample_per_char "" Sample.later_session
     = Raise ValueError Sample.later_session.
Proof.
  split; [reflexivity|].
  exact (append_of_no_audio_is_refused Sample.second_half_vad Sample.item_ids
           Sample.one_sample_per_char Sample.later_session "" eq_refl).
Defined.

Lemma closed_stops_again :
  vad_detection_flow Sample.silent_vad Sample.item_ids Sample.closed
    Sample.default_turn_detection Sample.fresh_session
  = Ok (Some (InputAudioBufferSpeechStoppedEvent "item_0" "item_z" 10),
        set_audio_end_ms Sample.closed 10)
       (drawn (logged Sample.fresh_session Sample.closed Sample.default_turn_detection)).
Proof. vm_compute. reflexivity. Qed.

Lemma default_configuration_evaluation_witness :
  turn_detection create_session_configuration = Some Sample.default_turn_detection
  /\ vad_calls (drawn (logged Sample.fresh_session Sample.closed
                         Sample.default_turn_detection))
     = [(audio_window Sample.closed,
         {| vad_threshold := 9 # 10;
            min_silence_duration_ms := 550;
            speech_pad_ms := 0 |})]
  /\ 10 = duration_ms Sample.closed
  /\ audio_end_ms (vad_state (set_audio_end_ms Sample.closed 10))
     = Some (duration_ms Sample.closed).
Proof.
  split; [reflexivity|].
  destruct (default_configuration_evaluation Sample.silent_vad Sample.item_ids
              Sample.default_turn_detection Sample.closed Sample.fresh_session
              _ _ _ eq_refl closed_stops_again) as [Hcalls Hstop].
  split; [exact Hcalls|].
  exact (Hstop "item_0" "item_z" 10 eq_refl).
Defined.
